(** * MonkeyOCR: biographical record segmentation and portrait-name linkage

    A shallow embedding of the Dolphin pipeline scripts under
    [src/image_name_extraction]:

    - [extract_all_names_Dolphin.py] and [extract_portrait_names_Dolphin.py]
      (name de-duplication, the name-boundary segmenter, the page-start
      portrait rule),
    - [azure_portrait_associator_Dolphin.py] (book grouping, the response
      parser, [process_book]),
    - [collecting_all_csv_files_Dolphin.py] (the reconciliation script).

    Python [str] values are modelled as lists of characters whose code
    points lie in 0..255 (Rocq's [ascii]); on that range the character
    classes [\d], [\w], [\s] and the case folding of [re.IGNORECASE] are
    the ones written out below.  Files, directory listings and the text
    generation service are inputs of the functions that use them. *)

From Stdlib Require Import Ascii String List ZArith NArith Lia Bool.
From stdpp Require Import base option list gmap strings fin_maps.
From stdpp Require sorting.

Set Default Proof Using "Type".

(** ** Python strings *)

Module PyStr.

Abbreviation text := (list ascii).

(** A literal. *)
Definition txt (s : string) : text := list_ascii_of_string s.

Definition code (c : ascii) : nat := nat_of_ascii c.

Definition between (lo hi : nat) (c : ascii) : bool :=
  (lo <=? code c) && (code c <=? hi).

(** [str.isspace], which is also the class [\s] of a [str] pattern. *)
Definition is_space (c : ascii) : bool :=
  between 9 13 c || between 28 32 c || (code c =? 133) || (code c =? 160).

(** The class [\d]. *)
Definition is_digit (c : ascii) : bool := between 48 57 c.

Definition is_upper (c : ascii) : bool :=
  between 65 90 c || (between 192 222 c && negb (code c =? 215)).

(** The class [\w]: alphanumeric code points and the underscore. *)
Definition is_word (c : ascii) : bool :=
  between 48 57 c || between 65 90 c || between 97 122 c || (code c =? 95)
  || (code c =? 170) || between 178 179 c || (code c =? 181)
  || between 185 186 c || between 188 190 c
  || between 192 214 c || between 216 246 c || between 248 255 c.

(** Case folding used by [re.IGNORECASE]. *)
Definition lower (c : ascii) : ascii :=
  if is_upper c then ascii_of_nat (code c + 32) else c.

Definition ci_eqb (a b : ascii) : bool :=
  bool_decide (lower a = lower b).

(** [s[a:b]] for [0 <= a]; Python clamps both ends to the string. *)
Definition slice (s : text) (a b : nat) : text := take (b - a) (drop a s).

Fixpoint lstrip (s : text) : text :=
  match s with
  | c :: s' => if is_space c then lstrip s' else s
  | [] => []
  end.

Definition rstrip (s : text) : text := reverse (lstrip (reverse s)).

(** [s.strip()] *)
Definition strip (s : text) : text := rstrip (lstrip s).

(** The longest prefix of characters in a class, and what follows it. *)
Fixpoint take_while (P : ascii → bool) (s : text) : text :=
  match s with
  | c :: s' => if P c then c :: take_while P s' else []
  | [] => []
  end.

Fixpoint drop_while (P : ascii → bool) (s : text) : text :=
  match s with
  | c :: s' => if P c then drop_while P s' else s
  | [] => []
  end.

Definition is_char (a : ascii) (c : ascii) : bool := bool_decide (c = a).

(** [s.startswith(p)] *)
Fixpoint startswith (p s : text) : bool :=
  match p, s with
  | [], _ => true
  | a :: p', b :: s' => bool_decide (a = b) && startswith p' s'
  | _ :: _, [] => false
  end.

(** A literal pattern matched at the head of [s] under [re.IGNORECASE]. *)
Fixpoint ci_startswith (p s : text) : bool :=
  match p, s with
  | [], _ => true
  | a :: p', b :: s' => ci_eqb a b && ci_startswith p' s'
  | _ :: _, [] => false
  end.

(** [re.search(re.escape(p), s, re.IGNORECASE)]: the start of the leftmost
    match, or [None]. *)
Fixpoint re_search_ci (p s : text) : option nat :=
  if ci_startswith p s then Some 0
  else match s with
       | [] => None
       | _ :: s' => S <$> re_search_ci p s'
       end.

(** [s.find(p)]: the index of the first exact occurrence. *)
Fixpoint find (p s : text) : option nat :=
  if startswith p s then Some 0
  else match s with
       | [] => None
       | _ :: s' => S <$> find p s'
       end.

(** [re.sub(r'[^\w\s]', '', s)] *)
Definition strip_punctuation (s : text) : text :=
  filter (λ c, is_word c || is_space c) s.

(** *** What a search is expected to find *)

(** The literal [p] occurs in [s] at index [i], letter case ignored. *)
Definition occurs_at (p s : text) (i : nat) : Prop :=
  i + length p ≤ length s ∧
  lower <$> take (length p) (drop i s) = lower <$> p.

Definition first_occurrence (p s : text) (i : nat) : Prop :=
  occurs_at p s i ∧ ∀ j, j < i → ¬ occurs_at p s j.

Definition absent (p s : text) : Prop := ∀ i, ¬ occurs_at p s i.

End PyStr.

Import PyStr.

(** ** Exceptions

    Calls that can raise return a sum, with the exception on the left. *)

Inductive exn : Type :=
  | KeyError (key : string)
  | AttributeError (msg : string)
  | RecursionError
  | OtherException (msg : string).

Definition result (A : Type) : Type := exn + A.

Definition raise {A} (e : exn) : result A := inl e.
Definition ret {A} (a : A) : result A := inr a.
Definition bind {A B} (m : result A) (k : A → result B) : result B :=
  match m with
  | inl e => inl e
  | inr a => k a
  end.

Notation "'let*' x ':=' m 'in' k" := (bind m (λ x, k))
  (at level 10, x name, m at level 100, k at level 200, only parsing).

(** [re.findall]: the matches from left to right, none overlapping.  A
    matcher gives, for a match at the head of the text, its length and
    the item that [findall] returns; [skip] characters of the last match
    are still to be passed over.  No pattern below matches the empty
    text. *)
Fixpoint findall_from (matcher : text → option (nat * text))
    (skip : nat) (s : text) : list text :=
  match s with
  | [] => []
  | _ :: s' =>
      match skip with
      | S k => findall_from matcher k s'
      | 0 =>
          match matcher s with
          | Some (len, item) => item :: findall_from matcher (len - 1) s'
          | None => findall_from matcher 0 s'
          end
      end
  end.

Definition findall (matcher : text → option (nat * text)) (s : text)
    : list text :=
  findall_from matcher 0 s.

(** A stable sort, as [list.sort] and [DataFrame.sort_values] on several
    columns are: among equal keys the input order is kept. *)
Section StableSort.

Context {A : Type} (le : A → A → bool).

Fixpoint insert_sorted (x : A) (l : list A) : list A :=
  match l with
  | [] => [x]
  | y :: l' => if le x y then x :: y :: l' else y :: insert_sorted x l'
  end.

Definition stable_sort (l : list A) : list A := foldr insert_sorted [] l.

End StableSort.

(** Order of [str] values: lexicographic on code points. *)
Fixpoint text_compare (a b : text) : comparison :=
  match a, b with
  | [], [] => Eq
  | [], _ :: _ => Lt
  | _ :: _, [] => Gt
  | x :: a', y :: b' =>
      match Nat.compare (code x) (code y) with
      | Eq => text_compare a' b'
      | c => c
      end
  end.

(** ** Name-boundary segmenter

    [extract_all_names_Dolphin.py], [extract_portrait_names_Dolphin.py] *)

Module Segmenter.

Section Dedup.

Context {A : Type} (name : A → text).

(** [Series.shift()]: every value moves one row down, the first row gets
    a missing value. *)
Definition shift (names : list text) : list (option text) :=
  None :: (Some <$> take (length names - 1) names).

(** One entry of [df['name'] != df['name'].shift()]: a missing value is
    different from everything. *)
Definition ne (cur : text) (prev : option text) : bool :=
  match prev with
  | None => true
  | Some p => negb (bool_decide (cur = p))
  end.

(** [df[df['name'] != df['name'].shift()]] *)
Definition drop_shift_duplicates (df : list A) : list A :=
  let mask := zip_with ne (name <$> df) (shift (name <$> df)) in
  fst <$> filter (λ rm, snd rm = true) (zip df mask).

(** The maximal runs of rows carrying one name, in order. *)
Fixpoint runs (df : list A) : list (list A) :=
  match df with
  | [] => []
  | r :: rest =>
      match runs rest with
      | (r' :: run) :: others =>
          if bool_decide (name r = name r')
          then (r :: r' :: run) :: others
          else [r] :: (r' :: run) :: others
      | _ => [[r]]
      end
  end.

(** Every run collapsed to its first row. *)
Definition collapse_runs (df : list A) : list A := omap head (runs df).

(** The mask, written as a loop that remembers the previous name. *)
Fixpoint mask_from (prev : option text) (names : list text) : list bool :=
  match names with
  | [] => []
  | n :: names' => ne n prev :: mask_from (Some n) names'
  end.

Fixpoint kept_from (prev : option text) (df : list A) : list A :=
  match df with
  | [] => []
  | r :: rest =>
      if ne (name r) prev then r :: kept_from (Some (name r)) rest
      else kept_from (Some (name r)) rest
  end.

(** A run: a first row and more rows with its name. *)
Definition is_run (run : list A) : Prop :=
  ∃ r more, run = r :: more ∧ Forall (λ x, name x = name r) more.

End Dedup.

(** *** [extract_all_names_Dolphin.extract_names_to_dataframe] *)

(** One element of [biographical_entries]; the confidence is carried
    along as its number literal. *)
Record entry := Entry {
  person_name : text;
  entry_page_number : Z;
  entry_page_directory : text;
  entry_confidence : text
}.

Record name_row := NameRow {
  name : text;
  book_id : text;
  page_number : Z;
  page_directory : text;
  confidence : text
}.

(** The rows appended to [data], book by book. *)
Definition collect_rows (books : list (text * list entry)) : list name_row :=
  '(bid, entries) ← books;
  (λ e, NameRow (person_name e) bid (entry_page_number e)
                (entry_page_directory e) (entry_confidence e)) <$> entries.

Definition by_book_and_page (r1 r2 : name_row) : bool :=
  match text_compare (book_id r1) (book_id r2) with
  | Lt => true
  | Gt => false
  | Eq => (page_number r1 <=? page_number r2)%Z
  end.

(** [pd.DataFrame([])] has no columns, so sorting it by column raises. *)
Definition extract_names_to_dataframe
    (books : list (text * list entry)) : result (list name_row) :=
  match collect_rows books with
  | [] => raise (KeyError "book_id")
  | data =>
      let df := stable_sort by_book_and_page data in
      ret (drop_shift_duplicates name df)
  end.

(** *** [extract_portrait_names_Dolphin.extract_names_to_dataframe] *)

(** One element of [associations] of a per-book result file. *)
Record association := Association {
  associated_person : option text;
  assoc_image_filename : text;
  assoc_image_page : text;
  assoc_confidence : text
}.

Record portrait_row := PortraitRow {
  p_name : text;
  p_image_filename : text;
  p_page : text;
  p_confidence : text;
  p_book_id : text
}.

(** [if association.get('associated_person')]: present and not empty. *)
Definition collect_portrait_rows
    (files : list (text * list association)) : list portrait_row :=
  '(bid, assocs) ← files;
  a ← assocs;
  match associated_person a with
  | Some (c :: n) =>
      [PortraitRow (c :: n) (assoc_image_filename a) (assoc_image_page a)
                   (assoc_confidence a) bid]
  | _ => []
  end.

Definition extract_portrait_names_to_dataframe
    (files : list (text * list association)) : result (list portrait_row) :=
  match collect_portrait_rows files with
  | [] => raise (KeyError "name")
  | data => ret (drop_shift_duplicates p_name data)
  end.

(** *** [chunk_markdown_by_names] (the same in both scripts) *)

(** The match used for a name: the name itself, else the name without
    punctuation; [None] when neither occurs. *)
Definition search_name (name : text) (content : text) : option nat :=
  match re_search_ci name content with
  | Some start => Some start
  | None => re_search_ci (strip_punctuation name) content
  end.

(** What [search_name] is expected to return. *)
Definition located (name content : text) (r : option nat) : Prop :=
  match r with
  | Some i =>
      first_occurrence name content i ∨
      (absent name content ∧
       first_occurrence (strip_punctuation name) content i)
  | None => absent name content ∧ absent (strip_punctuation name) content
  end.

(** The body of the loop, for [names_list[i] = name]. *)
Definition chunk_at (markdown_content : text) (names_list : list text)
    (i : nat) (name : text) : text :=
  match search_name name markdown_content with
  | Some start_pos =>
      let end_pos :=
        match names_list !! (i + 1) with
        | Some next_name =>
            let rest := drop (start_pos + length name) markdown_content in
            match search_name next_name rest with
            | Some end_match => start_pos + length name + end_match
            | None => length markdown_content
            end
        | None => length markdown_content
        end in
      strip (slice markdown_content start_pos end_pos)
  | None => []
  end.

Definition chunk_markdown_by_names
    (markdown_content : text) (names_list : list text) : list text :=
  imap (chunk_at markdown_content names_list) names_list.

(** [df['markdown_chunk'] = chunks] *)
Definition add_chunks_to_dataframe {A} (name : A → text)
    (df : list A) (markdown_content : text) : list (A * text) :=
  zip df (chunk_markdown_by_names markdown_content (name <$> df)).

End Segmenter.

(** ** Decimal numbers *)

Definition digit_value (c : ascii) : N := N.of_nat (code c - 48).

Definition digit_char (d : N) : ascii := ascii_of_nat (48 + N.to_nat d).

(** [int(s)] for a string of decimal digits. *)
Definition int_of_digits (s : text) : N :=
  foldl (λ acc c, acc * 10 + digit_value c)%N 0%N s.

(** The decimal digits of [n], most significant first. *)
Fixpoint digits_of (fuel : nat) (n : N) : text :=
  match fuel with
  | 0 => []
  | S fuel' =>
      (if (n <? 10)%N then [] else digits_of fuel' (n / 10)%N)
      ++ [digit_char (n mod 10)%N]
  end.

Definition str_of_N (n : N) : text := digits_of (S (N.to_nat (N.log2 n))) n.

Definition zero_pad (width : nat) (s : text) : text :=
  replicate (width - length s) "0"%char ++ s.

(** [f"{z:04d}"]: the sign counts in the width. *)
Definition format_04d (z : Z) : text :=
  if (z <? 0)%Z then "-"%char :: zero_pad 3 (str_of_N (Z.to_N (- z)))
  else zero_pad 4 (str_of_N (Z.to_N z)).

(** ** Page-start portrait rule

    [extract_all_names_Dolphin.py]: [find_files_starting_with_figures],
    [associate_portraits_with_names] *)

Module PageStart.

Record file_info := FileInfo {
  file_name : text;
  first_line : text
}.

(** [content.split('\n')[0]] *)
Definition split_first_line (content : text) : text :=
  take_while (λ c, negb (is_char "010" c)) content.

Definition starts_with_figure (content : text) : bool :=
  startswith (txt "![Figure]") content || startswith (txt "![Figure(") content.

(** The value stored under [first_line]. *)
Definition shown_first_line (content : text) : text :=
  let line := split_first_line content in
  if 100 <? length line then take 100 line ++ txt "..." else line.

(** The files are the result of the glob [digibok*.md], each with its
    content, or [None] when it cannot be read. *)
Definition find_files_starting_with_figures
    (digibok_files : list (text * option text)) : list file_info :=
  '(md_file, read) ← digibok_files;
  match read with
  | Some raw =>
      let content := strip raw in
      if starts_with_figure content
      then [FileInfo md_file (shown_first_line content)]
      else []
  | None => []
  end.

(** [!\[Figure\]\(figures/([^)]+)\)] matched at the head of [s]: group 1. *)
Definition match_figure (s : text) : option text :=
  if startswith (txt "![Figure](figures/") s then
    let rest := drop 18 s in
    let group1 := take_while (λ c, negb (is_char ")" c)) rest in
    match group1, drop_while (λ c, negb (is_char ")" c)) rest with
    | _ :: _, _ :: _ => Some group1
    | _, _ => None
    end
  else None.

Fixpoint search_figure (s : text) : option text :=
  match match_figure s with
  | Some g => Some g
  | None => match s with
            | [] => None
            | _ :: s' => search_figure s'
            end
  end.

(** [(digibok_\d+_)(\d+)\.md] matched at the head of [s]: groups 1, 2. *)
Definition match_book_pattern (s : text) : option (text * text) :=
  if startswith (txt "digibok_") s then
    let rest1 := drop 8 s in
    let digits1 := take_while is_digit rest1 in
    match digits1, drop_while is_digit rest1 with
    | _ :: _, "_"%char :: rest2 =>
        let digits2 := take_while is_digit rest2 in
        match digits2 with
        | _ :: _ =>
            if startswith (txt ".md") (drop_while is_digit rest2)
            then Some (txt "digibok_" ++ digits1 ++ txt "_", digits2)
            else None
        | [] => None
        end
    | _, _ => None
    end
  else None.

Fixpoint search_book_pattern (s : text) : option (text * text) :=
  match match_book_pattern s with
  | Some g => Some g
  | None => match s with
            | [] => None
            | _ :: s' => search_book_pattern s'
            end
  end.

(** A row of the frame after [add_chunks_to_dataframe], with the new
    column. *)
Record row := Row {
  name : text;
  book_id : text;
  markdown_chunk : text;
  portrait_filename : text
}.

Definition set_portrait (p : text) (r : row) : row :=
  Row (name r) (book_id r) (markdown_chunk r) p.

(** [previous_page_names.index[-1]]: the position of the last row of
    [df[df['book_id'] == b]]. *)
Fixpoint last_index_of_book (b : text) (df : list row) : option nat :=
  match df with
  | [] => None
  | r :: df' =>
      match last_index_of_book b df' with
      | Some i => Some (S i)
      | None => if bool_decide (book_id r = b) then Some 0 else None
      end
  end.

Definition previous_book_id (book_prefix digits : text) : text :=
  let current_page_num := Z.of_N (int_of_digits digits) in
  let previous_page_num := (current_page_num - 1)%Z in
  book_prefix ++ format_04d previous_page_num.


(** The portrait and the page it goes to, when both patterns match. *)
Definition target (f : file_info) : option (text * text) :=
  match search_figure (first_line f) with
  | None => None
  | Some portrait =>
      match search_book_pattern (file_name f) with
      | None => None
      | Some (book_prefix, digits) =>
          Some (portrait, previous_book_id book_prefix digits)
      end
  end.

(** The body of the loop over [files_starting_with_figures]. *)
Definition associate_one (df : list row) (f : file_info) : list row :=
  match target f with
  | None => df
  | Some (portrait, previous) =>
      match last_index_of_book previous df with
      | Some last_name_idx =>
          alter (set_portrait portrait) last_name_idx df
      | None => df
      end
  end.

(** [df['portrait_filename'] = ''] *)
Definition add_portrait_column (df : list (text * text * text)) : list row :=
  (λ '(n, b, c), Row n b c []) <$> df.

Definition associate_portraits_with_names
    (df : list (text * text * text)) (files : list file_info) : list row :=
  foldl associate_one (add_portrait_column df) files.

(** Row [i] is the last row of the page [b]. *)
Definition last_row_of (b : text) (df : list row) (i : nat) : Prop :=
  book_id <$> df !! i = Some b ∧
  ∀ j, i < j → book_id <$> df !! j ≠ Some b.

End PageStart.
(** ** Book grouper

    [azure_portrait_associator_Dolphin.py]: [get_page_number],
    [get_book_id], [find_markdown_files] *)

Module Grouper.

(** [s.replace(old, new)] for a non-empty [old]: [skip] characters of an
    occurrence already replaced are still to be passed over. *)
Fixpoint replace_from (old new : text) (skip : nat) (s : text) : text :=
  match s with
  | [] => []
  | c :: s' =>
      match skip with
      | S k => replace_from old new k s'
      | 0 =>
          if startswith old s
          then new ++ replace_from old new (length old - 1) s'
          else c :: replace_from old new 0 s'
      end
  end.

Definition replace (old new s : text) : text := replace_from old new 0 s.

(** [s.split(sep)] for a one-character separator. *)
Fixpoint split (sep : ascii) (s : text) : list text :=
  match s with
  | [] => [[]]
  | c :: s' =>
      if is_char sep c then [] :: split sep s'
      else match split sep s' with
           | part :: parts => (c :: part) :: parts
           | [] => [[c]]
           end
  end.

(** [sep.join(parts)] *)
Fixpoint join (sep : ascii) (parts : list text) : text :=
  match parts with
  | [] => []
  | [part] => part
  | part :: parts' => part ++ sep :: join sep parts'
  end.

(** [_(\d+)$] matched at the head of [s]: group 1.  [$] matches at the
    end and before a newline that ends the string. *)
Definition match_page_suffix (s : text) : option text :=
  match s with
  | c :: rest =>
      if is_char "_" c then
        match take_while is_digit rest, drop_while is_digit rest with
        | d :: ds, [] => Some (d :: ds)
        | d :: ds, [nl] => if is_char "010" nl then Some (d :: ds) else None
        | _, _ => None
        end
      else None
  | [] => None
  end.

Fixpoint search_page_suffix (s : text) : option text :=
  match match_page_suffix s with
  | Some g => Some g
  | None => match s with
            | [] => None
            | _ :: s' => search_page_suffix s'
            end
  end.

Definition get_page_number (md_filename : text) : N :=
  let name_without_ext := replace (txt ".md") [] md_filename in
  match search_page_suffix name_without_ext with
  | Some group1 => int_of_digits group1
  | None => 0%N
  end.

Definition get_book_id (md_filename : text) : text :=
  let name_without_ext := replace (txt ".md") [] md_filename in
  let parts := split "_" name_without_ext in
  if 4 <=? length parts
  then join "_" (take (length parts - 1) parts)
  else name_without_ext.

Definition by_page_number (f1 f2 : text) : bool :=
  (get_page_number f1 <=? get_page_number f2)%N.

(** [books[book_id].append(md_file)] on the [defaultdict(list)]. *)
Definition append_to_book (books : gmap text (list text)) (md_file : text)
    : gmap text (list text) :=
  let book_id := get_book_id md_file in
  <[book_id := default [] (books !! book_id) ++ [md_file]]> books.

(** [md_files] are the regular files that [page_dir.glob("*.md")]
    yields, in the order it yields them. *)
Definition find_markdown_files (md_files : list text)
    : gmap text (list text) :=
  stable_sort by_page_number <$> foldl append_to_book ∅ md_files.

(** The pattern of a page file name: a last token of digits after an
    underscore (and, as [$] allows, a newline after it). *)
Definition has_page_suffix (s : text) : Prop :=
  ∃ book digits,
    digits ≠ [] ∧ Forall (λ c, is_digit c = true) digits ∧
    (s = book ++ "_"%char :: digits ∨
     s = book ++ "_"%char :: digits ++ ["010"%char]).

End Grouper.
(** ** JSON values and [json.loads]

    The decoder of the standard library is not part of the repository.
    The parser below is generic in it: a decoder is any function from
    texts to an [outcome], which is a value, [json.JSONDecodeError], or
    another exception.  [Json.loads] follows the grammar of the library's
    decoder, with its limit on the nesting of arrays and objects, and is
    used to evaluate the parser on concrete responses. *)

Module Json.

#[warnings="-register-all"]
Inductive json : Type :=
  | JNull
  | JBool (b : bool)
  | JInt (z : Z)
  | JFloat (literal : text)
  | JString (s : list N)
  | JArray (items : list json)
  | JObject (members : list (list N * json)).

Inductive outcome (A : Type) : Type :=
  | Decoded (a : A)
  | JSONDecodeError
  | Raised (e : exn).

Arguments Decoded {A} a.
Arguments JSONDecodeError {A}.
Arguments Raised {A} e.

Definition outcome_bind {A B} (m : outcome A) (k : A → outcome B)
    : outcome B :=
  match m with
  | Decoded a => k a
  | JSONDecodeError => JSONDecodeError
  | Raised e => Raised e
  end.

Definition of_option {A} (o : option A) : outcome A :=
  match o with
  | Some a => Decoded a
  | None => JSONDecodeError
  end.

Notation "'try' p := m 'in' k" := (outcome_bind m (λ p, k))
  (at level 10, p pattern, m at level 100, k at level 200, only parsing).

Definition dquote : ascii := "034"%char.
Definition backslash : ascii := "092"%char.

(** The white space of the decoder: space, tab, line feed, carriage
    return. *)
Definition is_json_space (c : ascii) : bool :=
  is_char " " c || is_char "009" c || is_char "010" c || is_char "013" c.

Definition skip_ws (s : text) : text := drop_while is_json_space s.

Definition hex_value (c : ascii) : option N :=
  if is_digit c then Some (N.of_nat (code c - 48))
  else if between 97 102 c then Some (N.of_nat (code c - 87))
  else if between 65 70 c then Some (N.of_nat (code c - 55))
  else None.

(** Four hexadecimal digits. *)
Definition hex4 (s : text) : option (N * text) :=
  match s with
  | a :: b :: c :: d :: rest =>
      a ← hex_value a; b ← hex_value b; c ← hex_value c; d ← hex_value d;
      Some (((a * 16 + b) * 16 + c) * 16 + d, rest)%N
  | _ => None
  end.

(** The code point of [\uXXXX], a surrogate pair read as one. *)
Definition unicode_escape (s : text) : option (N * text) :=
  '(hi, rest) ← hex4 s;
  if ((55296 <=? hi) && (hi <=? 56319))%N then
    match rest with
    | b :: u :: rest' =>
        if is_char backslash b && is_char "u" u then
          match hex4 rest' with
          | Some (lo, rest'') =>
              if ((56320 <=? lo) && (lo <=? 57343))%N
              then Some (65536 + (hi - 55296) * 1024 + (lo - 56320), rest'')%N
              else Some (hi, rest)
          | None => Some (hi, rest)
          end
        else Some (hi, rest)
    | _ => Some (hi, rest)
    end
  else Some (hi, rest).

Definition simple_escape (c : ascii) : option N :=
  if is_char dquote c then Some 34%N
  else if is_char backslash c then Some 92%N
  else if is_char "/" c then Some 47%N
  else if is_char "b" c then Some 8%N
  else if is_char "f" c then Some 12%N
  else if is_char "n" c then Some 10%N
  else if is_char "r" c then Some 13%N
  else if is_char "t" c then Some 9%N
  else None.

(** The string after its opening quote, in strict mode: control
    characters must be escaped. *)
Fixpoint scanstring (fuel : nat) (s : text) : option (list N * text) :=
  match fuel with
  | 0 => None
  | S fuel' =>
      match s with
      | [] => None
      | c :: rest =>
          if is_char dquote c then Some ([], rest)
          else if is_char backslash c then
            match rest with
            | [] => None
            | e :: rest' =>
                if is_char "u" e then
                  '(cp, rest'') ← unicode_escape rest';
                  '(str, out) ← scanstring fuel' rest'';
                  Some (cp :: str, out)
                else
                  cp ← simple_escape e;
                  '(str, out) ← scanstring fuel' rest';
                  Some (cp :: str, out)
            end
          else if code c <? 32 then None
          else
            '(str, out) ← scanstring fuel' rest;
            Some (N.of_nat (code c) :: str, out)
      end
  end.

(** The longest number at the head of [s]: integer part, fraction,
    exponent. *)
Definition scan_number (s : text) : option (json * text) :=
  let '(sign, s1) :=
    match s with
    | c :: r => if is_char "-" c then ([c], r) else ([], s)
    | [] => ([], s)
    end in
  let digits := take_while is_digit s1 in
  let int_part :=
    match digits with
    | [] => None
    | d :: ds => if is_char "0" d then Some [d] else Some digits
    end in
  match int_part with
  | None => None
  | Some ip =>
      let s2 := drop (length ip) s1 in
      let frac :=
        match s2 with
        | p :: r =>
            if is_char "." p then
              match take_while is_digit r with
              | [] => []
              | fd => p :: fd
              end
            else []
        | [] => []
        end in
      let s3 := drop (length frac) s2 in
      let exp :=
        match s3 with
        | e :: r =>
            if is_char "e" e || is_char "E" e then
              let '(esign, r') :=
                match r with
                | g :: r' =>
                    if is_char "+" g || is_char "-" g then ([g], r')
                    else ([], r)
                | [] => ([], r)
                end in
              match take_while is_digit r' with
              | [] => []
              | ed => e :: esign ++ ed
              end
            else []
        | [] => []
        end in
      let s4 := drop (length exp) s3 in
      match frac, exp with
      | [], [] =>
          let n := Z.of_N (int_of_digits ip) in
          Some (JInt (if sign is [] then n else - n), s4)
      | _, _ => Some (JFloat (sign ++ ip ++ frac ++ exp), s4)
      end
  end.

(** [dict(pairs)]: a repeated key keeps its place and takes the later
    value. *)
Fixpoint dict_set (k : list N) (v : json) (members : list (list N * json))
    : list (list N * json) :=
  match members with
  | [] => [(k, v)]
  | (k', v') :: members' =>
      if bool_decide (k = k') then (k, v) :: members'
      else (k', v') :: dict_set k v members'
  end.

Definition literals : list (text * json) :=
  [(txt "null", JNull); (txt "true", JBool true); (txt "false", JBool false);
   (txt "NaN", JFloat (txt "NaN")); (txt "Infinity", JFloat (txt "Infinity"));
   (txt "-Infinity", JFloat (txt "-Infinity"))].

Definition scan_literal (s : text) : option (json * text) :=
  (λ '(l, v), (v, drop (length l) s))
  <$> head (filter (λ '(l, _), startswith l s = true) literals).

(** One value at the head of [s]; the elements of an array after its
    first; the members of an object after its first.  [depth] is the
    number of arrays and objects that may still be entered. *)
Fixpoint scan_once (fuel depth : nat) (s : text) : outcome (json * text) :=
  match fuel with
  | 0 => JSONDecodeError
  | S fuel' =>
      match s with
      | [] => JSONDecodeError
      | c :: rest =>
          if is_char dquote c then
            try (str, out) := of_option (scanstring (length rest) rest) in
            Decoded (JString str, out)
          else if is_char "[" c then
            match depth with
            | 0 => Raised RecursionError
            | S depth' =>
                match skip_ws rest with
                | c' :: rest' =>
                    if is_char "]" c' then Decoded (JArray [], rest')
                    else
                      try (items, out) :=
                        scan_items fuel' depth' (skip_ws rest) in
                      Decoded (JArray items, out)
                | [] => JSONDecodeError
                end
            end
          else if is_char "{" c then
            match depth with
            | 0 => Raised RecursionError
            | S depth' =>
                match skip_ws rest with
                | c' :: rest' =>
                    if is_char "}" c' then Decoded (JObject [], rest')
                    else
                      try (members, out) :=
                        scan_members fuel' depth' (skip_ws rest) in
                      Decoded
                        (JObject
                           (foldl (λ d '(k, v), dict_set k v d) [] members),
                         out)
                | [] => JSONDecodeError
                end
            end
          else
            match scan_literal s with
            | Some r => Decoded r
            | None => of_option (scan_number s)
            end
      end
  end
with scan_items (fuel depth : nat) (s : text) : outcome (list json * text) :=
  match fuel with
  | 0 => JSONDecodeError
  | S fuel' =>
      try (v, out) := scan_once fuel' depth s in
      match skip_ws out with
      | c :: rest =>
          if is_char "]" c then Decoded ([v], rest)
          else if is_char "," c then
            try (items, out') := scan_items fuel' depth (skip_ws rest) in
            Decoded (v :: items, out')
          else JSONDecodeError
      | [] => JSONDecodeError
      end
  end
with scan_members (fuel depth : nat) (s : text)
    : outcome (list (list N * json) * text) :=
  match fuel with
  | 0 => JSONDecodeError
  | S fuel' =>
      match s with
      | q :: rest =>
          if is_char dquote q then
            try (key, out) := of_option (scanstring (length rest) rest) in
            match skip_ws out with
            | colon :: rest' =>
                if is_char ":" colon then
                  try (v, out') := scan_once fuel' depth (skip_ws rest') in
                  match skip_ws out' with
                  | c :: rest'' =>
                      if is_char "}" c then Decoded ([(key, v)], rest'')
                      else if is_char "," c then
                        try (members, out'') :=
                          scan_members fuel' depth (skip_ws rest'') in
                        Decoded ((key, v) :: members, out'')
                      else JSONDecodeError
                  | [] => JSONDecodeError
                  end
                else JSONDecodeError
            | [] => JSONDecodeError
            end
          else JSONDecodeError
      | [] => JSONDecodeError
      end
  end.

(** [json.loads(s)]: one value, white space around it, nothing else. *)
Definition loads (recursion_limit : nat) (s : text) : outcome json :=
  try (v, out) := scan_once (2 * length s + 2) recursion_limit (skip_ws s) in
  if skip_ws out is [] then Decoded v else JSONDecodeError.

End Json.
(** ** Response parser

    [azure_portrait_associator_Dolphin.py]: [extract_json_from_response],
    [fix_json_string] *)

Module Parser.
Import Json.

(** *** [\[(?:[^[\]]*|\[[^\]]*\])*\]]

    After the opening bracket: runs without brackets and groups from a
    [\[] to the next [\]], up to the first [\]] outside such a group.
    [inner] tells that a group is open. *)
Fixpoint array_tail (inner : bool) (s : text) : option text :=
  match s with
  | [] => None
  | c :: s' =>
      if inner then
        (c ::.) <$> array_tail (negb (is_char "]" c)) s'
      else if is_char "]" c then Some [c]
      else (c ::.) <$> array_tail (is_char "[" c) s'
  end.

Definition match_array (s : text) : option (nat * text) :=
  match s with
  | c :: s' =>
      if is_char "[" c then
        (λ m, (S (length m), c :: m)) <$> array_tail false s'
      else None
  | [] => None
  end.

(** *** [```json\s*(\[.*?\])\s*```] and [```\s*(\[.*?\])\s*```]

    After the opening bracket of group 1: the shortest text that ends in
    a [\]] followed by white space and a fence; with it, the length of
    that white space and fence. *)
Fixpoint fenced_tail (s : text) : option (text * nat) :=
  match s with
  | [] => None
  | c :: s' =>
      if is_char "]" c && startswith (txt "```") (drop_while is_space s')
      then Some ([c], length (take_while is_space s') + 3)
      else (λ '(m, n), (c :: m, n)) <$> fenced_tail s'
  end.

Definition match_fenced (fence : text) (s : text) : option (nat * text) :=
  if startswith fence s then
    let after := drop (length fence) s in
    match drop_while is_space after with
    | c :: s' =>
        if is_char "[" c then
          (λ '(m, n),
             (length fence + length (take_while is_space after)
              + S (length m) + n, c :: m))
          <$> fenced_tail s'
        else None
    | [] => None
    end
  else None.

(** The three patterns of [json_patterns], in the order of the list. *)
Definition json_patterns : list (text → option (nat * text)) :=
  [match_array; match_fenced (txt "```json"); match_fenced (txt "```")].

(** *** [re.search(r'\[.*\]', response_text, re.DOTALL)]: from the first
    [\[] to the last [\]] after it. *)
Definition search_bracket_span (s : text) : option text :=
  let from_bracket := drop_while (λ c, negb (is_char "[" c)) s in
  match reverse (drop_while (λ c, negb (is_char "]" c)) (reverse from_bracket))
  with
  | [] => None
  | span => Some span
  end.

(** *** [fix_json_string] *)

Definition replace_char (a : ascii) (by_ : text) (s : text) : text :=
  c ← s; if is_char a c then by_ else [c].

(** The replacement function of the [re.sub]. *)
Definition escape_newlines (m : text) : text :=
  replace_char "013" [backslash; "r"%char]
    (replace_char "010" [backslash; "n"%char] m).

(** The lazy group and the lookahead for a quote, at the head of [s]:
    the length of the shortest run without line feed that a quote
    follows. *)
Fixpoint lazy_until_quote (s : text) : option nat :=
  match s with
  | [] => None
  | c :: s' =>
      if is_char dquote c then Some 0
      else if is_char "010" c then None
      else S <$> lazy_until_quote s'
  end.

(** The lookbehind for colon, space, quote; [before] is the text before
    the position, last character first. *)
Definition lookbehind (before : text) : bool :=
  match before with
  | q :: sp :: colon :: _ =>
      is_char dquote q && is_char " " sp && is_char ":" colon
  | _ => false
  end.

(** The [re.sub] of [fix_json_string]: a lazy run of characters other
    than the line feed (the pattern has no [re.DOTALL]), between the
    lookbehind and the lookahead.  An empty match is replaced by nothing
    and is followed by an attempt at the same place that has to advance. *)
Fixpoint sub_from (before : text) (skip : nat) (s : text) : text :=
  match s with
  | [] => []
  | c :: s' =>
      match skip with
      | S k => sub_from (c :: before) k s'
      | 0 =>
          if lookbehind before then
            match lazy_until_quote s with
            | Some (S k) =>
                escape_newlines (take (S k) s) ++ sub_from (c :: before) k s'
            | Some 0 =>
                match lazy_until_quote s' with
                | Some k =>
                    escape_newlines (take (S k) s)
                    ++ sub_from (c :: before) k s'
                | None => c :: sub_from (c :: before) 0 s'
                end
            | None => c :: sub_from (c :: before) 0 s'
            end
          else c :: sub_from (c :: before) 0 s'
      end
  end.

Definition fix_json_string (json_str : text) : text := sub_from [] 0 json_str.

(** *** [extract_json_from_response] *)

(** What one attempt yields: the list to return, nothing, or an
    exception that no handler caught. *)
Inductive attempt : Type :=
  | Found (data : list json)
  | NotFound
  | Uncaught (e : exn).

Section Extract.

Variable json_loads : text → outcome json.

(** The body of the [try] in the loop: [json.loads], then
    [if isinstance(data, list): return data]; the handler catches
    [json.JSONDecodeError] and nothing else. *)
Definition try_match (m : text) : attempt :=
  match json_loads (strip m) with
  | Decoded (JArray data) => Found data
  | Decoded _ => NotFound
  | JSONDecodeError => NotFound
  | Raised e => Uncaught e
  end.

(** [for match in matches] *)
Fixpoint try_matches (matches : list text) : attempt :=
  match matches with
  | [] => NotFound
  | m :: matches' =>
      match try_match m with
      | NotFound => try_matches matches'
      | r => r
      end
  end.

(** [for pattern in json_patterns] *)
Fixpoint try_patterns (patterns : list (text → option (nat * text)))
    (response_text : text) : attempt :=
  match patterns with
  | [] => NotFound
  | pattern :: patterns' =>
      match try_matches (findall pattern response_text) with
      | NotFound => try_patterns patterns' response_text
      | r => r
      end
  end.

(** The repair pass; its handler catches every exception. *)
Definition try_fix (response_text : text) : option (list json) :=
  match search_bracket_span response_text with
  | Some json_str =>
      match json_loads (fix_json_string json_str) with
      | Decoded (JArray data) => Some data
      | _ => None
      end
  | None => None
  end.

Definition extract_json_from_response (response_text : text)
    : result (list json) :=
  match try_patterns json_patterns response_text with
  | Found data => ret data
  | Uncaught e => raise e
  | NotFound => ret (default [] (try_fix response_text))
  end.



(** The strings handed to the decoder by the loop over the patterns, in
    the order of the attempts, and the one of the repair pass. *)
Definition pattern_candidates (response_text : text) : list text :=
  strip <$> (findall match_array response_text
             ++ findall (match_fenced (txt "```json")) response_text
             ++ findall (match_fenced (txt "```")) response_text).

Definition fix_candidate (response_text : text) : list text :=
  option_list (fix_json_string <$> search_bracket_span response_text).

(** [c] is a part of [s] that opens and closes with a bracket. *)
Definition bracketed_part (s c : text) : Prop :=
  (∃ pre post, s = pre ++ c ++ post)
  ∧ head c = Some "["%char ∧ last c = Some "]"%char.

(** The decoder returns a list for [c]; it returns something else or
    reports a decoding error. *)
Definition decodes_to (c : text) (data : list json) : Prop :=
  json_loads c = Decoded (JArray data).

Definition no_list (c : text) : Prop :=
  json_loads c = JSONDecodeError ∨
  ∃ v, json_loads c = Decoded v ∧ ∀ data, v ≠ JArray data.

End Extract.

(** A literal in which an apostrophe stands for the double quote, a
    dollar sign for the line feed and a circumflex for the carriage
    return. *)
Definition lit (s : string) : text :=
  (λ c, if is_char "'" c then dquote
        else if is_char "$" c then "010"%char
        else if is_char "^" c then "013"%char
        else c) <$> txt s.

Definition no_bracket (c : ascii) : Prop :=
  is_char "[" c = false ∧ is_char "]" c = false.

(** A response that is one array holding objects nested [n] deep:
    [n] times the opening of an object with the key a, the number 1,
    [n] closing braces. *)
Fixpoint nested_objects (n : nat) (inside : text) : text :=
  match n with
  | 0 => inside
  | S n' => lit "{'a':" ++ nested_objects n' (inside ++ txt "}")
  end.

Definition deeply_nested (n : nat) : text :=
  txt "[" ++ nested_objects n (txt "1") ++ txt "]".

End Parser.
(** ** Processing one book

    [azure_portrait_associator_Dolphin.py]: [find_image_files],
    [load_page_content], [load_book_content], [analyze_book_portraits],
    [process_book] *)

Module Book.
Import Json Parser.

(** What the functions read from the disk: the text of a markdown file,
    [None] when it is missing or cannot be read, and for the prefix of a
    page the regular files that the glob of [prefix_figure_*.png] yields
    in the figures directory (none when there is no such directory). *)
Record file_system := FileSystem {
  read_text : text → option text;
  figure_files : text → list text
}.

Record page_info := PageInfo {
  md_file : text;
  page_name : text;
  page_number : N;
  content : text;
  available_images : list text
}.

(** [s.endswith(p)] *)
Definition endswith (p s : text) : bool := startswith (reverse p) (reverse s).

(** [([^)]+\.png)\)] at the head of [s]: group 1. *)
Definition image_target (s : text) : option text :=
  let group1 := take_while (λ c, negb (is_char ")" c)) s in
  match drop_while (λ c, negb (is_char ")" c)) s with
  | _ :: _ =>
      if (5 <=? length group1) && endswith (txt ".png") group1
      then Some group1 else None
  | [] => None
  end.

(** After the opening [!\[]: the shortest run within the line after
    which [\]\(figures/] and a target follow. *)
Fixpoint image_tail (s : text) : option (nat * text) :=
  let extend :=
    match s with
    | c :: s' =>
        if is_char "010" c then None
        else (λ '(n, g), (S n, g)) <$> image_tail s'
    | [] => None
    end in
  if startswith (txt "](figures/") s then
    match image_target (drop 10 s) with
    | Some g => Some (10 + length g + 1, g)
    | None => extend
    end
  else extend.

(** [!\[.*?\]\(figures/([^)]+\.png)\)] at the head of [s]. *)
Definition match_image (s : text) : option (nat * text) :=
  if startswith (txt "![") s
  then (λ '(n, g), (2 + n, g)) <$> image_tail (drop 2 s)
  else None.

Definition text_le (a b : text) : bool :=
  if text_compare a b is Gt then false else true.

(** [for img_file in figures_dir.glob(pattern)]: the names not yet in
    the list are appended. *)
Definition add_new_files (image_files files : list text) : list text :=
  foldl (λ acc f, if bool_decide (f ∈ acc) then acc else acc ++ [f])
        image_files files.

Definition get_page_prefix (md_filename : text) : text :=
  Grouper.replace (txt ".md") [] md_filename.

Definition find_image_files (fs : file_system) (page_filename content : text)
    : list text :=
  let image_files := findall match_image content in
  stable_sort text_le
    (add_new_files image_files
       (figure_files fs (get_page_prefix page_filename))).

(** [md_file.stem] of a name that ends in [.md]. *)
Definition stem (md_file : text) : text :=
  if endswith (txt ".md") md_file && (3 <? length md_file)
  then take (length md_file - 3) md_file
  else md_file.

Definition load_page_content (fs : file_system) (md_file : text)
    : option page_info :=
  content ← read_text fs md_file;
  Some (PageInfo md_file (stem md_file) (Grouper.get_page_number md_file)
          content (find_image_files fs md_file content)).

Definition load_book_content (fs : file_system) (md_files : list text)
    : list page_info :=
  omap (load_page_content fs) md_files.

Definition code_points (s : text) : list N := (λ c, N.of_nat (code c)) <$> s.

(** [assoc["book_id"] = book_id]; an element that is not an object
    raises [TypeError]. *)
Definition set_book_id (book_id : text) (assoc : json) : option json :=
  match assoc with
  | JObject members =>
      Some (JObject (dict_set (code_points (txt "book_id"))
                       (JString (code_points book_id)) members))
  | _ => None
  end.

(** [a.get(key)] *)
Definition get (key : string) (a : json) : option json :=
  match a with
  | JObject members =>
      snd <$> head (filter (λ m, fst m = code_points (txt key)) members)
  | _ => None
  end.

(** Truth value of a decoded value. *)
Definition truthy (v : json) : bool :=
  match v with
  | JNull => false
  | JBool b => b
  | JInt z => negb (z =? 0)%Z
  | JFloat literal =>
      negb (forallb (λ c, negb (is_digit c) || is_char "0" c)
              (take_while (λ c, negb (is_char "e" c || is_char "E" c))
                 literal))
      || startswith (txt "NaN") literal
      || endswith (txt "Infinity") literal
  | JString s => negb (bool_decide (s = []))
  | JArray items => negb (bool_decide (length items = 0))
  | JObject members => negb (bool_decide (length members = 0))
  end.

(** [a.get("cross_page_type") == t] *)
Definition has_type (t : string) (a : json) : bool :=
  match get "cross_page_type" a with
  | Some (JString s) => bool_decide (s = code_points (txt t))
  | _ => false
  end.

(** The fields of the full result; the time stamps, the model name, and
    the two fields computed with floating point (the count of confident
    associations, the success rate) are left out. *)
Record analysis := Analysis {
  pages_processed : nat;
  page_range : option (N * N);
  markdown_files : list text;
  total_images : nat;
  markdown_referenced_images : nat;
  associations : list json;
  total_associations : nat;
  total_cross_page : nat;
  name_previous_page : nat;
  continuation_entries : nat;
  same_page_entries : nat;
  unassociated_images : nat
}.

(** The three shapes of the dictionary that [process_book] returns. *)
Inductive book_result : Type :=
  | NoPages (book_id : text)
  | NoImages (book_id : text) (pages_processed : nat)
  | Analyzed (book_id : text) (a : analysis).

(** [result.get("associations")] and [result.get("total_images")] *)
Definition result_associations (r : book_result) : option (list json) :=
  match r with
  | NoPages _ => None
  | NoImages _ _ => Some []
  | Analyzed _ a => Some (associations a)
  end.

Definition result_total_images (r : book_result) : option nat :=
  match r with
  | NoPages _ => None
  | NoImages _ _ => Some 0
  | Analyzed _ a => Some (total_images a)
  end.

Definition count_images (pages : list page_info) : nat :=
  foldl (λ total page, total + length (available_images page)) 0 pages.

Definition count_markdown_images (pages : list page_info) : nat :=
  foldl (λ total page, total + length (findall match_image (content page)))
        0 pages.

Definition count {A} (P : A → bool) (l : list A) : nat :=
  length (filter (λ a, P a = true) l).

Section Oracle.

(** The text generation service: for the prompt built from a book id and
    its pages, the content of the reply, or [None] when the call raises.
    A request is recorded by its book id and pages. *)
Variable oracle : text → list page_info → option text.
Variable json_loads : text → outcome json.

Definition request : Type := text * list page_info.

(** Every exception after the prompt is built is caught and gives no
    associations. *)
Definition analyze_book_portraits (book_id : text) (pages : list page_info)
    : list json * list request :=
  let requests := [(book_id, pages)] in
  match oracle book_id pages with
  | None => ([], requests)
  | Some response_text =>
      match extract_json_from_response json_loads response_text with
      | inl _ => ([], requests)
      | inr associations =>
          match mapM (set_book_id book_id) associations with
          | Some associations' => (associations', requests)
          | None => ([], requests)
          end
      end
  end.

Definition process_book (fs : file_system) (book_id : text)
    (md_files : list text) : book_result * list request :=
  let pages := load_book_content fs md_files in
  match pages with
  | [] => (NoPages book_id, [])
  | _ :: _ =>
      let total_images := count_images pages in
      let total_markdown_images := count_markdown_images pages in
      if total_images =? 0 then (NoImages book_id (length pages), [])
      else
        let '(associations, requests) :=
          analyze_book_portraits book_id pages in
        let numbers := page_number <$> pages in
        (Analyzed book_id
           {| pages_processed := length pages;
              page_range :=
                Some (foldr N.min (default 0%N (head numbers)) numbers,
                      foldr N.max 0%N numbers);
              markdown_files := (λ p, page_name p ++ txt ".md") <$> pages;
              total_images := total_images;
              markdown_referenced_images := total_markdown_images;
              associations := associations;
              total_associations := length associations;
              total_cross_page :=
                count (λ a, default false (truthy <$> get "is_cross_page" a))
                      associations;
              name_previous_page :=
                count (has_type "name_previous_page") associations;
              continuation_entries :=
                count (has_type "continuation") associations;
              same_page_entries := count (has_type "same_page") associations;
              unassociated_images :=
                count (λ a, negb (default false
                                    (truthy <$> get "associated_person" a)))
                      associations |},
         requests)
  end.

End Oracle.

(** One page without image tag, no figure files, an oracle that would
    fail if it were asked. *)
Definition one_plain_page : file_system :=
  FileSystem (λ f, if bool_decide (f = txt "b_0001.md")
                   then Some (txt "HANSEN, Ole, born 1900") else None)
             (λ _, []).

End Book.
(** ** Reconciliation

    [collecting_all_csv_files_Dolphin.py].  A frame is its list of column
    names and its rows; a row maps a column to the string in it, and a
    missing value (NaN) is the absence of an entry. *)

Module Merge.

Open Scope string_scope.

Record frame := Frame {
  columns : list string;
  rows : list (gmap string string)
}.

(** [==] on two values: a missing value equals nothing. *)
Definition same (a b : option string) : bool :=
  match a, b with
  | Some x, Some y => bool_decide (x = y)
  | _, _ => false
  end.

(** One entry of [mask] for a row of [df_merged]. *)
Definition key_matches (failed_row r : gmap string string) : bool :=
  same (r !! "name") (failed_row !! "name")
  && same (r !! "book_id") (failed_row !! "book_id").

(** [df.loc[row, col] = v] *)
Definition set_cell (col : string) (v : option string)
    (r : gmap string string) : gmap string string :=
  partial_alter (λ _, v) col r.

(** [for col in df_failed.columns: if col in df_merged.columns: ...] on
    one row selected by the mask. *)
Definition update_row (failed_columns merged_columns : list string)
    (failed_row r : gmap string string) : gmap string string :=
  foldl (λ r col,
           if bool_decide (col ∈ merged_columns)
           then set_cell col (failed_row !! col) r else r)
        r failed_columns.

(** The body of the loop over [df_failed.iterrows()]. *)
Definition update_from (failed_columns merged_columns : list string)
    (df_merged : list (gmap string string))
    (failed_row : gmap string string) : list (gmap string string) :=
  let mask := key_matches failed_row <$> df_merged in
  if existsb id mask then
    zip_with (λ r (m : bool),
                if m then update_row failed_columns merged_columns failed_row r
                else r)
             df_merged mask
  else df_merged.

(** What the loop does to one row of [df_merged] for one row of
    [df_failed]. *)
Definition update_step (failed_columns merged_columns : list string)
    (r failed_row : gmap string string) : gmap string string :=
  if key_matches failed_row r
  then update_row failed_columns merged_columns failed_row r
  else r.

(** [df[col]] and [row[col]] raise [KeyError] for a column that is not
    there. *)
Definition require (col : string) (cols : list string) : result unit :=
  if bool_decide (col ∈ cols) then ret tt else raise (KeyError col).

(** Lines 11 to 27: the loop runs, and looks up the key columns, only
    when [df_failed] has a row. *)
Definition update_main (df_main df_failed : frame) : result frame :=
  match rows df_failed with
  | [] => ret df_main
  | _ :: _ =>
      let* _ := require "name" (columns df_main) in
      let* _ := require "name" (columns df_failed) in
      let* _ := require "book_id" (columns df_main) in
      let* _ := require "book_id" (columns df_failed) in
      ret (Frame (columns df_main)
             (foldl (update_from (columns df_failed) (columns df_main))
                    (rows df_main) (rows df_failed)))
  end.

(** *** The portrait tables *)

Record portrait := Portrait {
  p_name : option string;
  p_book_id : option string;
  image_filename : option string
}.

Definition key_of (p : portrait) : option string * option string :=
  (p_name p, p_book_id p).

(** Line 41: the rows whose file name is not missing. *)
Definition notnull (df : list portrait) : list portrait :=
  filter (λ p, is_Some (image_filename p)) df.

(** A row of the outer merge, with both file name columns. *)
Record merged_portrait := MergedPortrait {
  m_name : option string;
  m_book_id : option string;
  m_image_filename : option string;
  m_image_filename_next_page : option string
}.

(** Order of the keys: missing values last. *)
Definition cell_le (a b : option string) : bool :=
  match a, b with
  | Some x, Some y => String.leb x y
  | Some _, None => true
  | None, Some _ => false
  | None, None => true
  end.

Definition by_key (a b : merged_portrait) : bool :=
  if bool_decide (m_name a = m_name b)
  then cell_le (m_book_id a) (m_book_id b)
  else cell_le (m_name a) (m_name b).

(** Line 45: [pd.merge(..., how='outer')] on name and book id.  In a
    merge, missing keys match each other.  The rows are ordered by key. *)
Definition outer_merge (single next_page : list portrait)
    : list merged_portrait :=
  let matched :=
    p ← single;
    match filter (λ q, key_of q = key_of p) next_page with
    | [] => [MergedPortrait (p_name p) (p_book_id p) (image_filename p) None]
    | qs =>
        (λ q, MergedPortrait (p_name p) (p_book_id p) (image_filename p)
                (image_filename q)) <$> qs
    end in
  let right_only :=
    (λ q, MergedPortrait (p_name q) (p_book_id q) None (image_filename q))
    <$> filter (λ q, key_of q ∉ key_of <$> single) next_page in
  stable_sort by_key (matched ++ right_only).

(** Line 48: [combine_first], the next-page value when it is there. *)
Definition combine_first (m : merged_portrait) : portrait :=
  Portrait (m_name m) (m_book_id m)
    (match m_image_filename_next_page m with
     | Some f => Some f
     | None => m_image_filename m
     end).

Definition merged_portraits (single next_page : list portrait)
    : list portrait :=
  combine_first <$> outer_merge single (notnull next_page).

(** *** The final merge *)

Record final_row := FinalRow {
  fields : gmap string string;
  final_image_filename : option string
}.

Definition base_columns : list string :=
  ["name"; "book_id"; "markdown_chunk"; "biography_json"].

(** Line 56: the four columns are selected. *)
Definition select_base_columns (df : frame)
    : result (list (gmap string string)) :=
  let* _ := require "name" (columns df) in
  let* _ := require "book_id" (columns df) in
  let* _ := require "markdown_chunk" (columns df) in
  let* _ := require "biography_json" (columns df) in
  ret (filter (λ kv, kv.1 ∈ base_columns) <$> rows df).

Definition row_key (r : gmap string string) : option string * option string :=
  (r !! "name", r !! "book_id").

Definition portraits_of (r : gmap string string) (right : list portrait)
    : list portrait :=
  filter (λ p, key_of p = row_key r) right.

(** Line 58: [pd.merge(..., how='left')]: every row of the left frame,
    in order, once for each row of the right frame with its key, and
    once with a missing file name when there is none. *)
Definition left_merge (left : list (gmap string string))
    (right : list portrait) : list final_row :=
  r ← left;
  match portraits_of r right with
  | [] => [FinalRow r None]
  | ps => (λ p, FinalRow r (image_filename p)) <$> ps
  end.

(** Lines 56 to 58. *)
Definition final_merge (df_merged : frame) (portraits : list portrait)
    : result (list final_row) :=
  let* base := select_base_columns df_merged in
  ret (left_merge base portraits).

(** [drop(..., inplace=True)] returns [None]; line 50 calls
    [reset_index] on it. *)
Definition reset_index_of_None {A} : result A :=
  raise (AttributeError "'NoneType' object has no attribute 'reset_index'").

(** The script as it is written, from the four frames it reads: line 50
    raises before the sort of line 53 and the merge of lines 55 to 58
    are reached. *)
Definition script (df_main df_failed : frame)
    (df_portrait_single df_next_page_portraits : list portrait)
    : result (list final_row) :=
  let* df_merged := update_main df_main df_failed in
  let df_merged_portraits :=
    merged_portraits df_portrait_single df_next_page_portraits in
  let* dropped := reset_index_of_None (A := list portrait) in
  final_merge df_merged dropped.

(** Rows for the examples. *)
Definition row_of (name book_id chunk biography : option string)
    : gmap string string :=
  set_cell "name" name
    (set_cell "book_id" book_id
       (set_cell "markdown_chunk" chunk
          (set_cell "biography_json" biography ∅))).

End Merge.

(** ** Processing a directory

    [azure_portrait_associator_Dolphin.py]: the summary of
    [process_book], [process_input] *)

Module Input.
Import Json Parser Book.

(** [a.get("confidence", 0) > 0.6] compares numbers; for a value that is
    not a number the comparison raises [TypeError]. *)
Definition is_number (v : json) : bool :=
  match v with
  | JBool _ | JInt _ | JFloat _ => true
  | _ => false
  end.

Definition confidence_raises (a : json) : bool :=
  match get "confidence" a with
  | Some v => negb (is_number v)
  | None => false
  end.

Definition TypeError : exn :=
  OtherException
    "TypeError: '>' not supported between instances of the value and 'float'".

Section Run.

Variable oracle : text → list page_info → option text.
Variable json_loads : text → outcome json.
Variable fs : file_system.

(** [process_book] with the exception that the count of confident
    associations can raise while the full record is put together. *)
Definition process_book_or_raise (book_id : text) (md_files : list text)
    : result book_result * list request :=
  let '(book_result, requests) :=
    process_book oracle json_loads fs book_id md_files in
  match book_result with
  | Analyzed _ a =>
      if existsb confidence_raises (associations a)
      then (raise TypeError, requests)
      else (ret book_result, requests)
  | _ => (ret book_result, requests)
  end.

(** The keys of the [defaultdict] in the order of their first
    insertion. *)
Fixpoint first_seen (seen : list text) (ids : list text) : list text :=
  match ids with
  | [] => []
  | b :: ids' =>
      if bool_decide (b ∈ seen) then first_seen seen ids'
      else b :: first_seen (b :: seen) ids'
  end.

(** [books.items()] for [books = find_markdown_files(page_dir)]. *)
Definition items (md_files : list text) : list (text * list text) :=
  (λ book_id,
     (book_id,
      default [] (Grouper.find_markdown_files md_files !! book_id)))
  <$> first_seen [] (Grouper.get_book_id <$> md_files).

(** [d[k] = v] on a dictionary kept in insertion order. *)
Fixpoint assign {V} (k : text) (v : V) (d : list (text * V))
    : list (text * V) :=
  match d with
  | [] => [(k, v)]
  | (k', v') :: d' =>
      if bool_decide (k = k') then (k, v) :: d'
      else (k', v') :: assign k v d'
  end.

(** The value stored under [status]. *)
Inductive status : Type :=
  | skipped_existing
  | skipped_error
  | newly_processed
  | error.

#[export] Instance status_eq_dec : EqDecision status.
Proof. solve_decision. Defined.

(** The output directory as the loop meets it: whether the result file
    of a book is there, whether it loads as a dictionary, and whether
    saving the result of a book raises. *)
Record output_dir := OutputDir {
  output_exists : text → bool;
  loads_as_dict : text → bool;
  save_raises : text → bool
}.

(** [results["books"]] reduced to the status of every book, the two
    lists of book ids, the requests sent to the service and the books
    whose result file was written. *)
Record progress := Progress {
  books_status : list (text * status);
  processed_books : list text;
  skipped_books : list text;
  requests_sent : list request;
  saved : list text
}.

Variable out : output_dir.
Variable skip_existing : bool.

(** The body of the loop over [books.items()]. *)
Definition process_one (acc : progress) (book : text * list text)
    : progress :=
  let '(book_id, md_files) := book in
  if skip_existing && output_exists out book_id then
    Progress
      (assign book_id
         (if loads_as_dict out book_id then skipped_existing
          else skipped_error)
         (books_status acc))
      (processed_books acc)
      (skipped_books acc ++ [book_id])
      (requests_sent acc)
      (saved acc)
  else
    let '(book_result, requests) := process_book_or_raise book_id md_files in
    match book_result with
    | inl _ =>
        Progress (assign book_id error (books_status acc))
          (processed_books acc) (skipped_books acc)
          (requests_sent acc ++ requests) (saved acc)
    | inr _ =>
        if save_raises out book_id then
          Progress (assign book_id error (books_status acc))
            (processed_books acc ++ [book_id]) (skipped_books acc)
            (requests_sent acc ++ requests) (saved acc)
        else
          Progress (assign book_id newly_processed (books_status acc))
            (processed_books acc ++ [book_id]) (skipped_books acc)
            (requests_sent acc ++ requests) (saved acc ++ [book_id])
    end.

(** What the loop does with one book, told from the book alone: whether
    it is skipped, whether [process_book] raises for it, and the status it
    ends with. *)
Definition is_skipped (book : text * list text) : bool :=
  skip_existing && output_exists out book.1.

Definition raises (book : text * list text) : bool :=
  negb (is_skipped book)
  && (if (process_book_or_raise book.1 book.2).1 is inl _ then true
      else false).

Definition is_processed (book : text * list text) : bool :=
  negb (is_skipped book) && negb (raises book).

Definition status_of (book : text * list text) : status :=
  if is_skipped book then
    if loads_as_dict out book.1 then skipped_existing else skipped_error
  else if raises book then error
  else if save_raises out book.1 then error
  else newly_processed.

Definition requests_of (book : text * list text) : list request :=
  if is_skipped book then []
  else (process_book_or_raise book.1 book.2).2.

(** [processing_summary] *)
Record processing_summary := ProcessingSummary {
  total_books : nat;
  count_newly_processed : nat;
  count_skipped_existing : nat;
  errors : nat
}.

Inductive input_result : Type :=
  | InputPathNotFound
  | NoMarkdownFiles
  | Results (p : progress) (s : processing_summary).

(** [md_files] are the regular files that the glob of [*.md] yields in
    the page directory. *)
Definition process_input (page_dir_exists : bool) (md_files : list text)
    : input_result :=
  if negb page_dir_exists then InputPathNotFound
  else
    match items md_files with
    | [] => NoMarkdownFiles
    | books =>
        let p := foldl process_one (Progress [] [] [] [] []) books in
        Results p
          {| total_books := length books;
             count_newly_processed := length (processed_books p);
             count_skipped_existing := length (skipped_books p);
             errors :=
               length (filter (λ b, b.2 = error) (books_status p)) |}
    end.

End Run.

End Input.

(** ** Biography extraction over the chunks

    [biography_extractor_Dolphin.py]: [_get_empty_biography],
    [process_csv].  A cell of the frame read from the CSV file is a
    string or missing ([None]); an empty field of the file is read as
    missing. *)

Module Biography.
Import Json.

Record csv_row := CsvRow {
  name : option text;
  markdown_chunk : option text
}.

(** [str(cell)]: a missing value is written [nan]. *)
Definition str (cell : option text) : text := default (txt "nan") cell.

Definition key (s : string) : list N := Book.code_points (txt s).

(** The name as a value of the dictionary. *)
Definition name_value (name : option text) : json :=
  match name with
  | Some s => JString (Book.code_points s)
  | None => JFloat (txt "NaN")
  end.

Definition _get_empty_biography (name : option text) : json :=
  JObject
    [(key "name", name_value name);
     (key "birth_date", JString []);
     (key "birth_place", JString []);
     (key "death_date", JString []);
     (key "father_job", JString []);
     (key "father_name", JString []);
     (key "mother_name", JString []);
     (key "jobs", JArray []);
     (key "educations", JArray []);
     (key "stays_abroad", JArray []);
     (key "spouses", JArray []);
     (key "children", JArray [])].

(** [not markdown_chunk or len(markdown_chunk.strip()) < 50] *)
Definition too_short (markdown_chunk : text) : bool :=
  bool_decide (markdown_chunk = []) || (length (strip markdown_chunk) <? 50).

(** The list of biographies, the counter of failed extractions, and the
    calls of [extract_biography] with their arguments. *)
Record extraction := Extraction {
  biographies : list json;
  failed_extractions : nat;
  calls : list (option text * text)
}.

Section Extract.

(** [extract_biography], which asks the text generation service: the
    dictionary it returns, or the exception it raises. *)
Variable extract_biography : option text → text → result json.

(** The body of the loop over [df.iterrows()]; [json.dumps] of the
    dictionary is taken to return. *)
Definition process_row (acc : extraction) (r : csv_row) : extraction :=
  let chunk := str (markdown_chunk r) in
  if too_short chunk then
    Extraction (biographies acc ++ [_get_empty_biography (name r)])
      (S (failed_extractions acc)) (calls acc)
  else
    match extract_biography (name r) chunk with
    | inr biography =>
        Extraction (biographies acc ++ [biography])
          (failed_extractions acc) (calls acc ++ [(name r, chunk)])
    | inl _ =>
        Extraction (biographies acc ++ [_get_empty_biography (name r)])
          (S (failed_extractions acc)) (calls acc ++ [(name r, chunk)])
    end.

(** What the loop appends for one row, and whether it counts the row as
    failed, told from the row alone. *)
Definition biography_of (r : csv_row) : json :=
  let chunk := str (markdown_chunk r) in
  if too_short chunk then _get_empty_biography (name r)
  else match extract_biography (name r) chunk with
       | inr biography => biography
       | inl _ => _get_empty_biography (name r)
       end.

Definition is_failed (r : csv_row) : bool :=
  let chunk := str (markdown_chunk r) in
  too_short chunk
  || (if extract_biography (name r) chunk is inl _ then true else false).

(** [extraction_info] *)
Record extraction_info := ExtractionInfo {
  total_entries : nat;
  successful_extractions : nat;
  count_failed_extractions : nat
}.

Definition ValueError : exn :=
  OtherException
    "ValueError: CSV must contain 'name' and 'markdown_chunk' columns".

(** Lines 378 and 385 divide by [len(df)] for the success rate. *)
Definition ZeroDivisionError : exn :=
  OtherException "ZeroDivisionError: division by zero".

(** The value returned is [output_data]; for a frame without rows the
    loop does nothing and the success rate of line 378 raises. *)
Definition process_csv (columns : list string) (df : list csv_row)
    : result (extraction_info * extraction) :=
  if negb (bool_decide ("name"%string ∈ columns))
     || negb (bool_decide ("markdown_chunk"%string ∈ columns))
  then raise ValueError
  else
    let e := foldl process_row (Extraction [] 0 []) df in
    if length df =? 0 then raise ZeroDivisionError
    else
      ret (ExtractionInfo (length df)
             (length (biographies e) - failed_extractions e)
             (failed_extractions e),
           e).

End Extract.

End Biography.

(** * Properties *)

(** ** Searching *)

Module PyStrFacts.

Lemma ci_startswith_occurs p s :
  ci_startswith p s = true ↔ occurs_at p s 0.
Proof.
  unfold occurs_at. revert s.
  induction p as [|a p IH]; intros [|b s]; simpl.
  - split; [intros _; split; [lia|done]|done].
  - split; [intros _; split; [lia|done]|done].
  - split; [done|intros [? _]; lia].
  - rewrite andb_true_iff, IH. unfold ci_eqb.
    rewrite bool_decide_eq_true. rewrite drop_0.
    split.
    + intros (Hab & Hlen & Heq). split; [lia|].
      rewrite Hab. f_equal. exact Heq.
    + intros (Hlen & Heq). injection Heq as Hab Heq.
      repeat split; [done|lia|done].
Qed.

Lemma occurs_at_cons p c s i :
  occurs_at p (c :: s) (S i) ↔ occurs_at p s i.
Proof. unfold occurs_at. simpl. split; intros [? ?]; (split; [lia|done]). Qed.

Lemma occurs_at_nil p i : occurs_at p [] i → i = 0 ∧ p = [].
Proof.
  unfold occurs_at. simpl. intros [Hl _].
  split; [lia|]. destruct p; [done|simpl in Hl; lia].
Qed.

Lemma re_search_ci_Some p s i :
  re_search_ci p s = Some i ↔ first_occurrence p s i.
Proof.
  unfold first_occurrence. revert i.
  induction s as [|c s IH]; intros i; simpl.
  - destruct (ci_startswith p []) eqn:E.
    + apply ci_startswith_occurs in E. split.
      * intros [= <-]. split; [done|]. intros; lia.
      * intros [Hi _]. apply occurs_at_nil in Hi as [-> _]. done.
    + split; [done|]. intros [Hi _].
      pose proof (occurs_at_nil _ _ Hi) as [-> ->].
      simpl in E. done.
  - destruct (ci_startswith p (c :: s)) eqn:E.
    + apply ci_startswith_occurs in E. split.
      * intros [= <-]. split; [done|]. intros; lia.
      * intros [Hi Hmin]. destruct i as [|i]; [done|].
        exfalso. apply (Hmin 0); [lia|done].
    + assert (¬ occurs_at p (c :: s) 0) as Hno.
      { rewrite <- ci_startswith_occurs. by rewrite E. }
      destruct (re_search_ci p s) as [k|] eqn:Hs; simpl.
      * pose proof (proj1 (IH k) eq_refl) as [Hk Hkmin].
        split.
        -- intros [= <-]. split; [by apply occurs_at_cons|].
           intros [|j] Hj; [done|]. rewrite occurs_at_cons. apply Hkmin. lia.
        -- intros [Hi Hmin]. destruct i as [|i]; [done|]. f_equal.
           apply occurs_at_cons in Hi.
           destruct (Nat.lt_total i k) as [Hlt|[->|Hgt]]; [|done|].
           ++ exfalso. by apply (Hkmin i).
           ++ exfalso. apply (Hmin (S k)); [lia|]. by apply occurs_at_cons.
      * split; [done|]. intros [Hi Hmin]. destruct i as [|i]; [done|].
        apply occurs_at_cons in Hi.
        assert (@None nat = Some i) as Hsi; [|done].
        apply IH. split; [done|]. intros j Hj Hoj.
        apply (Hmin (S j)); [lia|]. by apply occurs_at_cons.
Qed.

Lemma first_occurrence_exists p s i :
  occurs_at p s i → ∃ k, first_occurrence p s k.
Proof.
  revert i. induction s as [|c s IH]; intros i Hi.
  - apply occurs_at_nil in Hi as [-> ->]. exists 0.
    split; [split; simpl; [lia|done]|intros; lia].
  - destruct (ci_startswith p (c :: s)) eqn:E.
    + exists 0. split; [by apply ci_startswith_occurs|intros; lia].
    + assert (¬ occurs_at p (c :: s) 0) as Hno.
      { rewrite <- ci_startswith_occurs. by rewrite E. }
      destruct i as [|i]; [done|]. apply occurs_at_cons in Hi.
      destruct (IH _ Hi) as (k & Hk & Hmin). exists (S k).
      split; [by apply occurs_at_cons|].
      intros [|j] Hj; [done|]. rewrite occurs_at_cons. apply Hmin. lia.
Qed.

Lemma re_search_ci_None p s :
  re_search_ci p s = None ↔ absent p s.
Proof.
  unfold absent. split.
  - intros Hn i Hi. destruct (first_occurrence_exists _ _ _ Hi) as [k Hk].
    apply re_search_ci_Some in Hk. congruence.
  - intros Hab. destruct (re_search_ci p s) as [k|] eqn:E; [|done].
    apply re_search_ci_Some in E as [E _]. by apply Hab in E.
Qed.

Lemma first_occurrence_unique p s i j :
  first_occurrence p s i → first_occurrence p s j → i = j.
Proof.
  intros Hi Hj. apply re_search_ci_Some in Hi, Hj. congruence.
Qed.

Lemma take_while_Forall P s : Forall (λ c, P c = true) (take_while P s).
Proof.
  induction s as [|c s IH]; simpl; [constructor|].
  destruct (P c) eqn:E; by constructor.
Qed.

Lemma insert_sorted_perm {A} (le : A → A → bool) x l :
  insert_sorted le x l ≡ₚ x :: l.
Proof.
  induction l as [|y l IH]; simpl; [done|].
  destruct (le x y); [done|]. rewrite IH. apply Permutation_swap.
Qed.

Lemma stable_sort_perm {A} (le : A → A → bool) l : stable_sort le l ≡ₚ l.
Proof.
  induction l as [|x l IH]; simpl; [done|].
  fold (stable_sort le l). by rewrite insert_sorted_perm, IH.
Qed.

Lemma take_drop_while P s : take_while P s ++ drop_while P s = s.
Proof.
  induction s as [|c s IH]; simpl; [done|].
  destruct (P c); [by rewrite <- IH at 3|done].
Qed.

Lemma is_char_true a c : is_char a c = true → c = a.
Proof. unfold is_char. by intros ?%bool_decide_eq_true. Qed.

Lemma drop_while_head P s c r : drop_while P s = c :: r → P c = false.
Proof.
  induction s as [|a s IH]; simpl; [done|].
  destruct (P a) eqn:E; [done|]. by intros [= <- <-].
Qed.

End PyStrFacts.

Module SegmenterFacts.
Import Segmenter.

Section Dedup.

Context {A : Type} (name : A → text).

Lemma mask_from_shift prev names :
  zip_with ne names (prev :: (Some <$> take (length names - 1) names))
  = mask_from prev names.
Proof.
  revert prev. induction names as [|n names IH]; intros prev; [done|].
  simpl. f_equal. rewrite Nat.sub_0_r.
  destruct names as [|m names]; [done|].
  rewrite <- IH. simpl. by rewrite Nat.sub_0_r.
Qed.

Lemma filter_mask_from prev (df : list A) :
  fst <$> filter (λ rm, snd rm = true) (zip df (mask_from prev (name <$> df)))
  = kept_from name prev df.
Proof.
  revert prev. induction df as [|r rest IH]; intros prev; [done|].
  simpl. rewrite filter_cons. simpl.
  destruct (ne (name r) prev); simpl.
  - f_equal. apply IH.
  - apply IH.
Qed.

Lemma drop_shift_duplicates_kept (df : list A) :
  drop_shift_duplicates name df = kept_from name None df.
Proof.
  unfold drop_shift_duplicates, shift.
  rewrite mask_from_shift. apply filter_mask_from.
Qed.

Lemma runs_cons r rest :
  ∃ run others, runs name (r :: rest) = (r :: run) :: others.
Proof.
  simpl. destruct (runs name rest) as [|[|r' run] others]; eauto.
  case_bool_decide; eauto.
Qed.

Lemma runs_step r r' rest run others :
  runs name (r' :: rest) = (r' :: run) :: others →
  runs name (r :: r' :: rest)
  = if bool_decide (name r = name r')
    then (r :: r' :: run) :: others
    else [r] :: (r' :: run) :: others.
Proof. intros E. simpl in *. by rewrite E. Qed.

Lemma collapse_runs_cons r rest :
  collapse_runs name (r :: rest)
  = r :: match rest with
         | [] => []
         | r' :: _ =>
             if bool_decide (name r = name r')
             then tail (collapse_runs name rest)
             else collapse_runs name rest
         end.
Proof.
  unfold collapse_runs. destruct rest as [|r' rest']; [done|].
  destruct (runs_cons r' rest') as (run & others & E).
  rewrite (runs_step _ _ _ _ _ E), E. by case_bool_decide.
Qed.

Lemma kept_from_collapse prev (df : list A) :
  kept_from name prev df
  = match prev, df with
    | Some p, r :: _ =>
        if bool_decide (name r = p) then tail (collapse_runs name df)
        else collapse_runs name df
    | _, _ => collapse_runs name df
    end.
Proof.
  revert prev. induction df as [|r rest IH]; intros prev.
  - by destruct prev.
  - rewrite collapse_runs_cons. simpl kept_from. rewrite IH.
    destruct prev as [p|]; simpl; [case_bool_decide; simpl|];
      (destruct rest as [|r0 rest0]; [done|];
       repeat case_bool_decide; congruence).
Qed.

Lemma concat_runs (df : list A) : concat (runs name df) = df.
Proof.
  induction df as [|r rest IH]; [done|].
  destruct rest as [|r' rest']; [done|].
  destruct (runs_cons r' rest') as (run & others & E).
  rewrite (runs_step _ _ _ _ _ E). rewrite E in IH.
  case_bool_decide; simpl in *; by rewrite IH.
Qed.

Lemma runs_are_runs (df : list A) : Forall (is_run name) (runs name df).
Proof.
  induction df as [|r rest IH]; [constructor|].
  destruct rest as [|r' rest'].
  { repeat constructor. by exists r, []. }
  destruct (runs_cons r' rest') as (run & others & E).
  rewrite (runs_step _ _ _ _ _ E). rewrite E in IH.
  inversion IH as [|? ? Hrun Hothers]; subst.
  destruct Hrun as (r0 & more & [= <- <-] & Hall).
  case_bool_decide as Hn.
  - constructor; [|done]. exists r, (r' :: run). split; [done|].
    constructor; [done|]. eapply Forall_impl; [exact Hall|].
    simpl. intros; congruence.
  - constructor; [by exists r, []|]. constructor; [|done].
    by exists r', run.
Qed.

Lemma runs_adjacent_differ (df : list A) i run1 run2 r1 r2 :
  runs name df !! i = Some run1 → runs name df !! S i = Some run2 →
  head run1 = Some r1 → head run2 = Some r2 → name r1 ≠ name r2.
Proof.
  revert i run1 run2 r1 r2.
  induction df as [|r rest IH]; intros i run1 run2 r1 r2; [done|].
  destruct rest as [|r' rest'].
  { by destruct i. }
  destruct (runs_cons r' rest') as (run & others & E).
  rewrite (runs_step _ _ _ _ _ E). rewrite E in IH.
  case_bool_decide as Hn.
  - destruct i as [|i]; simpl.
    + intros [= <-] H2 [= <-] Hh Heq. rewrite Hn in Heq.
      by eapply (IH 0 (r' :: run) run2 r' r2).
    + intros H1 H2. by eapply (IH (S i)).
  - destruct i as [|i]; simpl.
    + intros [= <-] [= <-] [= <-] [= <-]. done.
    + intros H1 H2. by eapply (IH i).
Qed.

Lemma length_collapse_runs (df : list A) :
  length (collapse_runs name df) = length (runs name df).
Proof.
  unfold collapse_runs. pose proof (runs_are_runs df) as H.
  revert H. generalize (runs name df). intros rs H.
  induction H as [|run rs (r & more & -> & _) _ IH]; [done|].
  simpl in *. by f_equal.
Qed.

Lemma drop_shift_duplicates_collapse (df : list A) :
  drop_shift_duplicates name df = collapse_runs name df.
Proof. rewrite drop_shift_duplicates_kept. apply kept_from_collapse. Qed.

End Dedup.

Lemma extract_names_to_dataframe_collapse books r data :
  collect_rows books = r :: data →
  extract_names_to_dataframe books
  = ret (collapse_runs name (stable_sort by_book_and_page (r :: data))).
Proof.
  intros E. unfold extract_names_to_dataframe. rewrite E.
  by rewrite drop_shift_duplicates_collapse.
Qed.

Lemma extract_names_to_dataframe_empty books :
  collect_rows books = [] →
  extract_names_to_dataframe books = raise (KeyError "book_id").
Proof. intros E. unfold extract_names_to_dataframe. by rewrite E. Qed.

Lemma extract_portrait_names_collapse files r data :
  collect_portrait_rows files = r :: data →
  extract_portrait_names_to_dataframe files
  = ret (collapse_runs p_name (r :: data)).
Proof.
  intros E. unfold extract_portrait_names_to_dataframe. rewrite E.
  by rewrite drop_shift_duplicates_collapse.
Qed.

(** *** The chunker *)

Lemma length_chunks content names :
  length (chunk_markdown_by_names content names) = length names.
Proof. apply length_imap. Qed.

Lemma lookup_chunk content names i :
  chunk_markdown_by_names content names !! i
  = chunk_at content names i <$> names !! i.
Proof. apply list_lookup_imap. Qed.

Lemma search_name_located name content :
  located name content (search_name name content).
Proof.
  unfold located, search_name.
  destruct (re_search_ci name content) as [i|] eqn:E.
  - left. by apply PyStrFacts.re_search_ci_Some.
  - apply PyStrFacts.re_search_ci_None in E.
    destruct (re_search_ci _ content) as [i|] eqn:E'.
    + right. split; [done|]. by apply PyStrFacts.re_search_ci_Some.
    + split; [done|]. by apply PyStrFacts.re_search_ci_None.
Qed.

Lemma located_search_name name content r :
  located name content r → search_name name content = r.
Proof.
  unfold located, search_name. destruct r as [i|].
  - intros [H|[Hab H]].
    + apply PyStrFacts.re_search_ci_Some in H. by rewrite H.
    + apply PyStrFacts.re_search_ci_None in Hab. rewrite Hab.
      by apply PyStrFacts.re_search_ci_Some.
  - intros [Hab Hab']. apply PyStrFacts.re_search_ci_None in Hab, Hab'.
    by rewrite Hab, Hab'.
Qed.

Example chunks_three_names :
  chunk_markdown_by_names
    (txt "intro ALFA, A. one BETA B two  GAMMA, C. three ")
    [txt "Alfa, A."; txt "BETA, B."; txt "gamma, c."; txt "DELTA"]
  = [txt "ALFA, A. one"; txt "BETA B two"; txt "GAMMA, C. three"; []].
Proof. vm_compute. reflexivity. Qed.

Example dedup_AAB :
  drop_shift_duplicates id [txt "A"; txt "A"; txt "B"; txt "A"]
  = [txt "A"; txt "B"; txt "A"].
Proof. vm_compute. reflexivity. Qed.

Lemma collapse_runs_AAB {A} (nm : A → text) (a a' b : A) :
  nm a = nm a' → nm a' ≠ nm b → collapse_runs nm [a; a'; b] = [a; b].
Proof.
  intros Haa Hab.
  rewrite <- drop_shift_duplicates_collapse, drop_shift_duplicates_kept.
  simpl. rewrite !bool_decide_eq_true_2 by done. simpl.
  rewrite bool_decide_eq_false_2; [done|]. congruence.
Qed.

Lemma length_add_chunks {A} (nm : A → text) (df : list A) content :
  length (add_chunks_to_dataframe nm df content) = length df.
Proof.
  unfold add_chunks_to_dataframe.
  rewrite length_zip_with, length_chunks, length_fmap. lia.
Qed.

(** C6: the frame that [extract_names_to_dataframe] returns, in both
    scripts, holds exactly the first row of every maximal run of rows
    with one name in the ordered rows (in the all-names script the rows
    collected and sorted by book id and page number, in the portrait
    script the rows collected), and [add_chunks_to_dataframe] hands the
    names of that frame to the chunker, so that there is one entry and
    one chunk per run.  The runs split the ordered rows, each run has one
    name, and neighbouring runs have different names.  Ordered rows
    named [A, A, B] give the rows and the chunks of [A, B]. *)
Theorem consecutive_duplicates_collapse
    (books : list (text * list entry))
    (files : list (text * list association)) (markdown_content : text) :
  (∀ r data,
     collect_rows books = r :: data →
     let ordered := stable_sort by_book_and_page (r :: data) in
     ∃ df, extract_names_to_dataframe books = ret df
           ∧ df = collapse_runs name ordered
           ∧ add_chunks_to_dataframe name df markdown_content
             = zip df (chunk_markdown_by_names markdown_content
                         (name <$> collapse_runs name ordered))
           ∧ length (add_chunks_to_dataframe name df markdown_content)
             = length (runs name ordered))
  ∧ (∀ r data,
       collect_portrait_rows files = r :: data →
       let ordered := r :: data in
       ∃ df, extract_portrait_names_to_dataframe files = ret df
             ∧ df = collapse_runs p_name ordered
             ∧ add_chunks_to_dataframe p_name df markdown_content
               = zip df (chunk_markdown_by_names markdown_content
                           (p_name <$> collapse_runs p_name ordered))
             ∧ length (add_chunks_to_dataframe p_name df markdown_content)
               = length (runs p_name ordered))
  ∧ (∀ {A} (nm : A → text) (ordered : list A),
       concat (runs nm ordered) = ordered
       ∧ Forall (is_run nm) (runs nm ordered)
       ∧ ∀ i run1 run2 r1 r2,
           runs nm ordered !! i = Some run1 →
           runs nm ordered !! S i = Some run2 →
           head run1 = Some r1 → head run2 = Some r2 → nm r1 ≠ nm r2)
  ∧ (∀ a a' b,
       stable_sort by_book_and_page (collect_rows books) = [a; a'; b] →
       name a = name a' → name a' ≠ name b →
       extract_names_to_dataframe books = ret [a; b]
       ∧ add_chunks_to_dataframe name [a; b] markdown_content
         = zip [a; b]
             (chunk_markdown_by_names markdown_content [name a; name b]))
  ∧ (∀ a a' b,
       collect_portrait_rows files = [a; a'; b] →
       p_name a = p_name a' → p_name a' ≠ p_name b →
       extract_portrait_names_to_dataframe files = ret [a; b]
       ∧ add_chunks_to_dataframe p_name [a; b] markdown_content
         = zip [a; b]
             (chunk_markdown_by_names markdown_content
                [p_name a; p_name b])).
Proof.
  split_and!.
  - intros r data E ordered. eexists. split_and!.
    + by apply extract_names_to_dataframe_collapse.
    + done.
    + done.
    + rewrite length_add_chunks. apply length_collapse_runs.
  - intros r data E ordered. eexists. split_and!.
    + by apply extract_portrait_names_collapse.
    + done.
    + done.
    + rewrite length_add_chunks. apply length_collapse_runs.
  - intros A nm ordered. split_and!.
    + apply concat_runs.
    + apply runs_are_runs.
    + apply runs_adjacent_differ.
  - intros a a' b Hsorted Haa Hab. split; [|done].
    destruct (collect_rows books) as [|r data] eqn:E; [done|].
    rewrite (extract_names_to_dataframe_collapse _ _ _ E), Hsorted.
    by rewrite collapse_runs_AAB.
  - intros a a' b E Haa Hab. split; [|done].
    rewrite (extract_portrait_names_collapse _ _ _ E).
    by rewrite collapse_runs_AAB.
Qed.

Lemma consecutive_duplicates_collapse_witness :
  extract_portrait_names_to_dataframe
    [(txt "b1",
      [Association (Some (txt "A")) (txt "1.png") (txt "1") (txt "0.9");
       Association (Some (txt "A")) (txt "2.png") (txt "1") (txt "0.9");
       Association None (txt "3.png") (txt "2") (txt "0.1");
       Association (Some (txt "B")) (txt "4.png") (txt "2") (txt "0.8")])]
  = ret [PortraitRow (txt "A") (txt "1.png") (txt "1") (txt "0.9") (txt "b1");
         PortraitRow (txt "B") (txt "4.png") (txt "2") (txt "0.8") (txt "b1")].
Proof.
  destruct (consecutive_duplicates_collapse []
    [(txt "b1",
      [Association (Some (txt "A")) (txt "1.png") (txt "1") (txt "0.9");
       Association (Some (txt "A")) (txt "2.png") (txt "1") (txt "0.9");
       Association None (txt "3.png") (txt "2") (txt "0.1");
       Association (Some (txt "B")) (txt "4.png") (txt "2") (txt "0.8")])]
    []) as (_ & _ & _ & _ & H).
  apply (H (PortraitRow (txt "A") (txt "1.png") (txt "1") (txt "0.9")
              (txt "b1"))
           (PortraitRow (txt "A") (txt "2.png") (txt "1") (txt "0.9")
              (txt "b1"))
           (PortraitRow (txt "B") (txt "4.png") (txt "2") (txt "0.8")
              (txt "b1")));
    [reflexivity|reflexivity|discriminate].
Defined.

(** C3, as amended: one chunk per name; when name [i] occurs in the text,
    its chunk is the whitespace-trimmed slice that starts at the first
    case-insensitive occurrence [s] of the name and ends at the first
    occurrence of name [i+1] (or of that name without punctuation) at or
    after [s + len(name)], and at the end of the text for the last name or
    when the next name is not found there. *)
Theorem chunk_is_trimmed_slice content names i name s :
  names !! i = Some name →
  first_occurrence name content s →
  length (chunk_markdown_by_names content names) = length names
  ∧ ∃ e, chunk_markdown_by_names content names !! i
         = Some (strip (slice content s e))
    ∧ match names !! (i + 1) with
      | None => e = length content
      | Some next_name =>
          ∃ r, located next_name (drop (s + length name) content) r
               ∧ e = match r with
                     | Some k => s + length name + k
                     | None => length content
                     end
      end.
Proof.
  intros Hi Hs. split; [apply length_chunks|].
  rewrite lookup_chunk, Hi. simpl. unfold chunk_at.
  rewrite (located_search_name name content (Some s)) by (by left).
  eexists. split; [reflexivity|].
  destruct (names !! (i + 1)) as [next_name|]; [|done].
  eexists. split; [apply search_name_located|].
  by destruct (search_name next_name _).
Qed.

Lemma chunk_is_trimmed_slice_witness :
  chunk_markdown_by_names (txt "x AB  b") [txt "ab"; txt "B"] !! 0
  = Some (txt "AB").
Proof.
  destruct (chunk_is_trimmed_slice (txt "x AB  b") [txt "ab"; txt "B"]
              0 (txt "ab") 2) as (_ & e & -> & r & Hr & ->).
  - reflexivity.
  - apply PyStrFacts.re_search_ci_Some. reflexivity.
  - apply located_search_name in Hr. vm_compute in Hr. subst r. reflexivity.
Defined.

(** C3 as stated fails: for the text "A  B" and the names A, B the claim
    puts the end of the first chunk immediately before B, which gives the
    slice [0:3]; the chunk returned is trimmed and ends after the A. *)
Lemma chunk_is_not_the_slice :
  let content := txt "A  B" in
  let names := [txt "A"; txt "B"] in
  first_occurrence (txt "A") content 0
  ∧ first_occurrence (txt "B") content 3
  ∧ slice content 0 3 = txt "A  "
  ∧ chunk_markdown_by_names content names !! 0 = Some (txt "A")
  ∧ chunk_markdown_by_names content names !! 0 ≠ Some (slice content 0 3).
Proof.
  split_and!; try (apply PyStrFacts.re_search_ci_Some); done.
Qed.

(** The end of a chunk is searched from the end of the name, not from
    the start of the chunk: for "AB B" and the names AB, B the first
    occurrence of B after index 0 is index 1, the chunk ends at index 3. *)
Lemma chunk_end_is_searched_after_the_name :
  let content := txt "AB B" in
  first_occurrence (txt "B") (drop 1 content) 0
  ∧ chunk_markdown_by_names content [txt "AB"; txt "B"] !! 0
    = Some (txt "AB").
Proof. split; [apply PyStrFacts.re_search_ci_Some|]; done. Qed.

Lemma lookup_add_chunks {A} (nm : A → text) (df : list A) content
    (i : nat) r :
  df !! i = Some r →
  add_chunks_to_dataframe nm df content !! i
  = Some (r, chunk_at content (nm <$> df) i (nm r)).
Proof.
  intros Hi. unfold add_chunks_to_dataframe.
  rewrite lookup_zip_with, Hi. simpl.
  by rewrite lookup_chunk, list_lookup_fmap, Hi.
Qed.

(** C7: when name [i] does not occur in the text, the search is repeated
    with the name stripped of every character that is neither a word
    character nor white space.  A match of the stripped name starts the
    chunk: the chunk is the trimmed slice from that match to the place
    where the next name is found from the match plus the length of the
    name on, or to the end of the text.  When the stripped name does not
    occur either, the chunk is the empty string.  Nothing is raised, the
    list keeps one chunk per name, and the frame keeps the row, with the
    empty chunk. *)
Theorem unlocated_name_gets_empty_chunk content names i name :
  names !! i = Some name →
  absent name content →
  length (chunk_markdown_by_names content names) = length names
  ∧ search_name name content = re_search_ci (strip_punctuation name) content
  ∧ (∀ c, c ∈ strip_punctuation name ↔
          c ∈ name ∧ (is_word c ∨ is_space c))
  ∧ strip_punctuation name `sublist_of` name
  ∧ (∀ s, first_occurrence (strip_punctuation name) content s →
       search_name name content = Some s
       ∧ ∃ e, chunk_markdown_by_names content names !! i
              = Some (strip (slice content s e))
         ∧ match names !! (i + 1) with
           | None => e = length content
           | Some next_name =>
               ∃ r, located next_name (drop (s + length name) content) r
                    ∧ e = match r with
                          | Some k => s + length name + k
                          | None => length content
                          end
           end)
  ∧ (absent (strip_punctuation name) content →
       search_name name content = None
       ∧ chunk_markdown_by_names content names !! i = Some []
       ∧ ∀ {A} (nm : A → text) (df : list A) r,
           nm <$> df = names → df !! i = Some r →
           add_chunks_to_dataframe nm df content !! i = Some (r, [])
           ∧ length (add_chunks_to_dataframe nm df content) = length df).
Proof.
  intros Hi Hab. split_and!.
  - apply length_chunks.
  - unfold search_name.
    by rewrite (proj2 (PyStrFacts.re_search_ci_None name content) Hab).
  - intros c. unfold strip_punctuation. rewrite list_elem_of_filter.
    rewrite orb_True. tauto.
  - apply sublist_filter.
  - intros s Hs.
    assert (search_name name content = Some s) as Hsearch.
    { apply located_search_name. by right. }
    split; [done|].
    rewrite lookup_chunk, Hi. simpl. unfold chunk_at. rewrite Hsearch.
    eexists. split; [reflexivity|].
    destruct (names !! (i + 1)) as [next_name|]; [|done].
    eexists. split; [apply search_name_located|].
    by destruct (search_name next_name _).
  - intros Hab'.
    assert (search_name name content = None) as Hsearch.
    { by apply (located_search_name name content None). }
    split_and!; [done| |].
    + rewrite lookup_chunk, Hi. simpl. unfold chunk_at. by rewrite Hsearch.
    + intros A nm df r Hnames Hr. split; [|apply length_add_chunks].
      rewrite (lookup_add_chunks _ _ _ _ _ Hr). do 2 f_equal.
      assert (nm r = name) as ->.
      { rewrite <- Hnames, list_lookup_fmap, Hr in Hi. by injection Hi. }
      unfold chunk_at. by rewrite Hsearch.
Qed.

Lemma unlocated_name_gets_empty_chunk_witness :
  chunk_markdown_by_names (txt "x BETA B two GAMMA three")
    [txt "Beta, B."; txt "GAMMA"] !! 0
  = Some (txt "BETA B two").
Proof.
  destruct (unlocated_name_gets_empty_chunk (txt "x BETA B two GAMMA three")
              [txt "Beta, B."; txt "GAMMA"] 0 (txt "Beta, B."))
    as (_ & _ & _ & _ & H & _).
  - reflexivity.
  - apply PyStrFacts.re_search_ci_None. reflexivity.
  - destruct (H 2) as (_ & e & -> & r & Hr & ->).
    + apply PyStrFacts.re_search_ci_Some. reflexivity.
    + apply located_search_name in Hr. vm_compute in Hr. subst r.
      reflexivity.
Defined.

(** With no match of the stripped name either, the row is kept with an
    empty chunk. *)
Example unlocated_name_keeps_its_row :
  add_chunks_to_dataframe id [txt "ALFA"; txt "BETA, B."] (txt "ALFA one")
  = [(txt "ALFA", txt "ALFA one"); (txt "BETA, B.", [])].
Proof. vm_compute. reflexivity. Qed.

End SegmenterFacts.
(** ** Decimal numbers *)

Module DecimalFacts.

Lemma int_of_digits_snoc s c :
  int_of_digits (s ++ [c]) = (int_of_digits s * 10 + digit_value c)%N.
Proof. unfold int_of_digits. by rewrite foldl_app. Qed.

Lemma digit_value_char d : (d < 10)%N → digit_value (digit_char d) = d.
Proof.
  intros Hd. unfold digit_value, digit_char, code.
  rewrite nat_ascii_embedding by lia. lia.
Qed.

Lemma int_of_digits_of fuel n :
  (n < 10 ^ N.of_nat fuel)%N → int_of_digits (digits_of fuel n) = n.
Proof.
  revert n. induction fuel as [|fuel IH]; intros n Hn.
  - simpl in *. assert (n = 0%N) as -> by lia. done.
  - simpl digits_of. rewrite int_of_digits_snoc.
    rewrite digit_value_char by (apply N.mod_lt; lia).
    rewrite Nat2N.inj_succ, N.pow_succ_r' in Hn.
    destruct (N.ltb_spec n 10).
    + rewrite N.mod_small by done. done.
    + rewrite IH.
      * pose proof (N.div_mod n 10). lia.
      * apply N.Div0.div_lt_upper_bound. lia.
Qed.

Lemma str_of_N_fuel n : (n < 10 ^ N.of_nat (S (N.to_nat (N.log2 n))))%N.
Proof.
  rewrite Nat2N.inj_succ, N2Nat.id.
  destruct (decide (n = 0%N)) as [->|Hn]; [done|].
  pose proof (N.log2_spec n) as [_ Hlt]; [lia|].
  eapply N.lt_le_trans; [exact Hlt|].
  apply N.pow_le_mono_l. lia.
Qed.

Lemma int_of_str_of_N n : int_of_digits (str_of_N n) = n.
Proof. apply int_of_digits_of, str_of_N_fuel. Qed.

Lemma int_of_zero_pad w s : int_of_digits (zero_pad w s) = int_of_digits s.
Proof.
  unfold zero_pad, int_of_digits. rewrite foldl_app.
  f_equal. induction (w - length s) as [|k IH]; [done|]. simpl. exact IH.
Qed.

Lemma int_of_format_04d z :
  (0 ≤ z)%Z → int_of_digits (format_04d z) = Z.to_N z.
Proof.
  intros Hz. unfold format_04d.
  destruct (Z.ltb_spec z 0); [lia|].
  by rewrite int_of_zero_pad, int_of_str_of_N.
Qed.


End DecimalFacts.
(** ** Page-start portrait rule *)

Module PageStartFacts.
Import PageStart.

Example figure_file_found :
  find_files_starting_with_figures
    [(txt "digibok_2007031501007_0060.md",
      Some (txt "  ![Figure](figures/p60_figure_001.png) HANSEN"));
     (txt "digibok_2007031501007_0061.md", Some (txt "OLSEN, Anna ![Figure](figures/x.png)"));
     (txt "digibok_2007031501007_0062.md", None)]
  = [FileInfo (txt "digibok_2007031501007_0060.md")
       (txt "![Figure](figures/p60_figure_001.png) HANSEN")].
Proof. vm_compute. reflexivity. Qed.

Example target_of_page_60 :
  target (FileInfo (txt "digibok_2007031501007_0060.md")
            (txt "![Figure](figures/p60_figure_001.png) HANSEN"))
  = Some (txt "p60_figure_001.png", txt "digibok_2007031501007_0059").
Proof. vm_compute. reflexivity. Qed.

Example target_of_page_0 :
  target (FileInfo (txt "digibok_1_0000.md") (txt "![Figure](figures/a.png)"))
  = Some (txt "a.png", txt "digibok_1_-001").
Proof. vm_compute. reflexivity. Qed.

Example associate_two_pages :
  associate_portraits_with_names
    [(txt "HANSEN, Ole", txt "digibok_1_0001", txt "c1");
     (txt "OLSEN, Anna", txt "digibok_1_0001", txt "c2");
     (txt "BERG, Per", txt "digibok_1_0002", txt "c3")]
    [FileInfo (txt "digibok_1_0002.md") (txt "![Figure](figures/a.png)")]
  = [Row (txt "HANSEN, Ole") (txt "digibok_1_0001") (txt "c1") [];
     Row (txt "OLSEN, Anna") (txt "digibok_1_0001") (txt "c2") (txt "a.png");
     Row (txt "BERG, Per") (txt "digibok_1_0002") (txt "c3") []].
Proof. vm_compute. reflexivity. Qed.


Lemma last_index_of_book_None b df :
  last_index_of_book b df = None ↔ ∀ j, book_id <$> df !! j ≠ Some b.
Proof.
  induction df as [|r df IH]; simpl.
  - split; [by intros _ j|done].
  - destruct (last_index_of_book b df) as [k|].
    + split; [done|]. intros Hno. exfalso.
      assert (Some k = None) as Hk; [|done].
      apply IH. intros j. apply (Hno (S j)).
    + case_bool_decide as Hb.
      * split; [done|]. intros Hno. exfalso. apply (Hno 0). simpl. by f_equal.
      * split; [|done]. intros _ [|j]; simpl.
        -- congruence.
        -- by apply IH.
Qed.

Lemma last_index_of_book_Some b df i :
  last_index_of_book b df = Some i ↔ last_row_of b df i.
Proof.
  unfold last_row_of. revert i.
  induction df as [|r df IH]; intros i; simpl.
  - split; [done|]. by intros [? _].
  - destruct (last_index_of_book b df) as [k|] eqn:E.
    + pose proof (proj1 (IH k) eq_refl) as [Hk Hlast]. split.
      * intros [= <-]. split; [done|].
        intros [|j] Hj; [lia|]. apply Hlast. lia.
      * intros [Hi Hlast']. destruct i as [|i].
        { exfalso. by apply (Hlast' (S k)); [lia|]. }
        f_equal. simpl in Hi.
        destruct (Nat.lt_total i k) as [Hlt|[->|Hgt]]; [|done|].
        -- exfalso. by apply (Hlast' (S k)); [lia|].
        -- exfalso. by apply (Hlast i).
    + pose proof (proj1 (last_index_of_book_None b df) E) as Hnone.
      case_bool_decide as Hb.
      * split.
        -- intros [= <-]. split; [by rewrite <- Hb|].
           intros [|j] Hj; [lia|]. apply Hnone.
        -- intros [Hi _]. destruct i as [|i]; [done|]. by apply Hnone in Hi.
      * split; [done|]. intros [Hi _]. destruct i as [|i].
        -- simpl in Hi. congruence.
        -- by apply Hnone in Hi.
Qed.

Lemma last_row_of_ext b df df' i :
  book_id <$> df = book_id <$> df' →
  last_row_of b df i → last_row_of b df' i.
Proof.
  unfold last_row_of. intros E [H1 H2].
  split; [by rewrite <- list_lookup_fmap, <- E, list_lookup_fmap|].
  intros j Hj. rewrite <- list_lookup_fmap, <- E, list_lookup_fmap.
  by apply H2.
Qed.

Lemma book_id_alter p (i : nat) (df : list row) :
  book_id <$> alter (set_portrait p) i df = book_id <$> df.
Proof.
  rewrite (list_fmap_alter _ _ id); [by apply list_alter_id|].
  by apply Forall_forall.
Qed.

Lemma associate_one_book_ids df f :
  book_id <$> associate_one df f = book_id <$> df.
Proof.
  unfold associate_one. destruct (target f) as [[p b]|]; [|done].
  destruct (last_index_of_book b df); [|done]. apply book_id_alter.
Qed.

Lemma associate_all_book_ids files df :
  book_id <$> foldl associate_one df files = book_id <$> df.
Proof.
  revert df. induction files as [|f files IH]; intros df; [done|].
  simpl. by rewrite IH, associate_one_book_ids.
Qed.
















End PageStartFacts.
Module GrouperFacts.
Import Grouper.

Example page_number_0057 :
  get_page_number (txt "digibok_2007031501007_0057.md") = 57%N.
Proof. vm_compute. reflexivity. Qed.

Example book_id_three_tokens :
  get_book_id (txt "digibok_2007031501007_0057.md")
  = txt "digibok_2007031501007_0057".
Proof. vm_compute. reflexivity. Qed.

Example book_id_four_tokens :
  get_book_id (txt "digibok_2007031501007_v2_0057.md")
  = txt "digibok_2007031501007_v2".
Proof. vm_compute. reflexivity. Qed.

Example replace_everywhere :
  replace (txt ".md") [] (txt "a.mdb_1.md") = txt "ab_1".
Proof. vm_compute. reflexivity. Qed.

Example grouped :
  find_markdown_files [txt "b_x_y_0002.md"; txt "notes.md"; txt "b_x_y_0001.md"]
  = {[ txt "b_x_y" := [txt "b_x_y_0001.md"; txt "b_x_y_0002.md"];
       txt "notes" := [txt "notes.md"] ]}.
Proof. vm_compute. reflexivity. Qed.

Lemma match_page_suffix_Some s digits :
  match_page_suffix s = Some digits → has_page_suffix s.
Proof.
  unfold match_page_suffix. destruct s as [|c rest]; [done|].
  destruct (is_char "_" c) eqn:Ec; [|done]. apply PyStrFacts.is_char_true in Ec as ->.
  pose proof (PyStrFacts.take_drop_while is_digit rest) as Hsplit.
  pose proof (PyStrFacts.take_while_Forall is_digit rest) as Hall.
  destruct (take_while is_digit rest) as [|d ds]; [done|].
  destruct (drop_while is_digit rest) as [|nl [|? ?]]; [| |done].
  - intros _. exists [], (d :: ds). split_and!; [done|done|].
    left. simpl. by rewrite <- Hsplit, app_nil_r.
  - destruct (is_char "010" nl) eqn:En; [|done]. apply PyStrFacts.is_char_true in En as ->.
    intros _. exists [], (d :: ds). split_and!; [done|done|].
    right. simpl. by rewrite <- Hsplit.
Qed.

Lemma has_page_suffix_cons c s : has_page_suffix s → has_page_suffix (c :: s).
Proof.
  intros (book & digits & ? & ? & [->| ->]);
    exists (c :: book), digits; split_and!; auto.
Qed.

Lemma search_page_suffix_Some s digits :
  search_page_suffix s = Some digits → has_page_suffix s.
Proof.
  induction s as [|c s IH]; intros H; [done|].
  change (search_page_suffix (c :: s)) with
    (match match_page_suffix (c :: s) with
     | Some g => Some g
     | None => search_page_suffix s
     end) in H.
  destruct (match_page_suffix (c :: s)) as [g|] eqn:E.
  - by eapply match_page_suffix_Some.
  - by apply has_page_suffix_cons, IH.
Qed.

Lemma lookup_foldl_append files books book :
  foldl append_to_book books files !! book
  = match filter (λ f, get_book_id f = book) files with
    | [] => books !! book
    | g => Some (default [] (books !! book) ++ g)
    end.
Proof.
  revert books. induction files as [|f files IH]; intros books; [done|].
  simpl. rewrite IH. rewrite filter_cons. unfold append_to_book at 1 2.
  destruct (decide (get_book_id f = book)) as [->|Hne].
  - rewrite lookup_insert_eq. simpl.
    destruct (filter _ files); [done|]. by rewrite <- app_assoc.
  - by rewrite lookup_insert_ne.
Qed.

(** The groups are the files of each book id, sorted by page number. *)
Lemma lookup_find_markdown_files files book :
  find_markdown_files files !! book
  = match filter (λ f, get_book_id f = book) files with
    | [] => None
    | g => Some (stable_sort by_page_number g)
    end.
Proof.
  unfold find_markdown_files.
  rewrite lookup_fmap, lookup_foldl_append, lookup_empty.
  by destruct (filter _ files).
Qed.

(** C9, as amended: no file is skipped.  Every file handed to the grouper
    is put in the group of its book id, also one whose name does not end
    in an underscore and digits: such a file gets page number 0, and its
    book id is the name without [.md] when that has fewer than four
    underscore-delimited tokens, and otherwise the tokens but the last,
    joined by underscores.  Nothing is raised. *)
Theorem unmatched_filename_is_grouped (files : list text) (md_file : text) :
  md_file ∈ files →
  let name_without_ext := replace (txt ".md") [] md_file in
  (∃ group, find_markdown_files files !! get_book_id md_file = Some group
            ∧ md_file ∈ group)
  ∧ (¬ has_page_suffix name_without_ext → get_page_number md_file = 0%N)
  ∧ (length (split "_" name_without_ext) < 4 →
     get_book_id md_file = name_without_ext)
  ∧ (4 ≤ length (split "_" name_without_ext) →
     get_book_id md_file
     = join "_" (take (length (split "_" name_without_ext) - 1)
                   (split "_" name_without_ext))).
Proof.
  intros Hin name_without_ext. split_and!.
  - rewrite lookup_find_markdown_files.
    assert (md_file ∈ filter (λ f, get_book_id f = get_book_id md_file) files)
      as Hf by (by apply list_elem_of_filter).
    destruct (filter _ files) as [|f g] eqn:E; [by apply elem_of_nil in Hf|].
    eexists. split; [done|]. by rewrite PyStrFacts.stable_sort_perm.
  - intros Hno. unfold get_page_number. fold name_without_ext.
    destruct (search_page_suffix name_without_ext) as [g|] eqn:E; [|done].
    by apply search_page_suffix_Some in E.
  - intros Hlen. unfold get_book_id. fold name_without_ext.
    destruct (Nat.leb_spec 4 (length (split "_" name_without_ext)));
      [lia|done].
  - intros Hlen. unfold get_book_id. fold name_without_ext.
    destruct (Nat.leb_spec 4 (length (split "_" name_without_ext)));
      [done|lia].
Qed.

Lemma unmatched_filename_is_grouped_witness :
  ∃ group,
    find_markdown_files [txt "b_x_y_0002.md"; txt "notes.md"]
      !! get_book_id (txt "notes.md") = Some group
    ∧ txt "notes.md" ∈ group.
Proof.
  apply (unmatched_filename_is_grouped
           [txt "b_x_y_0002.md"; txt "notes.md"] (txt "notes.md")).
  apply (list_elem_of_lookup_2 _ 1). reflexivity.
Defined.

(** C9 as stated fails: [notes.md] has no page token, and it is given
    page number 0, the book id [notes] and a group of its own. *)
Lemma unmatched_filename_is_not_skipped :
  ¬ has_page_suffix (replace (txt ".md") [] (txt "notes.md"))
  ∧ get_page_number (txt "notes.md") = 0%N
  ∧ get_book_id (txt "notes.md") = txt "notes"
  ∧ find_markdown_files [txt "notes.md"]
    = {[ txt "notes" := [txt "notes.md"] ]}.
Proof.
  split_and!; try (vm_compute; reflexivity).
  intros (book & digits & Hne & Hall & Hs).
  change (replace (txt ".md") [] (txt "notes.md")) with (txt "notes") in Hs.
  assert (∀ book', "_"%char ∉ book' ++ "_"%char :: digits → False) as Hin.
  { intros book' H. apply H. apply elem_of_app. right. by left. }
  destruct Hs as [Hs|Hs].
  - apply (Hin book). rewrite <- Hs. vm_compute. 
    intros H. repeat (apply elem_of_cons in H as [H|H]; [done|]).
    by apply elem_of_nil in H.
  - assert ("_"%char ∈ txt "notes") as H.
    { rewrite Hs. apply elem_of_app. right. by left. }
    vm_compute in H.
    repeat (apply elem_of_cons in H as [H|H]; [done|]).
    by apply elem_of_nil in H.
Qed.

End GrouperFacts.
(** ** Response parser *)

Module ParserFacts.
Import Json Parser.

Lemma lstrip_id c s : is_space c = false → lstrip (c :: s) = c :: s.
Proof. intros H. simpl. by rewrite H. Qed.

Lemma strip_bracketed m :
  head m = Some "["%char → last m = Some "]"%char → strip m = m.
Proof.
  intros Hh Hl. unfold strip, rstrip.
  destruct m as [|c m]; [done|]. injection Hh as ->.
  rewrite lstrip_id by done.
  destruct (reverse ("["%char :: m)) as [|d r] eqn:E.
  { apply (f_equal length) in E. rewrite length_reverse in E. done. }
  assert (d = "]"%char) as ->.
  { rewrite <- (reverse_involutive ("["%char :: m)), E in Hl.
    rewrite reverse_cons, last_snoc in Hl. congruence. }
  rewrite lstrip_id by done. by rewrite <- E, reverse_involutive.
Qed.

Lemma array_tail_spec inner s m :
  array_tail inner s = Some m →
  (∃ post, s = m ++ post) ∧ last m = Some "]"%char.
Proof.
  revert inner m. induction s as [|c s IH]; intros inner m; [done|].
  simpl. destruct inner.
  - destruct (array_tail _ s) as [m'|] eqn:E; [|done].
    intros [= <-]. destruct (IH _ _ E) as [[post ->] Hl].
    split; [by exists post|]. destruct m'; [done|]. done.
  - destruct (is_char "]" c) eqn:Ec.
    + intros [= <-]. apply PyStrFacts.is_char_true in Ec as ->.
      split; [by exists s|done].
    + destruct (array_tail _ s) as [m'|] eqn:E; [|done].
      intros [= <-]. destruct (IH _ _ E) as [[post ->] Hl].
      split; [by exists post|]. destruct m'; [done|]. done.
Qed.

Lemma match_array_spec s len m :
  match_array s = Some (len, m) → bracketed_part s m.
Proof.
  unfold match_array, bracketed_part. destruct s as [|c s]; [done|].
  destruct (is_char "[" c) eqn:Ec; [|done].
  apply PyStrFacts.is_char_true in Ec as ->.
  destruct (array_tail false s) as [m'|] eqn:E; [|done].
  intros [= <- <-]. destruct (array_tail_spec _ _ _ E) as [[post ->] Hl].
  split_and!; [by exists [], post|done|].
  destruct m'; [done|]. done.
Qed.

Lemma fenced_tail_spec s m n :
  fenced_tail s = Some (m, n) →
  (∃ post, s = m ++ post) ∧ last m = Some "]"%char.
Proof.
  revert m n. induction s as [|c s IH]; intros m n; [done|].
  simpl. destruct (is_char "]" c && _) eqn:Ec.
  - intros [= <- <-]. apply andb_true_iff in Ec as [Ec _].
    apply PyStrFacts.is_char_true in Ec as ->. split; [by exists s|done].
  - destruct (fenced_tail s) as [[m' n']|] eqn:E; [|done].
    intros [= <- <-]. destruct (IH _ _ eq_refl) as [[post ->] Hl].
    split; [by exists post|]. destruct m'; [done|]. done.
Qed.

Lemma match_fenced_spec fence s len m :
  match_fenced fence s = Some (len, m) → bracketed_part s m.
Proof.
  unfold match_fenced, bracketed_part.
  destruct (startswith fence s); [|done].
  pose proof (PyStrFacts.take_drop_while is_space (drop (length fence) s))
    as Hsplit.
  destruct (drop_while is_space (drop (length fence) s)) as [|c s'] eqn:Ed;
    [done|].
  destruct (is_char "[" c) eqn:Ec; [|done].
  apply PyStrFacts.is_char_true in Ec as ->.
  destruct (fenced_tail s') as [[m' n']|] eqn:E; [|done].
  intros [= <- <-]. destruct (fenced_tail_spec _ _ _ E) as [[post ->] Hl].
  split_and!; [|done|destruct m'; done].
  exists (take (length fence) s
          ++ take_while is_space (drop (length fence) s)), post.
  rewrite <- (take_drop (length fence) s) at 1.
  rewrite <- Hsplit at 1. by rewrite <- !app_assoc.
Qed.

Lemma findall_from_part matcher skip s m :
  (∀ s' len m', matcher s' = Some (len, m') → bracketed_part s' m') →
  m ∈ findall_from matcher skip s → bracketed_part s m.
Proof.
  intros Hm. revert skip. induction s as [|c s IH]; intros skip.
  { by intros ?%elem_of_nil. }
  assert (bracketed_part s m → bracketed_part (c :: s) m) as Hcons.
  { intros [(pre & post & ->) ?]. split; [|done]. by exists (c :: pre), post. }
  simpl. destruct skip as [|k]; [|by intros ?%IH%Hcons].
  destruct (matcher (c :: s)) as [[len m']|] eqn:E; [|by intros ?%IH%Hcons].
  intros [->|?%IH%Hcons]%elem_of_cons; [|done]. by eapply Hm.
Qed.

Lemma pattern_candidates_parts response_text c :
  c ∈ pattern_candidates response_text → bracketed_part response_text c.
Proof.
  unfold pattern_candidates. intros (m & -> & Hm)%list_elem_of_fmap.
  assert (bracketed_part response_text m) as Hp.
  { rewrite !elem_of_app in Hm. unfold findall in Hm.
    destruct Hm as [Hm|[Hm|Hm]];
      (eapply findall_from_part; [|exact Hm]);
      eauto using match_array_spec, match_fenced_spec. }
  destruct Hp as (? & ? & ?). by rewrite strip_bracketed.
Qed.

Lemma search_bracket_span_part s span :
  search_bracket_span s = Some span → bracketed_part s span.
Proof.
  unfold search_bracket_span, bracketed_part.
  set (open := λ c, negb (is_char "[" c)).
  set (close := λ c, negb (is_char "]" c)).
  pose proof (PyStrFacts.take_drop_while open s) as Hs.
  pose proof (PyStrFacts.take_drop_while close (reverse (drop_while open s)))
    as Hr.
  apply (f_equal reverse) in Hr.
  rewrite reverse_app, reverse_involutive in Hr.
  destruct (drop_while close (reverse (drop_while open s))) as [|c r] eqn:Ec.
  { by rewrite reverse_nil. }
  apply PyStrFacts.drop_while_head in Ec as Hc.
  apply negb_false_iff, PyStrFacts.is_char_true in Hc as ->.
  destruct (reverse ("]"%char :: r)) as [|a span'] eqn:Ea.
  { apply (f_equal length) in Ea. rewrite length_reverse in Ea. done. }
  intros [= <-]. split_and!.
  - exists (take_while open s),
      (reverse (take_while close (reverse (drop_while open s)))).
    by rewrite Hr, Hs.
  - destruct (drop_while open s) as [|b from] eqn:Eb.
    { apply (f_equal length) in Hr.
      rewrite length_app in Hr. simpl in Hr. lia. }
    apply PyStrFacts.drop_while_head in Eb as Hb.
    apply negb_false_iff, PyStrFacts.is_char_true in Hb as ->.
    simpl in Hr. by injection Hr as ->.
  - rewrite <- Ea, reverse_cons. by rewrite last_snoc.
Qed.

Section Extract.

Variable json_loads : text → outcome json.

Lemma try_matches_app ms1 ms2 :
  try_matches json_loads (ms1 ++ ms2)
  = match try_matches json_loads ms1 with
    | NotFound => try_matches json_loads ms2
    | r => r
    end.
Proof.
  induction ms1 as [|m ms1 IH]; simpl.
  - by destruct (try_matches json_loads ms2).
  - by destruct (try_match json_loads m).
Qed.

Lemma try_patterns_candidates response_text :
  try_patterns json_loads json_patterns response_text
  = try_matches json_loads
      (findall match_array response_text
       ++ findall (match_fenced (txt "```json")) response_text
       ++ findall (match_fenced (txt "```")) response_text).
Proof.
  rewrite !try_matches_app. simpl.
  repeat destruct (try_matches _ _); done.
Qed.

Lemma try_match_Found m data :
  try_match json_loads m = Found data ↔ decodes_to json_loads (strip m) data.
Proof.
  unfold try_match, decodes_to.
  destruct (json_loads (strip m)) as [[]| |];
    split; intros H; simplify_eq; done.
Qed.

Lemma try_match_NotFound m :
  try_match json_loads m = NotFound ↔ no_list json_loads (strip m).
Proof.
  unfold try_match, no_list.
  destruct (json_loads (strip m)) as [v| |]; [|by split; [left|]|].
  - split.
    + intros H. right. exists v. split; [done|].
      intros data ->. done.
    + intros [|(v' & [= <-] & Hv)]; [done|].
      destruct v; try done. by destruct (Hv items).
  - split; [done|]. by intros [|(v & ? & _)].
Qed.

Lemma try_match_Uncaught m e :
  try_match json_loads m = Uncaught e ↔ json_loads (strip m) = Raised e.
Proof.
  unfold try_match.
  destruct (json_loads (strip m)) as [[]| |];
    split; intros H; simplify_eq; done.
Qed.

(** The first attempt that does not come to nothing decides. *)
Lemma try_matches_first ms (i : nat) m :
  ms !! i = Some m →
  (∀ j m', j < i → ms !! j = Some m' → try_match json_loads m' = NotFound) →
  try_match json_loads m ≠ NotFound →
  try_matches json_loads ms = try_match json_loads m.
Proof.
  revert i. induction ms as [|m0 ms IH]; intros i; [done|].
  destruct i as [|i]; simpl.
  - intros [= <-] _ Hm. by destruct (try_match json_loads m0).
  - intros Hi Hbefore Hm.
    rewrite (Hbefore 0 m0) by (done || lia).
    apply (IH i); [done| |done].
    intros j m' Hj Hm'. apply (Hbefore (S j)); [lia|done].
Qed.


Lemma try_matches_Found ms data :
  try_matches json_loads ms = Found data →
  ∃ m, m ∈ ms ∧ try_match json_loads m = Found data.
Proof.
  induction ms as [|m ms IH]; [done|]. simpl.
  destruct (try_match json_loads m) eqn:E.
  - intros [= <-]. exists m. split; [by left|done].
  - intros (m' & Hm' & Hl)%IH. exists m'. split; [by right|done].
  - done.
Qed.

Lemma try_matches_Uncaught ms e :
  try_matches json_loads ms = Uncaught e →
  ∃ m, m ∈ ms ∧ try_match json_loads m = Uncaught e.
Proof.
  induction ms as [|m ms IH]; [done|]. simpl.
  destruct (try_match json_loads m) eqn:E.
  - done.
  - intros (m' & Hm' & Hl)%IH. exists m'. split; [by right|done].
  - intros [= <-]. exists m. split; [by left|done].
Qed.


(** X29: when the decoder raises nothing but [json.JSONDecodeError] on
    the strings of the pattern loop, the parser returns a list: the empty
    list when none of the strings tried decodes to a list, and otherwise
    what the decoder returned for the whole of one of them.  Each of
    these strings is a part of the response that opens and closes with a
    bracket, or the repair of such a part.  The part need not be the
    outermost array of the response: an array inside a text that does
    not decode is tried, and returned, like any other. *)
Lemma parser_returns_the_decoding_of_a_candidate response_text :
  (∀ c e, c ∈ pattern_candidates response_text → json_loads c ≠ Raised e) →
  ∃ result,
    extract_json_from_response json_loads response_text = ret result
    ∧ ((∀ c data, c ∈ pattern_candidates response_text
                      ++ fix_candidate response_text →
                  ¬ decodes_to json_loads c data) →
       result = [])
    ∧ (result = [] ∨
       ∃ c, c ∈ pattern_candidates response_text
                ++ fix_candidate response_text
            ∧ decodes_to json_loads c result)
    ∧ (∀ c, c ∈ pattern_candidates response_text →
            bracketed_part response_text c)
    ∧ (∀ c, c ∈ fix_candidate response_text →
            ∃ span, bracketed_part response_text span
                    ∧ c = fix_json_string span).
Proof.
  intros Hsafe.
  unfold extract_json_from_response, fix_candidate, try_fix, decodes_to.
  rewrite try_patterns_candidates.
  set (ms := _ ++ _ ++ _).
  assert (pattern_candidates response_text = strip <$> ms) as Hms by done.
  assert (∀ c, c ∈ fix_candidate response_text →
            ∃ span, bracketed_part response_text span
                    ∧ c = fix_json_string span) as Hfix.
  { unfold fix_candidate.
    destruct (search_bracket_span response_text) as [span|] eqn:E; simpl.
    - intros c [->|[]%elem_of_nil]%elem_of_cons. exists span.
      split; [|done]. by apply search_bracket_span_part.
    - by intros c ?%elem_of_nil. }
  unfold fix_candidate in Hfix.
  destruct (try_matches json_loads ms) as [data| |e] eqn:E.
  - exists data. split_and!; [done| | |apply pattern_candidates_parts|done].
    + intros Hnone. exfalso.
      apply try_matches_Found in E as (m & Hm & Hf).
      apply try_match_Found in Hf. eapply Hnone; [|exact Hf].
      apply elem_of_app. left. rewrite Hms. by apply list_elem_of_fmap_2.
    + right. apply try_matches_Found in E as (m & Hm & Hf).
      apply try_match_Found in Hf. exists (strip m). split; [|done].
      apply elem_of_app. left. rewrite Hms. by apply list_elem_of_fmap_2.
  - eexists. split_and!; [done| | |apply pattern_candidates_parts|done].
    + intros Hnone.
      destruct (search_bracket_span response_text) as [span|]; [|done].
      simpl. destruct (json_loads _) as [[]| |] eqn:E'; try done.
      exfalso. eapply Hnone; [|exact E'].
      apply elem_of_app. right. by left.
    + destruct (search_bracket_span response_text) as [span|]; [|by left].
      simpl. destruct (json_loads _) as [[]| |] eqn:E'; try by left.
      right. eexists. split; [|exact E'].
      apply elem_of_app. right. by left.
  - exfalso. apply try_matches_Uncaught in E as (m & Hm & Hf).
    apply try_match_Uncaught in Hf. eapply Hsafe; [|exact Hf].
    rewrite Hms. by apply list_elem_of_fmap_2.
Qed.

(** An exception of the decoder other than [json.JSONDecodeError] leaves
    the pattern loop: it is raised by the parser when no earlier string
    gave a list.  The repair pass catches it. *)
Lemma parser_raises_what_the_decoder_raises response_text (i : nat) c e :
  pattern_candidates response_text !! i = Some c →
  json_loads c = Raised e →
  (∀ j c', j < i → pattern_candidates response_text !! j = Some c' →
           no_list json_loads c') →
  extract_json_from_response json_loads response_text = raise e.
Proof.
  unfold extract_json_from_response, pattern_candidates.
  rewrite try_patterns_candidates. set (ms := _ ++ _ ++ _).
  rewrite list_lookup_fmap.
  destruct (ms !! i) as [m|] eqn:Hi; [|done]. intros [= <-] Hc Hbefore.
  rewrite (try_matches_first ms i m Hi).
  - apply try_match_Uncaught in Hc. by rewrite Hc.
  - intros j m' Hj Hm'. apply try_match_NotFound, (Hbefore j); [done|].
    by rewrite list_lookup_fmap, Hm'.
  - apply try_match_Uncaught in Hc. by rewrite Hc.
Qed.


End Extract.

Example fenced_block_parses :
  extract_json_from_response (loads 1000)
    (lit "noise ```json$[{'a':1}]$``` trailing")
  = ret [JObject [([97%N], JInt 1)]].
Proof. vm_compute. reflexivity. Qed.

Example no_brackets_gives_empty_list :
  extract_json_from_response (loads 1000) (lit "no bracket structure at all")
  = ret [].
Proof. vm_compute. reflexivity. Qed.

Example carriage_return_is_repaired :
  extract_json_from_response (loads 1000) (lit "[{'a': 'x^y'}]")
  = ret [JObject [([97%N], JString [120%N; 13%N; 121%N])]].
Proof. vm_compute. reflexivity. Qed.

(** The pattern of the repair has no [re.DOTALL]: a string value with a
    line feed in it is left as it is, and the response stays
    undecodable. *)
Example line_feed_is_not_repaired :
  fix_json_string (lit "[{'a': 'x$y'}]") = lit "[{'a': 'x$y'}]"
  ∧ extract_json_from_response (loads 1000) (lit "[{'a': 'x$y'}]") = ret [].
Proof. split; vm_compute; reflexivity. Qed.

(** An array nested in a truncated array is returned. *)
Example inner_array_of_truncated_response :
  extract_json_from_response (loads 1000) (lit "[{'t': ['x']}, {'u': 1")
  = ret [JString [120%N]].
Proof. vm_compute. reflexivity. Qed.

Example nested_objects_within_the_limit :
  deeply_nested 2 = lit "[{'a':{'a':1}}]"
  ∧ extract_json_from_response (loads 3) (deeply_nested 2)
    = ret [JObject [([97%N], JObject [([97%N], JInt 1)])]].
Proof. split; vm_compute; reflexivity. Qed.



Lemma array_tail_no_brackets s post :
  Forall no_bracket s →
  array_tail false (s ++ "]"%char :: post) = Some (s ++ ["]"%char]).
Proof.
  induction 1 as [|c s [Hopen Hclose] _ IH]; [done|].
  simpl. by rewrite Hclose, Hopen, IH.
Qed.

Lemma nested_objects_no_brackets n inside :
  Forall no_bracket inside → Forall no_bracket (nested_objects n inside).
Proof.
  revert inside. induction n as [|n IH]; intros inside Hin; [done|].
  simpl. repeat (constructor; [done|]).
  apply IH, Forall_app. split; [done|]. by repeat constructor.
Qed.

(** Tests of one known character against another, evaluated. *)
Ltac eval_chars :=
  repeat match goal with
  | |- context [is_char ?a ?c] =>
      let b := eval vm_compute in (is_char a c) in
      lazymatch b with
      | true => change (is_char a c) with true
      | false => change (is_char a c) with false
      end
  end;
  cbn [orb andb negb]; cbv iota.

Ltac skip_known_char :=
  unfold skip_ws; cbn [drop_while]; unfold is_json_space; eval_chars.

Lemma scan_once_object_raises fuel depth rest e :
  scan_once fuel depth ("{"%char :: rest) = Raised e →
  scan_once (S (S fuel)) (S depth) (lit "{'a':" ++ "{"%char :: rest)
  = Raised e.
Proof.
  intros H.
  change (lit "{'a':" ++ "{"%char :: rest)
    with ("{"%char :: "034"%char :: "a"%char :: "034"%char :: ":"%char
          :: "{"%char :: rest).
  cbn [scan_once]. unfold dquote, backslash. eval_chars.
  skip_known_char. eval_chars.
  cbn [scan_members]. unfold dquote, backslash. eval_chars.
  cbn [length scanstring]. unfold dquote, backslash. eval_chars.
  change (code "a" <? 32) with false. cbv iota.
  cbn [scanstring mbind option_bind]. unfold dquote. eval_chars.
  cbn [of_option outcome_bind].
  skip_known_char. eval_chars. skip_known_char.
  by rewrite H.
Qed.

Lemma length_nested_objects n inside :
  length (nested_objects n inside) = 6 * n + length inside.
Proof.
  revert inside. induction n as [|n IH]; intros inside; [done|].
  simpl. rewrite IH, length_app. simpl. lia.
Qed.

Lemma scan_once_nested_objects depth fuel inside tail :
  2 * depth < fuel →
  scan_once fuel depth (nested_objects (S depth) inside ++ tail)
  = Raised RecursionError.
Proof.
  revert fuel inside. induction depth as [|depth IH]; intros fuel inside Hfuel.
  - destruct fuel as [|fuel]; [lia|]. done.
  - destruct fuel as [|[|fuel]]; [lia|lia|].
    apply (scan_once_object_raises fuel depth
             (lit "'a':"
              ++ nested_objects depth ((inside ++ txt "}") ++ txt "}")
              ++ tail)).
    apply (IH fuel (inside ++ txt "}")). lia.
Qed.

Lemma scan_once_array_raises fuel depth rest e :
  scan_once fuel depth ("{"%char :: rest) = Raised e →
  scan_once (S (S fuel)) (S depth) ("["%char :: "{"%char :: rest) = Raised e.
Proof.
  intros H.
  cbn [scan_once]. unfold dquote, backslash. eval_chars.
  skip_known_char. eval_chars.
  cbn [scan_items]. by rewrite H.
Qed.

(** C4 fails on the code: objects nested deeper than the decoder's limit
    make the decoder raise [RecursionError]; the handler of the pattern
    loop catches [json.JSONDecodeError] only, and the parser raises
    instead of returning a list. *)
Lemma parser_raises_on_deep_nesting recursion_limit :
  extract_json_from_response (loads recursion_limit)
    (deeply_nested recursion_limit)
  = raise RecursionError.
Proof.
  set (response := deeply_nested recursion_limit).
  assert (Forall no_bracket (nested_objects recursion_limit (txt "1")))
    as Hnb.
  { apply nested_objects_no_brackets. by repeat constructor. }
  assert (findall match_array response !! 0 = Some response) as Hfirst.
  { unfold response, deeply_nested, findall.
    cbn [findall_from match_array app txt list_ascii_of_string].
    change (is_char "[" "[") with true. cbv iota.
    by rewrite array_tail_no_brackets. }
  assert (strip response = response) as Hstrip.
  { apply strip_bracketed; [done|].
    unfold response, deeply_nested. rewrite app_assoc. apply last_snoc. }
  apply (parser_raises_what_the_decoder_raises _ _ 0 response).
  - unfold pattern_candidates. rewrite fmap_app, lookup_app_l.
    + rewrite list_lookup_fmap, Hfirst. simpl. by rewrite Hstrip.
    + rewrite length_fmap. by apply lookup_lt_Some in Hfirst.
  - unfold loads, response, deeply_nested.
    set (fuel := 2 * _ + 2).
    assert (2 * recursion_limit + 2 < fuel) as Hfuel.
    { unfold fuel. rewrite !length_app, length_nested_objects. simpl. lia. }
    clearbody fuel.
    destruct recursion_limit as [|depth].
    { destruct fuel; [lia|]. done. }
    destruct fuel as [|[|fuel]]; [lia|lia|].
    change (skip_ws (txt "[" ++ ?s)) with (txt "[" ++ s).
    change (txt "[" ++ nested_objects (S depth) (txt "1") ++ txt "]")
      with ("["%char :: "{"%char
            :: lit "'a':" ++ nested_objects depth (txt "1" ++ txt "}")
               ++ txt "]").
    rewrite (scan_once_array_raises fuel depth _ RecursionError); [done|].
    apply (scan_once_nested_objects depth fuel (txt "1") (txt "]")). lia.
  - intros j c' Hj. lia.
Qed.

End ParserFacts.
(** ** Processing one book *)

Module BookFacts.
Import Json Parser Book.

Example image_references :
  findall match_image
    (lit "a ![Figure](figures/p_figure_001.png) b ![x](figures/b.jpg) ![y](figures/c.png)")
  = [txt "p_figure_001.png"; txt "c.png"].
Proof. vm_compute. reflexivity. Qed.

Lemma foldl_add_shift {A} (f : A → nat) (l : list A) (a : nat) :
  foldl (λ total x, total + f x) a l = a + foldl (λ total x, total + f x) 0 l.
Proof.
  revert a. induction l as [|x l IH]; intros a; simpl; [lia|].
  rewrite (IH (a + f x)), (IH (f x)). lia.
Qed.

Lemma count_images_cons p pages :
  count_images (p :: pages)
  = length (available_images p) + count_images pages.
Proof. unfold count_images. simpl. apply foldl_add_shift. Qed.

Lemma count_images_zero pages :
  count_images pages = 0 ↔ ∀ p, p ∈ pages → available_images p = [].
Proof.
  induction pages as [|p pages IH].
  - split; [by intros _ p ?%elem_of_nil|done].
  - rewrite count_images_cons. split.
    + intros H q [->|Hq]%elem_of_cons.
      * apply length_zero_iff_nil. lia.
      * apply IH; [lia|done].
    + intros H. rewrite (H p) by (by left). simpl.
      apply IH. intros q Hq. apply H. by right.
Qed.

Lemma count_images_pos pages :
  count_images pages ≠ 0 → ∃ p, p ∈ pages ∧ available_images p ≠ [].
Proof.
  induction pages as [|p pages IH]; [done|].
  rewrite count_images_cons. intros H.
  destruct (available_images p) as [|img imgs] eqn:E.
  - destruct IH as (q & Hq & Hne); [simpl in H; lia|].
    exists q. split; [by right|done].
  - exists p. split; [by left|]. by rewrite E.
Qed.

Lemma add_new_files_nil image_files files :
  add_new_files image_files files = [] ↔ image_files = [] ∧ files = [].
Proof.
  unfold add_new_files. revert image_files.
  induction files as [|f files IH]; intros image_files; simpl.
  - split; [done|by intros [-> _]].
  - rewrite IH. case_bool_decide as Hf.
    + split; [|by intros [_ ?]]. intros [-> _]. by apply elem_of_nil in Hf.
    + split; [|by intros [_ ?]]. intros [H _]. by destruct image_files.
Qed.

Lemma find_image_files_nil fs page_filename content :
  find_image_files fs page_filename content = [] ↔
  findall match_image content = []
  ∧ figure_files fs (get_page_prefix page_filename) = [].
Proof.
  unfold find_image_files. rewrite <- add_new_files_nil. split.
  - intros H. apply Permutation_nil_r. rewrite <- H.
    symmetry. apply PyStrFacts.stable_sort_perm.
  - by intros ->.
Qed.

Lemma load_book_content_pages fs md_files p :
  p ∈ load_book_content fs md_files →
  available_images p = find_image_files fs (md_file p) (content p).
Proof.
  unfold load_book_content. intros (f & Hf & Hp)%list_elem_of_omap.
  unfold load_page_content in Hp.
  destruct (read_text fs f) as [c|]; [|done]. simpl in Hp. by injection Hp as <-.
Qed.

Section Oracle.

Variable oracle : text → list page_info → option text.
Variable json_loads : text → outcome json.

(** C10, as amended: when at least one page of the book is loaded and
    no loaded page has an image reference (no image tag in its text, no
    figure file for its prefix), [process_book] returns the record with
    an empty list of associations and zero images, and sends no request
    to the oracle.  When no page of the book can be loaded it returns
    the error record, which has no list of associations and no count of
    images, and sends no request either.  A request is sent only when
    some loaded page has an image reference. *)
Theorem zero_images_no_oracle_call fs book_id md_files :
  let pages := load_book_content fs md_files in
  let outcome := process_book oracle json_loads fs book_id md_files in
  (pages ≠ [] →
   (∀ p, p ∈ pages →
      findall match_image (content p) = []
      ∧ figure_files fs (get_page_prefix (md_file p)) = []) →
   outcome = (NoImages book_id (length pages), [])
   ∧ result_associations outcome.1 = Some []
   ∧ result_total_images outcome.1 = Some 0)
  ∧ (outcome.2 ≠ [] → ∃ p, p ∈ pages ∧ available_images p ≠ [])
  ∧ (pages = [] →
     outcome = (NoPages book_id, [])
     ∧ result_associations outcome.1 = None
     ∧ result_total_images outcome.1 = None).
Proof.
  intros pages outcome. subst outcome. unfold process_book. fold pages.
  assert (∀ p, p ∈ pages →
            available_images p = find_image_files fs (md_file p) (content p))
    as Himgs by apply load_book_content_pages.
  split_and!.
  - intros Hne Hnone.
    assert (count_images pages = 0) as Hzero.
    { apply count_images_zero. intros p Hp.
      rewrite (Himgs p Hp). apply find_image_files_nil. by apply Hnone. }
    destruct pages as [|p ps]; [done|]. by rewrite Hzero.
  - destruct pages as [|p ps] eqn:E; [done|].
    destruct (count_images (p :: ps) =? 0) eqn:Hc; [done|].
    intros _. apply Nat.eqb_neq in Hc. by apply count_images_pos.
  - by intros ->.
Qed.

End Oracle.

Lemma zero_images_no_oracle_call_witness :
  process_book (λ _ _, None) (loads 1000) one_plain_page (txt "b")
    [txt "b_0001.md"]
  = (NoImages (txt "b") 1, []).
Proof.
  destruct (zero_images_no_oracle_call (λ _ _, None) (loads 1000)
              one_plain_page (txt "b") [txt "b_0001.md"]) as [H _].
  apply H.
  - vm_compute. discriminate.
  - intros p Hp. vm_compute in Hp.
    apply list_elem_of_singleton in Hp as ->. split; reflexivity.
Defined.

(** C10 as stated fails: the one file of the book cannot be read, so
    no page is loaded and the loaded pages hold no image reference; the
    result is the error record, without a list of associations and
    without a count of images. *)
Lemma unreadable_book_has_no_associations_list :
  let outcome :=
    process_book (λ _ _, None) (loads 1000) one_plain_page (txt "b")
      [txt "b_0002.md"] in
  load_book_content one_plain_page [txt "b_0002.md"] = []
  ∧ (∀ p, p ∈ load_book_content one_plain_page [txt "b_0002.md"] →
          findall match_image (content p) = []
          ∧ figure_files one_plain_page (get_page_prefix (md_file p)) = [])
  ∧ outcome = (NoPages (txt "b"), [])
  ∧ result_associations outcome.1 ≠ Some []
  ∧ result_total_images outcome.1 ≠ Some 0.
Proof.
  split_and!; [reflexivity| |reflexivity|discriminate|discriminate].
  intros p Hp. vm_compute in Hp. by apply elem_of_nil in Hp.
Qed.

End BookFacts.
(** ** Reconciliation *)

Module MergeFacts.
Import Merge.
Open Scope string_scope.

Lemma lookup_set_cell col v (r : gmap string string) c :
  set_cell col v r !! c = if bool_decide (c = col) then v else r !! c.
Proof.
  unfold set_cell. case_bool_decide as E.
  - subst. by rewrite lookup_partial_alter_eq.
  - by rewrite lookup_partial_alter_ne.
Qed.

Lemma lookup_update_row fc mc f (r : gmap string string) c :
  update_row fc mc f r !! c
  = if bool_decide (c ∈ fc ∧ c ∈ mc) then f !! c else r !! c.
Proof.
  unfold update_row. revert r.
  induction fc as [|col fc IH]; intros r; cbn [foldl].
  - rewrite bool_decide_eq_false_2; [done|]. by intros [?%elem_of_nil _].
  - rewrite IH. case_bool_decide as E1.
    + rewrite bool_decide_eq_true_2; [done|].
      destruct E1. split; [by right|done].
    + case_bool_decide as E2.
      * rewrite lookup_set_cell. case_bool_decide as E3.
        -- subst. rewrite bool_decide_eq_true_2; [done|]. split; [by left|done].
        -- rewrite bool_decide_eq_false_2; [done|].
           intros [[?|?]%elem_of_cons ?]; [done|]. by apply E1.
      * rewrite bool_decide_eq_false_2; [done|].
        intros [[->|?]%elem_of_cons ?]; [done|]. by apply E1.
Qed.

Lemma same_true a b : same a b = true → a = b.
Proof.
  destruct a, b; simpl; try done. by intros ->%bool_decide_eq_true.
Qed.

Lemma update_step_key fc mc r f :
  row_key (update_step fc mc r f) = row_key r.
Proof.
  unfold update_step. destruct (key_matches f r) eqn:E; [|done].
  apply andb_true_iff in E as [E1%same_true E2%same_true].
  unfold row_key. rewrite !lookup_update_row.
  repeat case_bool_decide; congruence.
Qed.

Lemma key_matches_row_key f r r' :
  row_key r = row_key r' → key_matches f r = key_matches f r'.
Proof. unfold row_key, key_matches. by intros [= -> ->]. Qed.

Lemma existsb_id_false (mask : list bool) :
  existsb id mask = false → ∀ m, m ∈ mask → m = false.
Proof.
  induction mask as [|b mask IH]; simpl; [by intros _ m ?%elem_of_nil|].
  intros [-> H]%orb_false_iff m [->|?]%elem_of_cons; auto.
Qed.

Lemma lookup_update_from fc mc (df : list (gmap string string)) f (i : nat) :
  update_from fc mc df f !! i = (λ r, update_step fc mc r f) <$> df !! i.
Proof.
  unfold update_from, update_step.
  destruct (existsb id (key_matches f <$> df)) eqn:E.
  - rewrite lookup_zip_with, list_lookup_fmap.
    by destruct (df !! i).
  - destruct (df !! i) as [r|] eqn:Hi; [|done]. simpl.
    rewrite (existsb_id_false _ E (key_matches f r)); [done|].
    apply list_elem_of_fmap_2. by eapply list_elem_of_lookup_2.
Qed.

Lemma lookup_update_all fc mc fs (df : list (gmap string string)) (i : nat) :
  foldl (update_from fc mc) df fs !! i
  = (λ r, foldl (update_step fc mc) r fs) <$> df !! i.
Proof.
  revert df. induction fs as [|f fs IH]; intros df; simpl.
  - by destruct (df !! i).
  - rewrite IH, lookup_update_from. by destruct (df !! i).
Qed.

Lemma length_update_all fc mc fs (df : list (gmap string string)) :
  length (foldl (update_from fc mc) df fs) = length df.
Proof.
  revert df. induction fs as [|f fs IH]; intros df; [done|].
  simpl. rewrite IH. unfold update_from.
  destruct (existsb _ _); [|done].
  rewrite length_zip_with, length_fmap. lia.
Qed.

Lemma update_steps_key fc mc fs r :
  row_key (foldl (update_step fc mc) r fs) = row_key r.
Proof.
  revert r. induction fs as [|f fs IH]; intros r; [done|].
  simpl. by rewrite IH, update_step_key.
Qed.

Lemma update_steps_unshared fc mc fs r c :
  ¬ (c ∈ fc ∧ c ∈ mc) → foldl (update_step fc mc) r fs !! c = r !! c.
Proof.
  intros Hc. revert r. induction fs as [|f fs IH]; intros r; [done|].
  simpl. rewrite IH. unfold update_step.
  destruct (key_matches f r); [|done].
  by rewrite lookup_update_row, bool_decide_eq_false_2.
Qed.

Lemma update_steps_no_match fc mc fs r :
  (∀ f, f ∈ fs → key_matches f r = false) →
  foldl (update_step fc mc) r fs = r.
Proof.
  revert r. induction fs as [|f fs IH]; intros r Hno; [done|].
  simpl. unfold update_step at 2. rewrite (Hno f) by (by left).
  apply IH. intros f' Hf'. apply Hno. by right.
Qed.

Lemma update_steps_last_match fc mc fs r (k : nat) f c :
  fs !! k = Some f →
  key_matches f r = true →
  (∀ j f', k < j → fs !! j = Some f' → key_matches f' r = false) →
  foldl (update_step fc mc) r fs !! c
  = if bool_decide (c ∈ fc ∧ c ∈ mc) then f !! c else r !! c.
Proof.
  intros Hk Hf Hlater.
  rewrite <- (take_drop_middle fs k f Hk), foldl_app. simpl.
  set (r1 := foldl (update_step fc mc) r (take k fs)).
  assert (row_key r1 = row_key r) as Hkey by apply update_steps_key.
  assert (update_step fc mc r1 f = update_row fc mc f r1) as ->.
  { unfold update_step. by rewrite (key_matches_row_key f r1 r Hkey), Hf. }
  rewrite update_steps_no_match.
  - rewrite lookup_update_row. case_bool_decide as Hc; [done|].
    by apply update_steps_unshared.
  - intros f' (j & Hj)%list_elem_of_lookup_1.
    rewrite lookup_drop in Hj.
    rewrite (key_matches_row_key f' _ r).
    + apply (Hlater (S k + j)); [lia|done].
    + fold (update_step fc mc r1 f) in *.
      assert (update_row fc mc f r1 = update_step fc mc r1 f) as ->.
      { unfold update_step. by rewrite (key_matches_row_key f r1 r Hkey), Hf. }
      by rewrite update_step_key.
Qed.

Lemma update_main_rows df_main df_failed df_merged :
  update_main df_main df_failed = ret df_merged →
  columns df_merged = columns df_main
  ∧ rows df_merged
    = foldl (update_from (columns df_failed) (columns df_main))
            (rows df_main) (rows df_failed).
Proof.
  unfold update_main. destruct (rows df_failed) as [|f fs] eqn:E.
  - by intros [= <-].
  - unfold require. repeat case_bool_decide; simpl; try done.
    by intros [= <-].
Qed.

(** C1, as amended: the retry pass changes no column list and no row
    count.  A base row that no retry row matches on (name, book id) is
    kept as it is.  A base row that retry rows match takes, in every
    column that both frames have, the value of the last matching retry
    row, whether that value is there or missing; its other columns are
    kept. *)
Theorem retry_value_replaces_base_value
    df_main df_failed df_merged (i : nat) r :
  update_main df_main df_failed = ret df_merged →
  rows df_main !! i = Some r →
  columns df_merged = columns df_main
  ∧ length (rows df_merged) = length (rows df_main)
  ∧ ∃ r', rows df_merged !! i = Some r'
    ∧ ((∀ f, f ∈ rows df_failed → key_matches f r = false) → r' = r)
    ∧ (∀ (k : nat) f,
         rows df_failed !! k = Some f →
         key_matches f r = true →
         (∀ j f', k < j → rows df_failed !! j = Some f' →
                  key_matches f' r = false) →
         ∀ col,
           r' !! col
           = if bool_decide (col ∈ columns df_failed ∧ col ∈ columns df_main)
             then f !! col else r !! col).
Proof.
  intros [Hcols Hrows]%update_main_rows Hi. split_and!; [done| |].
  - rewrite Hrows. apply length_update_all.
  - eexists. split_and!.
    + by rewrite Hrows, lookup_update_all, Hi.
    + apply update_steps_no_match.
    + intros k f Hk Hf Hlater col. by eapply update_steps_last_match.
Qed.

Lemma retry_value_replaces_base_value_witness :
  ∃ df_merged,
    update_main
      (Frame base_columns [row_of (Some "X") (Some "B1") (Some "c") None])
      (Frame base_columns [row_of (Some "X") (Some "B1") (Some "c") (Some "Y")])
    = ret df_merged
    ∧ (rows df_merged !! 0) ≫= (.!! "biography_json") = Some "Y".
Proof.
  eexists. split; [reflexivity|].
  destruct (retry_value_replaces_base_value
    (Frame base_columns [row_of (Some "X") (Some "B1") (Some "c") None])
    (Frame base_columns [row_of (Some "X") (Some "B1") (Some "c") (Some "Y")])
    _ 0 _ eq_refl eq_refl) as (_ & _ & r' & Hr' & _ & Hlast).
  rewrite Hr'. simpl.
  rewrite (Hlast 0 _ eq_refl eq_refl); [reflexivity|].
  intros [|j] f' Hj; [lia|]. simpl. by rewrite lookup_nil.
Defined.

(** C1 as stated fails: a base row with the field Y and a retry row with
    the same key and the field missing give a merged row with the field
    missing. *)
Lemma missing_retry_value_erases_base_value :
  let df_main :=
    Frame base_columns [row_of (Some "X") (Some "B1") (Some "c") (Some "Y")] in
  let df_failed :=
    Frame base_columns [row_of (Some "X") (Some "B1") (Some "c") None] in
  (rows df_main !! 0) ≫= (.!! "biography_json") = Some "Y"
  ∧ (rows df_failed !! 0) ≫= (.!! "biography_json") = None
  ∧ ∃ df_merged,
      update_main df_main df_failed = ret df_merged
      ∧ (rows df_merged !! 0) ≫= (.!! "biography_json") = None.
Proof.
  split_and!; [vm_compute; reflexivity..|].
  eexists. split; [reflexivity|]. vm_compute. reflexivity.
Qed.

(** *** The portrait tables *)

Lemma filter_key_NoDup (right : list portrait) k :
  NoDup (key_of <$> right) →
  (length (filter (λ p, key_of p = k) right) ≤ 1)%nat.
Proof.
  induction right as [|p right IH]; [simpl; lia|].
  rewrite fmap_cons, NoDup_cons. intros [Hp Hnd].
  rewrite filter_cons. case_decide as E; [|by apply IH].
  assert (filter (λ p, key_of p = k) right = []) as ->; [|simpl; lia].
  destruct (filter _ right) as [|q qs] eqn:Eq; [done|]. exfalso.
  assert (q ∈ filter (λ p, key_of p = k) right) as Hq.
  { rewrite Eq. by left. }
  apply list_elem_of_filter in Hq as [Hk Hq].
  apply Hp. rewrite E, <- Hk. by apply list_elem_of_fmap_2.
Qed.

Lemma key_of_combine_first m :
  key_of (combine_first m) = (m_name m, m_book_id m).
Proof. done. Qed.

(** When no key occurs twice in either portrait table, none occurs
    twice in the merged table. *)
Lemma merged_portraits_unique_keys single next_page :
  NoDup (key_of <$> single) →
  NoDup (key_of <$> notnull next_page) →
  NoDup (key_of <$> merged_portraits single next_page).
Proof.
  intros Hs Hn. unfold merged_portraits, outer_merge.
  set (next := notnull next_page) in *.
  rewrite <- list_fmap_compose.
  rewrite (PyStrFacts.stable_sort_perm by_key).
  rewrite fmap_app. apply NoDup_app. split_and!.
  - assert (∀ l : list portrait,
      (key_of ∘ combine_first) <$>
        (l ≫= λ p,
           match filter (λ q, key_of q = key_of p) next with
           | [] =>
               [MergedPortrait (p_name p) (p_book_id p) (image_filename p)
                  None]
           | qs =>
               (λ q, MergedPortrait (p_name p) (p_book_id p)
                       (image_filename p) (image_filename q)) <$> qs
           end)
      = key_of <$> l) as ->; [|done].
    induction l as [|p l IH]; [done|].
    rewrite bind_cons, fmap_app, IH, fmap_cons. f_equal.
    pose proof (filter_key_NoDup next (key_of p) Hn) as Hlen.
    destruct (filter (λ q, key_of q = key_of p) next) as [|q [|q' qs]];
      [done|done|simpl in Hlen; lia].
  - intros k Hk Hk'.
    apply list_elem_of_fmap in Hk' as (m & -> & Hm).
    apply list_elem_of_fmap in Hm as (q & -> & Hq).
    apply list_elem_of_filter in Hq as [Hq _]. apply Hq. clear Hq.
    revert Hk. generalize single. intros l.
    induction l as [|p l IH]; [by intros ?%elem_of_nil|].
    rewrite bind_cons, fmap_app, elem_of_app, fmap_cons.
    intros [Hk|Hk]; apply elem_of_cons; [left|right; by apply IH].
    destruct (filter (λ q, key_of q = key_of p) next) as [|q0 qs].
    + by apply list_elem_of_singleton in Hk.
    + apply list_elem_of_fmap in Hk as (m & Hk & Hm).
      by apply list_elem_of_fmap in Hm as (q1 & -> & _).
  - rewrite <- list_fmap_compose.
    rewrite (list_fmap_ext (key_of ∘ combine_first ∘ _) key_of
               (filter (λ q, key_of q ∉ key_of <$> single) next));
      [|by intros ? []].
    apply (sublist_NoDup _ (key_of <$> next)); [done|].
    apply fmap_sublist, sublist_filter.
Qed.

(** *** The script as a whole *)

(** Line 50 stops the script: it returns no frame, whatever it reads. *)
Lemma script_returns_nothing df_main df_failed single next_page final :
  script df_main df_failed single next_page ≠ ret final.
Proof.
  unfold script. by destruct (update_main df_main df_failed).
Qed.

(** C8: the script never builds [df_final].  On every input it raises:
    the [KeyError] of the retry pass when that pass raises, and otherwise
    the [AttributeError] of line 50, where [reset_index] is called on the
    [None] that [drop(..., inplace=True)] returns.  With a retry frame
    without rows the retry pass cannot raise, so the [AttributeError] is
    what every such run ends with.  No final frame is returned, so no
    row count of a final frame equals the row count of the base frame. *)
Theorem script_stops_before_the_final_merge
    df_main df_failed single next_page :
  (∀ final, script df_main df_failed single next_page ≠ ret final)
  ∧ (∀ e, update_main df_main df_failed = raise e →
          script df_main df_failed single next_page = raise e)
  ∧ (∀ df_merged, update_main df_main df_failed = ret df_merged →
       script df_main df_failed single next_page
       = raise (AttributeError
                  "'NoneType' object has no attribute 'reset_index'"))
  ∧ (rows df_failed = [] →
     script df_main df_failed single next_page
     = raise (AttributeError
                "'NoneType' object has no attribute 'reset_index'")).
Proof.
  split_and!.
  - apply script_returns_nothing.
  - intros e He. unfold script. by rewrite He.
  - intros df_merged Hu. unfold script. by rewrite Hu.
  - intros Hrows. unfold script, update_main. by rewrite Hrows.
Qed.

Example script_on_one_base_row :
  script
    (Frame base_columns [row_of (Some "X") (Some "B1") (Some "c") (Some "b")])
    (Frame base_columns [])
    [Portrait (Some "X") (Some "B1") (Some "a.png")]
    []
  = raise (AttributeError "'NoneType' object has no attribute 'reset_index'").
Proof. reflexivity. Qed.

End MergeFacts.

(** ** Sorting and the order of strings *)

Module OrderFacts.
Import stdpp.sorting.

Section InsertionSort.

Context {A : Type} (le : A → A → bool).

Hypothesis le_total : ∀ x y, le x y = false → le y x = true.
Hypothesis le_trans : ∀ x y z, le x y = true → le y z = true → le x z = true.

Lemma insert_sorted_sorted x l :
  StronglySorted (λ a b, le a b = true) l →
  StronglySorted (λ a b, le a b = true) (insert_sorted le x l).
Proof using Type*.
  induction 1 as [|y l Hl IH Hy]; simpl; [by repeat constructor|].
  destruct (le x y) eqn:E.
  - constructor; [by constructor|]. constructor; [done|].
    eapply Forall_impl; [exact Hy|]. intros z Hz. by eapply le_trans.
  - constructor; [done|].
    rewrite PyStrFacts.insert_sorted_perm. constructor; [|done].
    by apply le_total.
Qed.

Lemma stable_sort_sorted l :
  StronglySorted (λ a b, le a b = true) (stable_sort le l).
Proof using Type*.
  induction l as [|x l IH]; simpl; [constructor|].
  by apply insert_sorted_sorted.
Qed.

End InsertionSort.

(** Rows that the order does not tell apart keep their places. *)
Section Stable.

Context {A K : Type} `{EqDecision K} (le : A → A → bool) (key : A → K).

Hypothesis le_key : ∀ x y, le x y = false → key x ≠ key y.

Lemma filter_insert_sorted k x l :
  filter (λ a, key a = k) (insert_sorted le x l)
  = filter (λ a, key a = k) (x :: l).
Proof using Type*.
  induction l as [|y l IH]; simpl; [done|].
  destruct (le x y) eqn:E; [done|].
  rewrite filter_cons, IH, !filter_cons.
  apply le_key in E. repeat case_decide; congruence.
Qed.

Lemma filter_stable_sort k l :
  filter (λ a, key a = k) (stable_sort le l) = filter (λ a, key a = k) l.
Proof using Type*.
  induction l as [|x l IH]; simpl; [done|].
  fold (stable_sort le l). by rewrite filter_insert_sorted, !filter_cons, IH.
Qed.

End Stable.

Lemma StronglySorted_lookup {A} (R : A → A → Prop) l (i j : nat) x y :
  StronglySorted R l → i < j → l !! i = Some x → l !! j = Some y → R x y.
Proof.
  intros Hl. revert i j. induction Hl as [|a l Hl IH Ha]; intros i j Hij;
    [done|].
  destruct j as [|j]; [lia|]. destruct i as [|i]; simpl.
  - intros [= <-] Hy. rewrite Forall_forall in Ha. apply Ha.
    by eapply list_elem_of_lookup_2.
  - apply IH. lia.
Qed.

Lemma StronglySorted_sublist_of {A} (R : A → A → Prop) l1 l2 :
  l1 `sublist_of` l2 → StronglySorted R l2 → StronglySorted R l1.
Proof.
  induction 1 as [|x l1 l2 Hs IH|x l1 l2 Hs IH]; [done| |].
  - intros [Hx Hl]%StronglySorted_cons. constructor; [by apply IH|].
    rewrite Forall_forall in Hx |- *. intros y Hy.
    apply Hx. by eapply elem_of_sublist.
  - intros [_ Hl]%StronglySorted_cons. by apply IH.
Qed.

(** The order of strings. *)
Lemma code_inj a b : code a = code b → a = b.
Proof.
  unfold code. intros H.
  by rewrite <- (ascii_nat_embedding a), <- (ascii_nat_embedding b), H.
Qed.

Lemma text_compare_Eq a b : text_compare a b = Eq ↔ a = b.
Proof.
  revert b. induction a as [|x a IH]; intros [|y b]; simpl; try done.
  destruct (Nat.compare_spec (code x) (code y)) as [E|E|E].
  - apply code_inj in E as ->. rewrite IH. split; congruence.
  - split; [done|]. intros [= -> _]. lia.
  - split; [done|]. intros [= -> _]. lia.
Qed.

Lemma text_compare_antisym a b :
  text_compare b a = CompOpp (text_compare a b).
Proof.
  revert b. induction a as [|x a IH]; intros [|y b]; simpl; try done.
  rewrite (Nat.compare_antisym (code x) (code y)).
  destruct (code x ?= code y); simpl; [apply IH|done|done].
Qed.

Lemma text_compare_Lt_trans a b c :
  text_compare a b = Lt → text_compare b c = Lt → text_compare a c = Lt.
Proof.
  revert b c. induction a as [|x a IH]; intros [|y b] [|z c]; simpl; try done.
  destruct (Nat.compare_spec (code x) (code y)) as [E|E|E]; [| |done];
    destruct (Nat.compare_spec (code y) (code z)) as [E'|E'|E']; try done;
    intros H1 H2.
  - rewrite E, E', Nat.compare_refl. by eapply IH.
  - rewrite E. by apply Nat.compare_lt_iff in E' as ->.
  - rewrite <- E'. by apply Nat.compare_lt_iff in E as ->.
  - assert (code x < code z) as Hlt by lia.
    by apply Nat.compare_lt_iff in Hlt as ->.
Qed.

Lemma text_le_total a b : Book.text_le a b = false → Book.text_le b a = true.
Proof.
  unfold Book.text_le. rewrite (text_compare_antisym a b).
  by destruct (text_compare a b).
Qed.

Lemma text_le_trans a b c :
  Book.text_le a b = true → Book.text_le b c = true → Book.text_le a c = true.
Proof.
  unfold Book.text_le.
  destruct (text_compare a b) eqn:E1; [|
    destruct (text_compare b c) eqn:E2|done].
  - apply text_compare_Eq in E1 as ->. done.
  - apply text_compare_Eq in E2 as <-. by rewrite E1.
  - by rewrite (text_compare_Lt_trans a b c).
  - done.
Qed.

End OrderFacts.

(** ** The name frames and the chunks *)

Module SegmenterMore.
Import Segmenter.

Section Dedup.

Context {A : Type} (name : A → text).

Lemma ne_false cur prev : ne cur prev = false → prev = Some cur.
Proof.
  destruct prev as [p|]; [|done]. simpl.
  case_bool_decide; [by intros; subst|done].
Qed.

Lemma kept_from_sublist prev (df : list A) :
  kept_from name prev df `sublist_of` df.
Proof.
  revert prev. induction df as [|r df IH]; intros prev; simpl; [done|].
  destruct (ne (name r) prev); [by apply sublist_skip|by apply sublist_cons].
Qed.

Lemma kept_from_head prev (df : list A) r :
  head (kept_from name prev df) = Some r → ne (name r) prev = true.
Proof.
  revert prev. induction df as [|r0 df IH]; intros prev; simpl; [done|].
  destruct (ne (name r0) prev) eqn:E.
  - by intros [= <-].
  - apply ne_false in E as ->. apply IH.
Qed.

Lemma kept_from_adjacent prev (df : list A) (i : nat) r r' :
  kept_from name prev df !! i = Some r →
  kept_from name prev df !! S i = Some r' →
  name r ≠ name r'.
Proof.
  revert prev i. induction df as [|r0 df IH]; intros prev i; simpl; [done|].
  destruct (ne (name r0) prev); [|apply IH].
  destruct i as [|i]; simpl; [|apply IH].
  intros [= <-] Hr'.
  assert (head (kept_from name (Some (name r0)) df) = Some r') as Hh.
  { by destruct (kept_from _ _ df). }
  apply kept_from_head in Hh. simpl in Hh.
  case_bool_decide; [done|congruence].
Qed.

Lemma kept_from_idempotent prev (df : list A) :
  kept_from name prev (kept_from name prev df) = kept_from name prev df.
Proof.
  revert prev. induction df as [|r0 df IH]; intros prev; simpl; [done|].
  destruct (ne (name r0) prev) eqn:E.
  - simpl. by rewrite E, IH.
  - apply ne_false in E as ->. apply IH.
Qed.

Lemma kept_from_names prev (df : list A) r :
  r ∈ df →
  (∃ r', r' ∈ kept_from name prev df ∧ name r' = name r)
  ∨ prev = Some (name r).
Proof.
  revert prev. induction df as [|r0 df IH]; intros prev Hr;
    [by apply elem_of_nil in Hr|].
  assert ((∃ r', r' ∈ kept_from name prev (r0 :: df) ∧ name r' = name r0)
          ∨ prev = Some (name r0)) as Hfirst.
  { simpl. destruct (ne (name r0) prev) eqn:E.
    - left. exists r0. split; [by left|done].
    - right. by apply ne_false. }
  apply elem_of_cons in Hr as [->|Hr]; [done|].
  destruct (IH (Some (name r0)) Hr) as [(r' & Hr' & Hn)|[= Hn]].
  - left. exists r'. split; [|done]. simpl.
    destruct (ne (name r0) prev); [by right|done].
  - by rewrite <- Hn.
Qed.

End Dedup.

(** X1: the duplicate filter of [extract_names_to_dataframe] only removes
    rows: the rows kept stand in their input order, the first row is
    always kept, no two neighbouring rows kept have one name, every name
    of the input is still there, and filtering a second time changes
    nothing. *)
Theorem dedup_keeps_order_and_names {A} (name : A → text) (df : list A) :
  let kept := drop_shift_duplicates name df in
  kept `sublist_of` df
  ∧ head kept = head df
  ∧ (∀ (i : nat) r r',
       kept !! i = Some r → kept !! S i = Some r' → name r ≠ name r')
  ∧ (∀ r, r ∈ df → ∃ r', r' ∈ kept ∧ name r' = name r)
  ∧ drop_shift_duplicates name kept = kept.
Proof.
  intros kept. subst kept.
  rewrite !SegmenterFacts.drop_shift_duplicates_kept. split_and!.
  - apply kept_from_sublist.
  - by destruct df.
  - apply kept_from_adjacent.
  - intros r Hr. by destruct (kept_from_names name None df r Hr).
  - apply kept_from_idempotent.
Qed.

End SegmenterMore.

Module SegmenterOrder.
Import Segmenter stdpp.sorting.

Lemma collect_rows_nil books :
  collect_rows books = [] ↔ ∀ b, b ∈ books → b.2 = [].
Proof.
  unfold collect_rows. induction books as [|[bid entries] books IH].
  - split; [by intros _ b ?%elem_of_nil|done].
  - rewrite bind_cons. split.
    + intros [He Hb]%app_eq_nil b [->|Hin]%elem_of_cons.
      * simpl. by apply fmap_nil_inv in He.
      * by apply IH.
    + intros H. rewrite (proj2 IH) by (intros b Hb; apply H; by right).
      specialize (H (bid, entries)). simpl in H. rewrite H by (by left). done.
Qed.

Lemma collect_portrait_rows_nil files :
  collect_portrait_rows files = [] ↔
  ∀ f a, f ∈ files → a ∈ f.2 →
    associated_person a = None ∨ associated_person a = Some [].
Proof.
  unfold collect_portrait_rows. induction files as [|[bid assocs] files IH].
  - split; [by intros _ f a ?%elem_of_nil|done].
  - rewrite bind_cons, app_nil, IH. clear IH. split.
    + intros [Ha Hf] f a [->|Hin]%elem_of_cons Hin'; [|by eapply Hf].
      simpl in Hin'. clear Hf. induction assocs as [|a0 assocs IH];
        [by apply elem_of_nil in Hin'|].
      rewrite bind_cons in Ha. apply app_eq_nil in Ha as [Ha0 Ha].
      apply elem_of_cons in Hin' as [->|Hin']; [|by apply IH].
      destruct (associated_person a0) as [[|c n]|]; by eauto.
    + intros H. split; [|intros f a Hf; apply H; by right].
      assert (∀ a, a ∈ assocs →
        associated_person a = None ∨ associated_person a = Some []) as Ha.
      { intros a. apply (H (bid, assocs)). by left. }
      clear H. induction assocs as [|a0 assocs IH]; [done|].
      rewrite bind_cons, IH by (intros a Hin; apply Ha; by right).
      by destruct (Ha a0) as [-> | ->]; [by left|..].
Qed.

(** X2: both name extractors fail on an input without names instead of
    returning an empty frame.  [extract_names_to_dataframe] of the
    all-names script raises [KeyError] exactly when no book has a
    biographical entry, the one of the portrait script exactly when no
    association names a person; a frame that is returned has at least one
    row. *)
Theorem input_without_names_raises_KeyError
    (books : list (text * list entry))
    (files : list (text * list association)) :
  (extract_names_to_dataframe books = raise (KeyError "book_id")
   ↔ ∀ b, b ∈ books → b.2 = [])
  ∧ (∀ df, extract_names_to_dataframe books = ret df → df ≠ [])
  ∧ (extract_portrait_names_to_dataframe files = raise (KeyError "name")
     ↔ ∀ f a, f ∈ files → a ∈ f.2 →
         associated_person a = None ∨ associated_person a = Some [])
  ∧ (∀ df, extract_portrait_names_to_dataframe files = ret df → df ≠ []).
Proof.
  rewrite <- collect_rows_nil, <- collect_portrait_rows_nil.
  unfold extract_names_to_dataframe, extract_portrait_names_to_dataframe.
  split_and!.
  - by destruct (collect_rows books).
  - destruct (collect_rows books) as [|r data] eqn:E; [done|].
    intros df [= <-]. rewrite SegmenterFacts.drop_shift_duplicates_kept.
    pose proof (PyStrFacts.stable_sort_perm by_book_and_page (r :: data))
      as Hp.
    change (insert_sorted by_book_and_page r
              (stable_sort by_book_and_page data))
      with (stable_sort by_book_and_page (r :: data)).
    destruct (stable_sort by_book_and_page (r :: data)) as [|x l];
      [|by simpl].
    by apply Permutation_nil_l in Hp.
  - by destruct (collect_portrait_rows files).
  - destruct (collect_portrait_rows files) as [|r data] eqn:E; [done|].
    intros df [= <-]. by rewrite SegmenterFacts.drop_shift_duplicates_kept.
Qed.

Lemma by_book_and_page_total r1 r2 :
  by_book_and_page r1 r2 = false → by_book_and_page r2 r1 = true.
Proof.
  unfold by_book_and_page.
  rewrite (OrderFacts.text_compare_antisym (book_id r1) (book_id r2)).
  destruct (text_compare (book_id r1) (book_id r2)); simpl; [|done..].
  rewrite !Z.leb_le, Z.leb_gt. lia.
Qed.

Lemma by_book_and_page_trans r1 r2 r3 :
  by_book_and_page r1 r2 = true → by_book_and_page r2 r3 = true →
  by_book_and_page r1 r3 = true.
Proof.
  unfold by_book_and_page.
  destruct (text_compare (book_id r1) (book_id r2)) eqn:E1; [| |done];
    (destruct (text_compare (book_id r2) (book_id r3)) eqn:E2; [| |done]).
  - apply OrderFacts.text_compare_Eq in E1. rewrite E1, E2.
    rewrite !Z.leb_le. lia.
  - apply OrderFacts.text_compare_Eq in E1. by rewrite E1, E2.
  - apply OrderFacts.text_compare_Eq in E2. by rewrite <- E2, E1.
  - by rewrite (OrderFacts.text_compare_Lt_trans _ _ _ E1 E2).
Qed.

(** X3: the frame of the all-names script is ordered by book id and,
    within a book, by page number, and holds only rows read from the
    input: the duplicate filter runs on the sorted frame and keeps its
    order. *)
Theorem names_frame_is_sorted_by_book_and_page
    (books : list (text * list entry)) df :
  extract_names_to_dataframe books = ret df →
  (∀ (i j : nat) r1 r2,
     i < j → df !! i = Some r1 → df !! j = Some r2 →
     text_compare (book_id r1) (book_id r2) ≠ Gt
     ∧ (book_id r1 = book_id r2 → (page_number r1 ≤ page_number r2)%Z))
  ∧ (∀ r, r ∈ df → r ∈ collect_rows books).
Proof.
  unfold extract_names_to_dataframe.
  destruct (collect_rows books) as [|r0 data] eqn:E; [done|].
  intros [= <-]. rewrite SegmenterFacts.drop_shift_duplicates_kept.
  set (sorted := stable_sort by_book_and_page (r0 :: data)).
  pose proof (SegmenterMore.kept_from_sublist name None sorted) as Hsub.
  split.
  - intros i j r1 r2 Hij H1 H2.
    assert (by_book_and_page r1 r2 = true) as Hle.
    { eapply (OrderFacts.StronglySorted_lookup
                (λ a b, by_book_and_page a b = true)); [|done..].
      eapply OrderFacts.StronglySorted_sublist_of; [exact Hsub|].
      apply OrderFacts.stable_sort_sorted;
        [apply by_book_and_page_total|apply by_book_and_page_trans]. }
    unfold by_book_and_page in Hle.
    destruct (text_compare (book_id r1) (book_id r2)) eqn:Ec; [| |done].
    + split; [done|]. intros _. by apply Z.leb_le.
    + split; [done|]. intros Heq%OrderFacts.text_compare_Eq. congruence.
  - intros r Hr. eapply elem_of_sublist in Hr; [|exact Hsub].
    unfold sorted in Hr. by rewrite PyStrFacts.stable_sort_perm in Hr.
Qed.

Lemma names_frame_is_sorted_by_book_and_page_witness :
  ∃ df,
    extract_names_to_dataframe
      [(txt "b2", [Entry (txt "OLSEN") 1 [] []]);
       (txt "b1", [Entry (txt "BERG") 7 [] []; Entry (txt "HANSEN") 2 [] []])]
    = ret df
    ∧ ∀ r, r ∈ df →
        r ∈ collect_rows
              [(txt "b2", [Entry (txt "OLSEN") 1 [] []]);
               (txt "b1", [Entry (txt "BERG") 7 [] [];
                           Entry (txt "HANSEN") 2 [] []])].
Proof.
  eexists. split; [reflexivity|].
  eapply names_frame_is_sorted_by_book_and_page. reflexivity.
Defined.

End SegmenterOrder.

Module ChunkFacts.
Import Segmenter.

Lemma lstrip_part s : ∃ ws, s = ws ++ lstrip s.
Proof.
  induction s as [|c s [ws IH]]; [by exists []|]. simpl.
  destruct (is_space c); [|by exists []].
  exists (c :: ws). by rewrite IH at 1.
Qed.

Lemma rstrip_part s : ∃ ws, s = rstrip s ++ ws.
Proof.
  unfold rstrip. destruct (lstrip_part (reverse s)) as [ws H].
  exists (reverse ws). by rewrite <- reverse_app, <- H, reverse_involutive.
Qed.

Lemma strip_part s : ∃ pre post, s = pre ++ strip s ++ post.
Proof.
  unfold strip. destruct (lstrip_part s) as [pre Hpre].
  destruct (rstrip_part (lstrip s)) as [post Hpost].
  exists pre, post. by rewrite <- Hpost.
Qed.

Lemma lstrip_head s c : head (lstrip s) = Some c → is_space c = false.
Proof.
  induction s as [|c0 s IH]; simpl; [done|].
  destruct (is_space c0) eqn:E; [done|]. by intros [= <-].
Qed.

Lemma rstrip_last s c : last (rstrip s) = Some c → is_space c = false.
Proof. unfold rstrip. rewrite last_reverse. apply lstrip_head. Qed.

Lemma rstrip_head s c :
  head (rstrip s) = Some c → head s = Some c.
Proof.
  destruct (rstrip_part s) as [ws H]. rewrite H at 2.
  by destruct (rstrip s).
Qed.

Lemma strip_head s c : head (strip s) = Some c → is_space c = false.
Proof. unfold strip. intros H%rstrip_head. by eapply lstrip_head. Qed.

Lemma strip_last s c : last (strip s) = Some c → is_space c = false.
Proof. unfold strip. apply rstrip_last. Qed.

Lemma slice_part s a b : ∃ pre post, s = pre ++ slice s a b ++ post.
Proof.
  unfold slice. exists (take a s), (drop (b - a) (drop a s)).
  by rewrite take_drop, take_drop.
Qed.

(** X4: every chunk is one contiguous piece of the document and carries no
    white space at either end. *)
Theorem chunk_is_a_piece_of_the_text content names (i : nat) chunk :
  chunk_markdown_by_names content names !! i = Some chunk →
  (∃ pre post, content = pre ++ chunk ++ post)
  ∧ (∀ c, head chunk = Some c → is_space c = false)
  ∧ (∀ c, last chunk = Some c → is_space c = false).
Proof.
  rewrite SegmenterFacts.lookup_chunk.
  destruct (names !! i) as [name|]; [|done]. intros [= <-].
  unfold chunk_at. destruct (search_name name content) as [start_pos|].
  - set (end_pos := match names !! (i + 1) with Some _ => _ | None => _ end).
    split_and!; [|apply strip_head|apply strip_last].
    destruct (slice_part content start_pos end_pos) as (pre & post & H).
    destruct (strip_part (slice content start_pos end_pos))
      as (pre' & post' & H').
    exists (pre ++ pre'), (post' ++ post).
    rewrite H at 1. rewrite H' at 1. by rewrite <- !(assoc_L (++)).
  - split_and!; [|done..]. by exists [], content.
Qed.

Lemma chunk_is_a_piece_of_the_text_witness :
  ∃ pre post, txt "x AB  b" = pre ++ txt "AB" ++ post.
Proof.
  apply (chunk_is_a_piece_of_the_text (txt "x AB  b") [txt "ab"; txt "B"] 0).
  reflexivity.
Defined.

Lemma re_search_ci_empty content : re_search_ci [] content = Some 0.
Proof. by destruct content. Qed.

(** X5: a name made only of characters that are neither word characters
    (letter, digit, underscore) nor white space, and that does not occur
    in the text, is located at the very beginning of the text, because
    its fallback pattern is empty; so is an empty name.  Its chunk starts
    at position 0, and for the last name of the list it is the whole
    text, trimmed. *)
Theorem name_of_punctuation_is_located_at_the_start
    content names (i : nat) name :
  names !! i = Some name →
  strip_punctuation name = [] →
  absent name content ∨ name = [] →
  search_name name content = Some 0
  ∧ (∃ e, chunk_markdown_by_names content names !! i
          = Some (strip (slice content 0 e))
          ∧ match names !! (i + 1) with
            | None => e = length content
            | Some next_name =>
                ∃ r, located next_name (drop (length name) content) r
                     ∧ e = match r with
                           | Some k => length name + k
                           | None => length content
                           end
            end)
  ∧ (names !! (i + 1) = None →
     chunk_markdown_by_names content names !! i = Some (strip content)).
Proof.
  intros Hi Hp Hn.
  assert (search_name name content = Some 0) as Hs.
  { unfold search_name. destruct Hn as [Hn| ->].
    - apply PyStrFacts.re_search_ci_None in Hn as ->.
      rewrite Hp. apply re_search_ci_empty.
    - by rewrite re_search_ci_empty. }
  rewrite SegmenterFacts.lookup_chunk, Hi. simpl.
  unfold chunk_at. rewrite Hs. simpl. split_and!; [done| |].
  - eexists. split; [reflexivity|].
    destruct (names !! (i + 1)) as [next_name|]; [|done].
    exists (search_name next_name (drop (length name) content)).
    split; [apply SegmenterFacts.search_name_located|done].
  - intros ->. unfold slice. by rewrite Nat.sub_0_r, firstn_all.
Qed.

Lemma name_of_punctuation_is_located_at_the_start_witness :
  chunk_markdown_by_names (txt " HANSEN, Ole ") [txt "HANSEN"; txt "?!"] !! 1
  = Some (txt "HANSEN, Ole").
Proof.
  apply (name_of_punctuation_is_located_at_the_start
           (txt " HANSEN, Ole ") [txt "HANSEN"; txt "?!"] 1 (txt "?!")).
  - reflexivity.
  - reflexivity.
  - left. apply PyStrFacts.re_search_ci_None. reflexivity.
  - reflexivity.
Defined.

Lemma is_space_not_upper c : is_space c = true → lower c = c.
Proof.
  destruct c as [[] [] [] [] [] [] [] []]; vm_compute; congruence.
Qed.

Lemma is_space_lower c : is_space (lower c) = is_space c.
Proof. by destruct c as [[] [] [] [] [] [] [] []]. Qed.

Lemma lower_eq_is_space a b : lower a = lower b → is_space a = is_space b.
Proof. intros H. by rewrite <- (is_space_lower a), H, is_space_lower. Qed.

Lemma lstrip_app_keep x c a :
  is_space c = false → ∃ x', lstrip (x ++ c :: a) = x' ++ c :: a.
Proof.
  intros Hc. induction x as [|y x [x' IH]]; simpl.
  - rewrite Hc. by exists [].
  - destruct (is_space y); [by exists x'|by exists (y :: x)].
Qed.

Lemma rstrip_app_keep a b c :
  last a = Some c → is_space c = false → ∃ b', rstrip (a ++ b) = a ++ b'.
Proof.
  intros Hl Hc. unfold rstrip. rewrite reverse_app.
  assert (∃ a', reverse a = c :: a') as [a' Ha].
  { rewrite <- head_reverse in Hl. destruct (reverse a); naive_solver. }
  rewrite Ha. destruct (lstrip_app_keep (reverse b) c a' Hc) as [x' ->].
  exists (reverse x').
  by rewrite reverse_app, <- Ha, reverse_involutive.
Qed.

(** X6: the chunk of a name that occurs in the text and has no white
    space at either end begins with the occurrence that was found: with the
    name, letter case apart. *)
Theorem chunk_begins_with_the_name content names (i : nat) name s c c' :
  names !! i = Some name →
  first_occurrence name content s →
  head name = Some c → is_space c = false →
  last name = Some c' → is_space c' = false →
  ∃ rest,
    chunk_markdown_by_names content names !! i
    = Some (take (length name) (drop s content) ++ rest)
    ∧ lower <$> take (length name) (drop s content) = lower <$> name.
Proof.
  intros Hi Hs Hc Hcs Hc' Hcs'.
  pose proof Hs as [[Hlen Hocc] _].
  apply PyStrFacts.re_search_ci_Some in Hs.
  rewrite SegmenterFacts.lookup_chunk, Hi. simpl.
  unfold chunk_at, search_name. rewrite Hs.
  set (e := match names !! (i + 1) with Some _ => _ | None => _ end).
  assert (s + length name ≤ e) as He.
  { unfold e. repeat case_match; lia. }
  set (occ := take (length name) (drop s content)) in *.
  assert (length occ = length name) as Hlo.
  { unfold occ. rewrite length_take, length_drop. lia. }
  assert (∃ more, slice content s e = occ ++ more) as [more Hm].
  { unfold slice, occ.
    exists (drop (length name) (take (e - s) (drop s content))).
    rewrite <- (take_drop (length name) (take (e - s) (drop s content))) at 1.
    f_equal. rewrite take_take. f_equal. lia. }
  assert (∃ o o', head occ = Some o ∧ is_space o = false
                  ∧ last occ = Some o' ∧ is_space o' = false)
    as (o & o' & Ho & Hos & Ho' & Hos').
  { assert (head (lower <$> occ) = Some (lower c)) as H1
      by (by rewrite Hocc, head_lookup, list_lookup_fmap, <- head_lookup, Hc).
    assert (last (lower <$> occ) = Some (lower c')) as H2
      by (by rewrite Hocc, fmap_last, Hc').
    rewrite head_lookup, list_lookup_fmap, <- head_lookup in H1.
    rewrite fmap_last in H2.
    destruct (head occ) as [o|]; [|done].
    destruct (last occ) as [o'|]; [|done].
    injection H1 as H1. injection H2 as H2.
    exists o, o'. split_and!; [done| |done|].
    - by rewrite (lower_eq_is_space _ _ H1).
    - by rewrite (lower_eq_is_space _ _ H2). }
  rewrite Hm. unfold strip.
  assert (lstrip (occ ++ more) = occ ++ more) as ->.
  { destruct occ as [|x occ']; [done|]. injection Ho as ->.
    simpl. by rewrite Hos. }
  destruct (rstrip_app_keep occ more o' Ho' Hos') as [rest ->].
  by exists rest.
Qed.

Lemma chunk_begins_with_the_name_witness :
  ∃ rest,
    chunk_markdown_by_names (txt "intro Hansen, Ole, born 1900 ")
      [txt "HANSEN, Ole"] !! 0
    = Some (txt "Hansen, Ole" ++ rest).
Proof.
  destruct (chunk_begins_with_the_name
              (txt "intro Hansen, Ole, born 1900 ") [txt "HANSEN, Ole"]
              0 (txt "HANSEN, Ole") 6 "H"%char "e"%char)
    as (rest & H & _); try reflexivity.
  - apply PyStrFacts.re_search_ci_Some. reflexivity.
  - by exists rest.
Defined.

End ChunkFacts.

(** ** The portrait column *)

Module PageStartMore.
Import PageStart.

Lemma add_portrait_column_empty df r :
  r ∈ add_portrait_column df → portrait_filename r = [].
Proof.
  unfold add_portrait_column.
  by intros ([[n b] c] & -> & _)%list_elem_of_fmap.
Qed.

Lemma portrait_provenance init files (i : nat) r :
  (∀ r0, r0 ∈ init → portrait_filename r0 = []) →
  foldl associate_one init files !! i = Some r →
  portrait_filename r ≠ [] →
  ∃ f, f ∈ files ∧ target f = Some (portrait_filename r, book_id r)
       ∧ last_row_of (book_id r) init i.
Proof.
  intros Hinit. revert i r.
  induction files as [|f files IH] using rev_ind; intros i r; simpl.
  - intros Hr Hp. destruct Hp. eapply Hinit, list_elem_of_lookup_2, Hr.
  - rewrite foldl_app. simpl. set (mid := foldl associate_one init files).
    assert (∀ j r', mid !! j = Some r' → portrait_filename r' ≠ [] →
      ∃ f0, f0 ∈ files ++ [f]
            ∧ target f0 = Some (portrait_filename r', book_id r')
            ∧ last_row_of (book_id r') init j) as Hmid.
    { intros j r' Hj Hp. destruct (IH j r' Hj Hp) as (f0 & Hf0 & H).
      exists f0. split; [|done]. apply elem_of_app. by left. }
    unfold associate_one.
    destruct (target f) as [[portrait previous]|] eqn:Ht; [|apply Hmid].
    destruct (last_index_of_book previous mid) as [idx|] eqn:Hidx;
      [|apply Hmid].
    destruct (decide (i = idx)) as [->|Hne].
    + rewrite list_lookup_alter_eq.
      destruct (mid !! idx) as [r0|] eqn:Hr0; [|done].
      intros [= <-] _. simpl.
      apply PageStartFacts.last_index_of_book_Some in Hidx.
      assert (book_id r0 = previous) as Hb.
      { destruct Hidx as [Hb _]. rewrite Hr0 in Hb. by injection Hb. }
      exists f. split_and!.
      * apply elem_of_app. right. by left.
      * by rewrite Hb.
      * rewrite Hb. eapply PageStartFacts.last_row_of_ext; [|exact Hidx].
        apply PageStartFacts.associate_all_book_ids.
    + rewrite list_lookup_alter_ne by done. apply Hmid.
Qed.

(** X7: a portrait in the result always comes from a figure-starting
    file: a row that carries one is the last row of its page, and some
    file of the list names that portrait on its first line and has the
    page number one more.  No other row gets a portrait. *)
Theorem portrait_comes_from_a_figure_file
    (df : list (text * text * text)) files (i : nat) r :
  associate_portraits_with_names df files !! i = Some r →
  portrait_filename r ≠ [] →
  ∃ f, f ∈ files
       ∧ target f = Some (portrait_filename r, book_id r)
       ∧ last_row_of (book_id r) (associate_portraits_with_names df files) i.
Proof.
  intros Hr Hp.
  destruct (portrait_provenance (add_portrait_column df) files i r)
    as (f & Hf & Ht & Hlast); [apply add_portrait_column_empty|done..|].
  exists f. split_and!; [done..|].
  eapply PageStartFacts.last_row_of_ext; [|exact Hlast].
  symmetry. apply PageStartFacts.associate_all_book_ids.
Qed.

Lemma portrait_comes_from_a_figure_file_witness :
  ∃ f, f ∈ [FileInfo (txt "digibok_1_0002.md")
              (txt "![Figure](figures/a.png)")]
       ∧ target f = Some (txt "a.png", txt "digibok_1_0001").
Proof.
  destruct (portrait_comes_from_a_figure_file
    [(txt "HANSEN, Ole", txt "digibok_1_0001", txt "c1");
     (txt "OLSEN, Anna", txt "digibok_1_0001", txt "c2");
     (txt "BERG, Per", txt "digibok_1_0002", txt "c3")]
    [FileInfo (txt "digibok_1_0002.md") (txt "![Figure](figures/a.png)")]
    1 (Row (txt "OLSEN, Anna") (txt "digibok_1_0001") (txt "c2")
         (txt "a.png")) eq_refl) as (f & Hf & Ht & _); [done|].
  by exists f.
Defined.

Lemma drop_while_elem_of P s c r : drop_while P s = c :: r → c ∈ s.
Proof.
  intros H. rewrite <- (PyStrFacts.take_drop_while P s), H.
  apply elem_of_app. right. by left.
Qed.

Lemma match_figure_paren s g : match_figure s = Some g → ")"%char ∈ s.
Proof.
  unfold match_figure. destruct (startswith _ s); [|done].
  destruct (take_while _ (drop 18 s)); [done|].
  destruct (drop_while _ (drop 18 s)) as [|c r] eqn:E; [done|]. intros _.
  pose proof (PyStrFacts.drop_while_head _ _ _ _ E) as Hc.
  apply negb_false_iff, PyStrFacts.is_char_true in Hc. subst c.
  apply drop_while_elem_of in E.
  rewrite <- (take_drop 18 s). apply elem_of_app. by right.
Qed.

Lemma search_figure_paren s g : search_figure s = Some g → ")"%char ∈ s.
Proof.
  induction s as [|c s IH].
  - simpl. by destruct (match_figure []) eqn:E.
  - simpl. destruct (match_figure (c :: s)) eqn:E.
    + intros _. by eapply match_figure_paren.
    + intros H. right. by apply IH.
Qed.

(** X8: the first line is stored cut at 100 characters.  When the figure
    reference of a figure-starting file does not close within them,
    the portrait name cannot be read from the stored line, and the file
    changes no row. *)
Theorem cut_first_line_gives_no_portrait df md_file raw :
  let content := strip raw in
  let line := split_first_line content in
  100 < length line →
  ")"%char ∉ take 100 line →
  shown_first_line content = take 100 line ++ txt "..."
  ∧ target (FileInfo md_file (shown_first_line content)) = None
  ∧ associate_one df (FileInfo md_file (shown_first_line content)) = df.
Proof.
  intros content line Hlen Hparen.
  assert (shown_first_line content = take 100 line ++ txt "...") as Hshown.
  { unfold shown_first_line. fold line.
    by apply Nat.ltb_lt in Hlen as ->. }
  assert (target (FileInfo md_file (shown_first_line content)) = None)
    as Ht.
  { unfold target. simpl. rewrite Hshown.
    destruct (search_figure _) as [g|] eqn:E; [|done].
    apply search_figure_paren, elem_of_app in E as [E|E]; [done|].
    change (txt "...") with ["."; "."; "."]%char in E.
    repeat (apply elem_of_cons in E as [E|E]; [done|]).
    by apply elem_of_nil in E. }
  split_and!; [done..|]. unfold associate_one. by rewrite Ht.
Qed.

Lemma cut_first_line_gives_no_portrait_witness :
  let raw :=
    txt "![Figure](figures/" ++ replicate 90 "a"%char ++ txt ".png) HANSEN" in
  starts_with_figure (strip raw) = true
  ∧ search_figure (split_first_line (strip raw))
    = Some (replicate 90 "a"%char ++ txt ".png")
  ∧ target (FileInfo (txt "digibok_1_0002.md") (shown_first_line (strip raw)))
    = None.
Proof.
  split_and!; [vm_compute; reflexivity..|].
  apply (cut_first_line_gives_no_portrait []).
  - vm_compute. lia.
  - apply (bool_decide_unpack _). vm_compute. exact I.
Defined.

Lemma digits_of_digits fuel n :
  Forall (λ c, is_digit c = true) (digits_of fuel n).
Proof.
  revert n. induction fuel as [|fuel IH]; intros n; simpl; [done|].
  apply Forall_app. split; [destruct (n <? 10)%N; [done|apply IH]|].
  repeat constructor.
  assert (n mod 10 < 10)%N as Hlt by (apply N.mod_lt; lia).
  unfold digit_char.
  assert (∃ k, N.to_nat (n mod 10) = k ∧ k < 10) as (k & -> & Hk)
    by (eexists; split; [done|lia]).
  do 10 (destruct k as [|k]; [done|]). lia.
Qed.

Lemma zero_pad_digits w s :
  Forall (λ c, is_digit c = true) s →
  Forall (λ c, is_digit c = true) (zero_pad w s).
Proof.
  intros H. apply Forall_app. split; [|done]. by apply Forall_replicate.
Qed.

Lemma zero_pad_length w s : w ≤ length (zero_pad w s).
Proof. unfold zero_pad. rewrite length_app, length_replicate. lia. Qed.

(** X9: the id of the previous page counts the page number one down and
    writes it with at least four digits; for page number 0 it ends in
    [-001]. *)
Theorem previous_page_id_counts_one_down book_prefix digits :
  ((int_of_digits digits ≠ 0)%N →
   ∃ previous_digits,
     previous_book_id book_prefix digits = book_prefix ++ previous_digits
     ∧ Forall (λ c, is_digit c = true) previous_digits
     ∧ 4 ≤ length previous_digits
     ∧ (int_of_digits previous_digits + 1 = int_of_digits digits)%N)
  ∧ (int_of_digits digits = 0%N →
     previous_book_id book_prefix digits = book_prefix ++ txt "-001").
Proof.
  unfold previous_book_id. split.
  - intros Hne. eexists. split; [reflexivity|].
    set (z := (Z.of_N (int_of_digits digits) - 1)%Z).
    assert (0 ≤ z)%Z as Hz by lia.
    split_and!.
    + unfold format_04d. apply Z.ltb_ge in Hz as ->.
      apply zero_pad_digits, digits_of_digits.
    + unfold format_04d. apply Z.ltb_ge in Hz as ->. apply zero_pad_length.
    + rewrite DecimalFacts.int_of_format_04d by done. lia.
  - by intros ->.
Qed.

Lemma previous_page_id_counts_one_down_witness :
  ∃ previous_digits,
    previous_book_id (txt "digibok_2007031501007_") (txt "0060")
    = txt "digibok_2007031501007_" ++ previous_digits
    ∧ Forall (λ c, is_digit c = true) previous_digits
    ∧ 4 ≤ length previous_digits
    ∧ (int_of_digits previous_digits + 1 = int_of_digits (txt "0060"))%N.
Proof.
  apply (previous_page_id_counts_one_down
           (txt "digibok_2007031501007_") (txt "0060")).
  vm_compute. discriminate.
Defined.

End PageStartMore.

(** ** File names and groups *)

Module GrouperMore.
Import Grouper stdpp.sorting.

Lemma by_page_number_total f g :
  by_page_number f g = false → by_page_number g f = true.
Proof. unfold by_page_number. rewrite N.leb_le, N.leb_gt. lia. Qed.

Lemma by_page_number_trans f g h :
  by_page_number f g = true → by_page_number g h = true →
  by_page_number f h = true.
Proof. unfold by_page_number. rewrite !N.leb_le. lia. Qed.

Lemma by_page_number_key f g :
  by_page_number f g = false → get_page_number f ≠ get_page_number g.
Proof. unfold by_page_number. rewrite N.leb_gt. lia. Qed.

(** X10: the groups of [find_markdown_files] split the files by book id.
    A group is never empty and holds exactly the files with its book id,
    each as often as the directory listing has it, ordered by page
    number; files with one page number keep the order of the listing. *)
Theorem groups_split_the_files_by_book (files : list text) book group :
  find_markdown_files files !! book = Some group →
  group ≠ []
  ∧ group ≡ₚ filter (λ f, get_book_id f = book) files
  ∧ (∀ f, f ∈ group ↔ f ∈ files ∧ get_book_id f = book)
  ∧ (∀ (i j : nat) f g,
       i < j → group !! i = Some f → group !! j = Some g →
       (get_page_number f ≤ get_page_number g)%N)
  ∧ (∀ n, filter (λ f, get_page_number f = n) group
          = filter (λ f, get_page_number f = n)
              (filter (λ f, get_book_id f = book) files)).
Proof.
  rewrite GrouperFacts.lookup_find_markdown_files.
  set (members := filter (λ f, get_book_id f = book) files).
  intros H.
  assert (members ≠ [] ∧ group = stable_sort by_page_number members)
    as [Hne ->].
  { destruct members; [done|]. by injection H as <-. }
  clear H.
  pose proof (PyStrFacts.stable_sort_perm by_page_number members) as Hperm.
  split_and!.
  - intros Hnil. rewrite Hnil in Hperm. by apply Permutation_nil_l in Hperm.
  - done.
  - intros f. rewrite Hperm. unfold members.
    by rewrite list_elem_of_filter, (comm and).
  - intros i j f g Hij Hf Hg. apply N.leb_le.
    eapply (OrderFacts.StronglySorted_lookup
              (λ a b, by_page_number a b = true)); [|done..].
    apply OrderFacts.stable_sort_sorted;
      [apply by_page_number_total|apply by_page_number_trans].
  - intros n. apply OrderFacts.filter_stable_sort, by_page_number_key.
Qed.

Lemma groups_split_the_files_by_book_witness :
  txt "b_x_y_0002.md"
  ∈ [txt "b_x_y_0002.md"; txt "notes.md"; txt "b_x_y_0001.md"]
  ∧ get_book_id (txt "b_x_y_0002.md") = txt "b_x_y".
Proof.
  apply (groups_split_the_files_by_book
           [txt "b_x_y_0002.md"; txt "notes.md"; txt "b_x_y_0001.md"]
           (txt "b_x_y") [txt "b_x_y_0001.md"; txt "b_x_y_0002.md"]).
  - vm_compute. reflexivity.
  - apply elem_of_cons. right. apply elem_of_cons. by left.
Defined.

Lemma replace_from_no_dot s rest :
  "."%char ∉ s →
  replace_from (txt ".md") [] 0 (s ++ rest)
  = s ++ replace_from (txt ".md") [] 0 rest.
Proof.
  induction s as [|c s IH]; [done|]. intros Hc.
  apply not_elem_of_cons in Hc as [Hc Hs].
  cbn [app replace_from].
  assert (startswith (txt ".md") (c :: s ++ rest) = false) as ->.
  { change (txt ".md") with ("."%char :: txt "md"). cbn [startswith].
    by rewrite bool_decide_eq_false_2. }
  by rewrite IH.
Qed.

Lemma replace_md_suffix s :
  "."%char ∉ s → replace (txt ".md") [] (s ++ txt ".md") = s.
Proof.
  intros Hs. unfold replace. rewrite replace_from_no_dot by done.
  change (replace_from (txt ".md") [] 0 (txt ".md")) with (@nil ascii).
  by rewrite app_nil_r.
Qed.

Lemma take_drop_while_all P s :
  Forall (λ c, P c = true) s → take_while P s = s ∧ drop_while P s = [].
Proof.
  induction 1 as [|c s Hc _ [IH1 IH2]]; [done|]. simpl.
  by rewrite Hc, IH1, IH2.
Qed.

Lemma drop_while_app_stop P a c b :
  P c = false → ∃ x, drop_while P (a ++ c :: b) = x ++ c :: b.
Proof.
  intros Hc. induction a as [|y a [x IH]]; simpl.
  - rewrite Hc. by exists [].
  - destruct (P y); [by exists x|by exists (y :: a)].
Qed.

Lemma match_page_suffix_inner c s d digits :
  match_page_suffix (c :: s ++ "_"%char :: d :: digits) = None.
Proof.
  unfold match_page_suffix. destruct (is_char "_" c); [|done].
  destruct (drop_while_app_stop is_digit s "_"%char (d :: digits) eq_refl)
    as [x ->].
  destruct (take_while is_digit _); [done|].
  by destruct x as [|? [|? ?]].
Qed.

Lemma search_page_suffix_last book digits :
  digits ≠ [] → Forall (λ c, is_digit c = true) digits →
  search_page_suffix (book ++ "_"%char :: digits) = Some digits.
Proof.
  intros Hne Hd. destruct digits as [|d digits]; [done|].
  induction book as [|c book IH].
  - cbn [app search_page_suffix]. unfold match_page_suffix.
    change (is_char "_" "_") with true. cbv iota.
    by destruct (take_drop_while_all is_digit (d :: digits) Hd) as [-> ->].
  - cbn [app search_page_suffix]. by rewrite match_page_suffix_inner.
Qed.

Lemma digits_no_dot digits :
  Forall (λ c, is_digit c = true) digits → "."%char ∉ digits.
Proof.
  intros Hd Hin. rewrite Forall_forall in Hd. by apply Hd in Hin.
Qed.

(** X11: the page number written into a file name is read back.  For a
    name made of a part without a full stop, an underscore, a page token
    of digits and [.md], [get_page_number] is the number of the token; in
    particular a number written with [:04d] comes back as it was. *)
Theorem page_number_is_read_back book digits :
  "."%char ∉ book →
  digits ≠ [] → Forall (λ c, is_digit c = true) digits →
  get_page_number (book ++ "_"%char :: digits ++ txt ".md")
  = int_of_digits digits
  ∧ (∀ n : N,
       get_page_number
         (book ++ "_"%char :: format_04d (Z.of_N n) ++ txt ".md") = n).
Proof.
  intros Hbook Hne Hd.
  assert (∀ ds, ds ≠ [] → Forall (λ c, is_digit c = true) ds →
    get_page_number (book ++ "_"%char :: ds ++ txt ".md") = int_of_digits ds)
    as Hgen.
  { intros ds Hn Hds. unfold get_page_number.
    replace (book ++ "_"%char :: ds ++ txt ".md")
      with ((book ++ "_"%char :: ds) ++ txt ".md")
      by (by rewrite <- (assoc_L (++))).
    rewrite replace_md_suffix.
    - by rewrite search_page_suffix_last.
    - rewrite not_elem_of_app, not_elem_of_cons.
      split_and!; [done..|]. by apply digits_no_dot. }
  split; [by apply Hgen|]. intros n.
  assert (format_04d (Z.of_N n)
          = zero_pad 4 (str_of_N n)) as Hf.
  { unfold format_04d. rewrite N2Z.id.
    by destruct (Z.ltb_spec (Z.of_N n) 0); [lia|]. }
  rewrite Hgen.
  - rewrite DecimalFacts.int_of_format_04d by lia. apply N2Z.id.
  - intros Hnil. pose proof (PageStartMore.zero_pad_length 4 (str_of_N n)).
    rewrite <- Hf, Hnil in H. simpl in H. lia.
  - rewrite Hf. apply PageStartMore.zero_pad_digits,
      PageStartMore.digits_of_digits.
Qed.

Lemma page_number_is_read_back_witness :
  get_page_number (txt "digibok_2007031501007_0057.md") = 57%N.
Proof.
  apply (page_number_is_read_back (txt "digibok_2007031501007") (txt "0057")).
  - apply (bool_decide_unpack _). vm_compute. exact I.
  - done.
  - by repeat constructor.
Defined.

Lemma split_not_nil sep s : Grouper.split sep s ≠ [].
Proof.
  destruct s as [|c s]; [done|]. simpl.
  destruct (is_char sep c); [done|]. by destruct (Grouper.split sep s).
Qed.

Lemma split_no_sep sep s : sep ∉ s → Grouper.split sep s = [s].
Proof.
  induction s as [|c s IH]; [done|].
  intros [Hc Hs]%not_elem_of_cons. simpl. rewrite (IH Hs).
  unfold is_char. by rewrite bool_decide_eq_false_2.
Qed.

Lemma split_app_last sep book last :
  sep ∉ last →
  Grouper.split sep (book ++ sep :: last) = Grouper.split sep book ++ [last].
Proof.
  intros Hl. induction book as [|c book IH]; simpl.
  - unfold is_char. rewrite bool_decide_eq_true_2 by done.
    by rewrite split_no_sep.
  - destruct (is_char sep c); [by rewrite IH|]. rewrite IH.
    pose proof (split_not_nil sep book). by destruct (Grouper.split sep book).
Qed.

Lemma join_split sep s : Grouper.join sep (Grouper.split sep s) = s.
Proof.
  induction s as [|c s IH]; [done|]. simpl.
  destruct (is_char sep c) eqn:E.
  - apply PyStrFacts.is_char_true in E as ->.
    pose proof (split_not_nil sep s).
    destruct (Grouper.split sep s) as [|p ps]; [done|]. simpl in *.
    by rewrite IH.
  - pose proof (split_not_nil sep s).
    destruct (Grouper.split sep s) as [|p ps]; [done|]. rewrite <- IH. simpl.
    by destruct ps.
Qed.

Lemma length_split sep s :
  length (Grouper.split sep s) = S (length (filter (λ c, c = sep) s)).
Proof.
  induction s as [|c s IH]; [done|]. simpl. rewrite filter_cons.
  unfold is_char. case_bool_decide; case_decide; try done; simpl.
  - by rewrite IH.
  - pose proof (split_not_nil sep s).
    destruct (Grouper.split sep s) as [|p ps]; [done|]. simpl in *. done.
Qed.

(** X12: the book id of a file name with a page token.  The name without
    [.md] is cut at its last underscore and the part before it is the
    book id, provided that part has two underscores or more; with fewer
    (as in [digibok_2007031501007_0057.md]) the book id is the whole name,
    page token included, so that every page is a book of its own. *)
Theorem book_id_is_the_part_before_the_page_token book token :
  "."%char ∉ book → "."%char ∉ token → "_"%char ∉ token →
  get_book_id (book ++ "_"%char :: token ++ txt ".md")
  = if 2 <=? length (filter (λ c, c = "_"%char) book)
    then book
    else book ++ "_"%char :: token.
Proof.
  intros Hbook Htoken Hsep. unfold get_book_id.
  replace (book ++ "_"%char :: token ++ txt ".md")
    with ((book ++ "_"%char :: token) ++ txt ".md")
    by (by rewrite <- (assoc_L (++))).
  rewrite replace_md_suffix
    by (rewrite not_elem_of_app, not_elem_of_cons; by split_and!).
  rewrite split_app_last by done.
  pose proof (length_split "_" book) as Hlen.
  set (parts := Grouper.split "_" book) in *.
  rewrite length_app. cbn [length].
  replace (length parts + 1 - 1) with (length parts) by lia.
  rewrite take_app_length. unfold parts at 2. rewrite join_split, Hlen.
  generalize (length (filter (λ c, c = "_"%char) book)). intros n.
  destruct (Nat.leb_spec 4 (S n + 1)), (Nat.leb_spec 2 n); try done; lia.
Qed.

Lemma book_id_is_the_part_before_the_page_token_witness :
  get_book_id (txt "digibok_2007031501007_0057.md")
  = txt "digibok_2007031501007_0057"
  ∧ get_book_id (txt "digibok_2007031501007_v2_0057.md")
    = txt "digibok_2007031501007_v2".
Proof.
  split.
  - apply (book_id_is_the_part_before_the_page_token
             (txt "digibok_2007031501007") (txt "0057"));
      apply (bool_decide_unpack _); vm_compute; exact I.
  - apply (book_id_is_the_part_before_the_page_token
             (txt "digibok_2007031501007_v2") (txt "0057"));
      apply (bool_decide_unpack _); vm_compute; exact I.
Defined.

End GrouperMore.

(** ** The parser on clean and on empty responses *)

Module ParserMore.
Import Json Parser.

Lemma findall_from_none (matcher : text → option (nat * text)) skip s :
  (∀ s', "["%char ∉ s' → matcher s' = None) →
  "["%char ∉ s → findall_from matcher skip s = [].
Proof.
  intros Hm. revert skip. induction s as [|c s IH]; intros skip Hs; [done|].
  pose proof Hs as [_ Hs']%not_elem_of_cons. simpl.
  destruct skip; [|by apply IH]. rewrite Hm by done. by apply IH.
Qed.

Lemma match_array_needs_bracket s : "["%char ∉ s → match_array s = None.
Proof.
  destruct s as [|c s]; [done|]. intros [Hc _]%not_elem_of_cons. simpl.
  unfold is_char. by rewrite bool_decide_eq_false_2.
Qed.

Lemma match_fenced_needs_bracket fence s :
  "["%char ∉ s → match_fenced fence s = None.
Proof.
  intros Hs. unfold match_fenced. destruct (startswith fence s); [|done].
  destruct (drop_while is_space (drop (length fence) s)) as [|c r] eqn:E;
    [done|].
  destruct (is_char "[" c) eqn:Ec; [|done].
  apply PyStrFacts.is_char_true in Ec as ->. destruct Hs.
  apply PageStartMore.drop_while_elem_of in E.
  rewrite <- (take_drop (length fence) s). apply elem_of_app. by right.
Qed.

Lemma search_bracket_span_needs_bracket s :
  "["%char ∉ s → search_bracket_span s = None.
Proof.
  intros Hs. unfold search_bracket_span.
  destruct (drop_while (λ c, negb (is_char "[" c)) s) as [|c r] eqn:E;
    [done|].
  pose proof (PyStrFacts.drop_while_head _ _ _ _ E) as Hc.
  apply negb_false_iff, PyStrFacts.is_char_true in Hc. subst c.
  by apply PageStartMore.drop_while_elem_of in E.
Qed.

(** X13: a response without an opening bracket gives the empty list,
    whatever the decoder would do: no pattern matches, there is nothing
    to repair, and the decoder is not consulted. *)
Theorem response_without_bracket_gives_empty_list
    (json_loads : text → outcome json) response_text :
  "["%char ∉ response_text →
  pattern_candidates response_text = []
  ∧ fix_candidate response_text = []
  ∧ extract_json_from_response json_loads response_text = ret [].
Proof.
  intros Hs.
  assert (findall match_array response_text = []) as H1
    by (apply findall_from_none;
        [apply match_array_needs_bracket|done]).
  assert (∀ fence, findall (match_fenced fence) response_text = []) as H2
    by (intros fence; apply findall_from_none;
        [apply match_fenced_needs_bracket|done]).
  split_and!.
  - unfold pattern_candidates. by rewrite H1, !H2.
  - unfold fix_candidate. by rewrite search_bracket_span_needs_bracket.
  - unfold extract_json_from_response.
    rewrite ParserFacts.try_patterns_candidates, H1, !H2. simpl.
    unfold try_fix. by rewrite search_bracket_span_needs_bracket.
Qed.

Lemma response_without_bracket_gives_empty_list_witness :
  extract_json_from_response (λ _, Raised RecursionError)
    (lit "I could not find any portrait on these pages.")
  = ret [].
Proof.
  apply response_without_bracket_gives_empty_list.
  apply (bool_decide_unpack _). vm_compute. exact I.
Defined.

Lemma findall_from_first matcher pre s len m :
  (∀ s', "["%char ∉ take 1 s' → matcher s' = None) →
  "["%char ∉ pre →
  matcher s = Some (len, m) → s ≠ [] →
  findall_from matcher 0 (pre ++ s) !! 0 = Some m.
Proof.
  intros Hm Hpre Hs Hne. induction pre as [|c pre IH].
  - destruct s as [|c s]; [done|]. simpl. by rewrite Hs.
  - apply not_elem_of_cons in Hpre as [Hc Hpre]. cbn [app findall_from].
    rewrite Hm; [by apply IH|].
    simpl. by intros [?|[]%elem_of_nil]%elem_of_cons.
Qed.

(** X14: the first bracketed array of a response is returned as the
    decoder reads it, when it holds no further bracket and decodes to a
    list, whatever text stands before it (without an opening bracket)
    and after it. *)
Theorem first_flat_array_is_returned
    (json_loads : text → outcome json) pre inner post data :
  "["%char ∉ pre →
  Forall no_bracket inner →
  decodes_to json_loads ("["%char :: inner ++ ["]"%char]) data →
  extract_json_from_response json_loads
    (pre ++ "["%char :: inner ++ "]"%char :: post)
  = ret data.
Proof.
  intros Hpre Hinner Hdata.
  set (array := "["%char :: inner ++ ["]"%char]).
  set (response := pre ++ _).
  assert (findall match_array response !! 0 = Some array) as Hfirst.
  { unfold response, findall.
    apply (findall_from_first _ _ _ (S (length (inner ++ ["]"%char]))));
      [|done| |done].
    - intros [|c s'] Hc; [done|]. simpl in *.
      unfold is_char. rewrite bool_decide_eq_false_2; [done|].
      intros ->. apply Hc. by left.
    - cbn [match_array]. change (is_char "[" "[") with true. cbv iota.
      by rewrite ParserFacts.array_tail_no_brackets. }
  assert (strip array = array) as Hstrip.
  { apply ParserFacts.strip_bracketed; [done|].
    unfold array. rewrite app_comm_cons. apply last_snoc. }
  unfold extract_json_from_response.
  rewrite ParserFacts.try_patterns_candidates.
  set (ms := _ ++ _ ++ _).
  assert (ms !! 0 = Some array) as Hms.
  { unfold ms. rewrite lookup_app_l; [done|].
    by apply lookup_lt_Some in Hfirst. }
  assert (try_match json_loads array = Found data) as Hfound.
  { apply ParserFacts.try_match_Found. by rewrite Hstrip. }
  rewrite (ParserFacts.try_matches_first json_loads ms 0 array Hms).
  - by rewrite Hfound.
  - intros j m' Hj. lia.
  - by rewrite Hfound.
Qed.

Lemma first_flat_array_is_returned_witness :
  extract_json_from_response (loads 1000)
    (lit "Here it is: [{'confidence': 1}] and [2]")
  = ret [JObject [([99; 111; 110; 102; 105; 100; 101; 110; 99; 101]%N,
                   JInt 1)]].
Proof.
  apply (first_flat_array_is_returned (loads 1000)
           (lit "Here it is: ") (lit "{'confidence': 1}") (lit " and [2]")).
  - apply (bool_decide_unpack _). vm_compute. exact I.
  - repeat (constructor; [done|]). constructor.
  - vm_compute. reflexivity.
Defined.

Lemma replace_char_id a by_ s : a ∉ s → replace_char a by_ s = s.
Proof.
  unfold replace_char. induction s as [|c s IH]; [done|].
  intros [Hc Hs]%not_elem_of_cons. rewrite bind_cons, (IH Hs).
  unfold is_char. by rewrite bool_decide_eq_false_2.
Qed.

Lemma escape_newlines_id m :
  "010"%char ∉ m → "013"%char ∉ m → escape_newlines m = m.
Proof.
  intros Hlf Hcr. unfold escape_newlines.
  rewrite (replace_char_id "010" _ m Hlf). by apply replace_char_id.
Qed.

Lemma lazy_until_quote_run s n :
  lazy_until_quote s = Some n → n < length s ∧ "010"%char ∉ take n s.
Proof.
  revert n. induction s as [|c s IH]; intros n; simpl; [done|].
  destruct (is_char dquote c).
  { intros [= <-]. split; [lia|]. apply not_elem_of_nil. }
  destruct (is_char "010" c) eqn:E; [done|].
  destruct (lazy_until_quote s) as [k|]; [|done]. intros [= <-].
  destruct (IH k eq_refl) as [Hk Hlf]. split; [simpl; lia|].
  simpl. apply not_elem_of_cons. split; [|done].
  intros <-. by vm_compute in E.
Qed.

Lemma lazy_until_quote_0 c s :
  lazy_until_quote (c :: s) = Some 0 → c = dquote.
Proof.
  simpl. destruct (is_char dquote c) eqn:E.
  - intros _. by apply PyStrFacts.is_char_true in E.
  - destruct (is_char "010" c); [done|]. by destruct (lazy_until_quote s).
Qed.

Lemma sub_from_without_carriage_return s before skip :
  "013"%char ∉ s → skip ≤ length s → sub_from before skip s = drop skip s.
Proof.
  revert before skip. induction s as [|c s IH]; intros before skip Hcr Hskip.
  { by destruct skip. }
  pose proof Hcr as [Hc Hs]%not_elem_of_cons.
  assert (∀ k, "010"%char ∉ take (S k) (c :: s) → k ≤ length s →
    escape_newlines (take (S k) (c :: s)) ++ sub_from (c :: before) k s
    = c :: s) as Hmatch.
  { intros k Hlf Hk. rewrite escape_newlines_id, IH by
      (try done; try lia; intros Hin; apply Hcr;
       by eapply elem_of_sublist, sublist_take).
    simpl. by rewrite take_drop. }
  destruct skip as [|k]; cbn [sub_from drop];
    [|apply IH; [done|simpl in Hskip; lia]].
  destruct (lookbehind before); [|by rewrite IH by (done || lia)].
  destruct (lazy_until_quote (c :: s)) as [[|k]|] eqn:E;
    [| |by rewrite IH by (done || lia)].
  - apply lazy_until_quote_0 in E as ->.
    destruct (lazy_until_quote s) as [k|] eqn:E';
      [|by rewrite IH by (done || lia)].
    apply lazy_until_quote_run in E' as [Hk Hlf].
    apply Hmatch; [|lia]. simpl. apply not_elem_of_cons. by split.
  - apply lazy_until_quote_run in E as [Hk Hlf].
    apply Hmatch; [done|simpl in Hk; lia].
Qed.

(** X15: the repair pass escapes carriage returns only.  Its pattern is
    compiled without [re.DOTALL], so a string value with a line feed in
    it is never matched: a text without a carriage return comes back
    unchanged, line feeds included. *)
Theorem repair_leaves_line_feeds_alone json_str :
  "013"%char ∉ json_str → fix_json_string json_str = json_str.
Proof.
  intros Hcr. unfold fix_json_string.
  by rewrite sub_from_without_carriage_return by (done || lia).
Qed.

Lemma repair_leaves_line_feeds_alone_witness :
  fix_json_string (lit "[{'reasoning': 'first line$second line'}]")
  = lit "[{'reasoning': 'first line$second line'}]".
Proof.
  apply repair_leaves_line_feeds_alone.
  apply (bool_decide_unpack _). vm_compute. exact I.
Defined.

Lemma parser_returns_the_decoding_of_a_candidate_witness :
  ∃ result,
    extract_json_from_response (loads 1000) (lit "[1, [2] ```json$[3]$```")
    = ret result
    ∧ (result = [] ∨
       ∃ c, c ∈ pattern_candidates (lit "[1, [2] ```json$[3]$```")
                ++ fix_candidate (lit "[1, [2] ```json$[3]$```")
            ∧ decodes_to (loads 1000) c result).
Proof.
  destruct (ParserFacts.parser_returns_the_decoding_of_a_candidate
              (loads 1000)
              (lit "[1, [2] ```json$[3]$```")) as (result & H1 & _ & H2 & _).
  - intros c e Hc%list_elem_of_In. vm_compute in Hc.
    repeat (destruct Hc as [<-|Hc]; [vm_compute; discriminate|]).
    destruct Hc.
  - by exists result.
Defined.

End ParserMore.

(** ** Pages, images and requests *)

Module BookMore.
Import Json Parser Book stdpp.sorting.

Lemma add_new_files_spec image_files files :
  ∃ added,
    add_new_files image_files files = image_files ++ added
    ∧ NoDup added
    ∧ ∀ x, x ∈ added ↔ x ∈ files ∧ x ∉ image_files.
Proof.
  unfold add_new_files. revert image_files.
  induction files as [|f files IH]; intros image_files; simpl.
  - exists []. rewrite app_nil_r. split_and!; [done|constructor|].
    intros x. split; [by intros ?%elem_of_nil|by intros [?%elem_of_nil _]].
  - case_bool_decide as Hf.
    + destruct (IH image_files) as (added & -> & Hnd & Hin).
      exists added. split_and!; [done..|]. intros x. rewrite Hin.
      split; [intros [? ?]; split; [by right|done]|].
      intros [[->|?]%elem_of_cons ?]; done.
    + destruct (IH (image_files ++ [f])) as (added & -> & Hnd & Hin).
      exists (f :: added). split_and!.
      * by rewrite <- (assoc_L (++)).
      * constructor; [|done]. rewrite Hin. intros [_ Hn]. apply Hn.
        apply elem_of_app. right. by left.
      * intros x. split.
        -- intros [->|Hx]%elem_of_cons; [by split; [left|]|].
           apply Hin in Hx as [Hx Hn]. split; [by right|].
           intros Hi. apply Hn, elem_of_app. by left.
        -- intros [[->|Hx]%elem_of_cons Hn]; [by left|].
           destruct (decide (x = f)) as [->|Hxf]; [by left|]. right.
           apply Hin. split; [done|].
           intros [?|?%list_elem_of_singleton]%elem_of_app; done.
Qed.

(** X16: the images of a page.  [find_image_files] returns, in the order
    of their names, every image reference of the page text as often as
    the text has it, and after them once every figure file of the page
    that the text does not reference. *)
Theorem page_images_are_references_and_new_files fs page_filename content :
  let references := findall match_image content in
  let files := figure_files fs (get_page_prefix page_filename) in
  let images := find_image_files fs page_filename content in
  (∃ added,
     images ≡ₚ references ++ added
     ∧ NoDup added
     ∧ ∀ x, x ∈ added ↔ x ∈ files ∧ x ∉ references)
  ∧ (∀ x, x ∈ images ↔ x ∈ references ∨ x ∈ files)
  ∧ (∀ (i j : nat) x y,
       i < j → images !! i = Some x → images !! j = Some y →
       text_compare x y ≠ Gt)
  ∧ length references ≤ length images.
Proof.
  intros references files images.
  destruct (add_new_files_spec references files) as (added & Ha & Hnd & Hin).
  assert (images ≡ₚ references ++ added) as Hperm.
  { unfold images, find_image_files. fold references files.
    by rewrite PyStrFacts.stable_sort_perm, Ha. }
  split_and!.
  - by exists added.
  - intros x. rewrite Hperm, elem_of_app, Hin.
    destruct (decide (x ∈ references)) as [Hx|Hx]; [by split; left|].
    split; (intros [?|?]; [by left|right]); [by destruct H|done].
  - intros i j x y Hij Hx Hy.
    assert (text_le x y = true) as Hle.
    { eapply (OrderFacts.StronglySorted_lookup
                (λ a b, text_le a b = true)); [|done..].
      apply OrderFacts.stable_sort_sorted;
        [apply OrderFacts.text_le_total|apply OrderFacts.text_le_trans]. }
    unfold text_le in Hle. by destruct (text_compare x y).
  - rewrite Hperm, length_app. lia.
Qed.

Lemma count_markdown_images_cons p pages :
  count_markdown_images (p :: pages)
  = length (findall match_image (content p)) + count_markdown_images pages.
Proof.
  unfold count_markdown_images. simpl. apply BookFacts.foldl_add_shift.
Qed.

(** X17: the pages of a book follow its files.  [load_book_content]
    gives one page for every file that can be read, in the order of the
    files, with the page number and the images of that file; and the
    number of image references in the page texts never exceeds the number
    of images counted. *)
Theorem pages_follow_the_files fs md_files :
  let pages := load_book_content fs md_files in
  md_file <$> pages = filter (λ f, is_Some (read_text fs f)) md_files
  ∧ (∀ p, p ∈ pages →
       read_text fs (md_file p) = Some (content p)
       ∧ page_number p = Grouper.get_page_number (md_file p)
       ∧ page_name p = stem (md_file p)
       ∧ available_images p = find_image_files fs (md_file p) (content p))
  ∧ count_markdown_images pages ≤ count_images pages.
Proof.
  intros pages. subst pages. unfold load_book_content. split_and!.
  - induction md_files as [|f md_files IH]; [done|].
    cbn [omap list_omap]. rewrite filter_cons. unfold load_page_content at 1.
    destruct (read_text fs f) as [c|] eqn:E.
    + rewrite decide_True by done. simpl. f_equal. apply IH.
    + rewrite decide_False by (by intros []). apply IH.
  - intros p (f & Hf & Hp)%list_elem_of_omap. unfold load_page_content in Hp.
    destruct (read_text fs f) as [c|] eqn:E; [|done].
    simpl in Hp. by injection Hp as <-.
  - induction md_files as [|f md_files IH]; [done|].
    cbn [omap list_omap].
    destruct (load_page_content fs f) as [p|] eqn:E; [|apply IH].
    rewrite count_markdown_images_cons, BookFacts.count_images_cons.
    assert (length (findall match_image (content p))
            ≤ length (available_images p)) as Hlen.
    { unfold load_page_content in E.
      destruct (read_text fs f) as [c|]; [|done].
      simpl in E. injection E as <-. simpl.
      apply (page_images_are_references_and_new_files fs f c). }
    apply Nat.add_le_mono; [exact Hlen|exact IH].
Qed.

Lemma lookup_dict_set_eq k v members :
  head (filter (λ m, m.1 = k) (dict_set k v members)) = Some (k, v).
Proof.
  induction members as [|[k' v'] members IH]; simpl.
  - by rewrite filter_cons, decide_True.
  - case_bool_decide as E.
    + by rewrite filter_cons, decide_True.
    + rewrite filter_cons, decide_False by (simpl; congruence). apply IH.
Qed.

Lemma lookup_dict_set_ne k k' v members :
  k ≠ k' →
  filter (λ m, m.1 = k') (dict_set k v members)
  = filter (λ m, m.1 = k') members.
Proof.
  intros Hne. induction members as [|[k0 v0] members IH]; simpl.
  - by rewrite filter_cons, decide_False.
  - case_bool_decide as E.
    + subst k0. by rewrite !filter_cons, !decide_False.
    + by rewrite !filter_cons, IH.
Qed.

Lemma set_book_id_spec book_id a a' :
  set_book_id book_id a = Some a' →
  (∃ members, a = JObject members)
  ∧ get "book_id" a' = Some (JString (code_points book_id))
  ∧ ∀ key, code_points (txt key) ≠ code_points (txt "book_id") →
           get key a' = get key a.
Proof.
  destruct a as [| | | | | |members]; try done. intros [= <-].
  split_and!; [by eexists| |].
  - unfold get. by rewrite lookup_dict_set_eq.
  - intros key Hkey. unfold get. by rewrite lookup_dict_set_ne.
Qed.

Section Oracle.

Variable oracle : text → list page_info → option text.
Variable json_loads : text → outcome json.

Lemma analyze_book_portraits_requests book_id pages :
  (analyze_book_portraits oracle json_loads book_id pages).2
  = [(book_id, pages)].
Proof.
  unfold analyze_book_portraits.
  destruct (oracle book_id pages) as [response_text|]; [|done].
  destruct (extract_json_from_response _ _) as [e|data]; [done|].
  by destruct (mapM _ data).
Qed.

(** X18: what [analyze_book_portraits] returns.  It sends one request.
    Every association it returns is an object of the decoded list with
    the book id written into it, in place of a book id the reply may
    carry; the other entries are kept.  When one element of the decoded
    list is not an object, no association is returned at all. *)
Theorem associations_carry_the_book_id book_id pages :
  let outcome := analyze_book_portraits oracle json_loads book_id pages in
  outcome.2 = [(book_id, pages)]
  ∧ (∀ a', a' ∈ outcome.1 →
       get "book_id" a' = Some (JString (code_points book_id)))
  ∧ (∀ response_text data,
       oracle book_id pages = Some response_text →
       extract_json_from_response json_loads response_text = ret data →
       (Forall (λ a, ∃ members, a = JObject members) data →
        Forall2 (λ a a', ∀ key,
                   code_points (txt key) ≠ code_points (txt "book_id") →
                   get key a' = get key a) data outcome.1)
       ∧ (¬ Forall (λ a, ∃ members, a = JObject members) data →
          outcome.1 = [])).
Proof.
  intros outcome. subst outcome. unfold analyze_book_portraits.
  split_and!.
  - apply analyze_book_portraits_requests.
  - intros a'. destruct (oracle book_id pages) as [response_text|];
      [|by intros ?%elem_of_nil].
    destruct (extract_json_from_response _ _) as [e|data];
      [by intros ?%elem_of_nil|].
    destruct (mapM _ data) as [associations|] eqn:E;
      [|by intros ?%elem_of_nil].
    simpl. intros Ha'. apply mapM_Some in E.
    apply list_elem_of_lookup in Ha' as [i Hi].
    destruct (Forall2_lookup_r _ _ _ _ _ E Hi) as (a & _ & Ha).
    by apply set_book_id_spec in Ha as (_ & ? & _).
  - intros response_text data -> ->. simpl.
    destruct (mapM (set_book_id book_id) data) as [associations|] eqn:E.
    + split.
      * intros _. apply mapM_Some in E. simpl.
        eapply Forall2_impl; [exact E|]. intros a a' Ha key.
        apply set_book_id_spec in Ha as (_ & _ & Hkeys). apply Hkeys.
      * intros Hnot. destruct Hnot. apply mapM_Some in E.
        apply Forall_forall. intros a [i Hi]%list_elem_of_lookup.
        destruct (Forall2_lookup_l _ _ _ _ _ E Hi) as (a' & _ & Ha).
        by apply set_book_id_spec in Ha as (? & _ & _).
    + split; [|done]. intros Hall. exfalso.
      assert (is_Some (mapM (set_book_id book_id) data)) as [? ?];
        [|congruence].
      apply mapM_is_Some. eapply Forall_impl; [exact Hall|].
      intros a [members ->]. by eexists.
Qed.

Lemma process_book_requests fs book_id md_files :
  let pages := load_book_content fs md_files in
  (process_book oracle json_loads fs book_id md_files).2
  = if bool_decide (count_images pages = 0) then []
    else [(book_id, pages)].
Proof.
  intros pages. unfold process_book. fold pages.
  clearbody pages. destruct pages as [|p0 pages']; [done|].
  cbv iota. set (pages := p0 :: pages').
  pose proof (analyze_book_portraits_requests book_id pages) as Hreq.
  destruct (analyze_book_portraits oracle json_loads book_id pages)
    as [associations requests]. simpl in Hreq. subst requests.
  destruct (Nat.eqb_spec (count_images pages) 0) as [E|E].
  - by rewrite bool_decide_eq_true_2.
  - by rewrite bool_decide_eq_false_2.
Qed.

(** X19: a book with an image is sent to the service exactly once.
    [process_book] sends no request or one; it sends one exactly when
    some page that was loaded has an image, and the request then carries
    all the pages that were loaded, in their order. *)
Theorem book_with_images_is_sent_once fs book_id md_files :
  let pages := load_book_content fs md_files in
  let outcome := process_book oracle json_loads fs book_id md_files in
  (outcome.2 = [] ∨ outcome.2 = [(book_id, pages)])
  ∧ (outcome.2 = [(book_id, pages)]
     ↔ ∃ p, p ∈ pages ∧ available_images p ≠ [])
  ∧ (outcome.2 = [] ↔ ∀ p, p ∈ pages → available_images p = []).
Proof.
  intros pages outcome. subst outcome.
  rewrite process_book_requests. fold pages.
  pose proof (BookFacts.count_images_zero pages) as Hzero.
  case_bool_decide as E.
  - split_and!; [by left| |by rewrite <- Hzero].
    split; [done|]. intros (p & Hp & Hne). by apply Hzero in Hp.
  - split_and!; [by right| |].
    + split; [|done]. intros _. by apply BookFacts.count_images_pos.
    + split; [done|]. intros Hnone. destruct E. by apply Hzero.
Qed.

End Oracle.

End BookMore.

(** ** The retry pass and the portrait table *)

Module MergeMore.
Import Merge.

Local Open Scope string_scope.

Lemma key_matches_missing f r :
  r !! "name" = None ∨ r !! "book_id" = None
  ∨ f !! "name" = None ∨ f !! "book_id" = None →
  key_matches f r = false.
Proof.
  unfold key_matches, same.
  intros [-> | [-> | [-> | ->]]]; repeat case_match; try done;
    by rewrite ?andb_false_r.
Qed.

(** X20: a missing key matches nothing in the retry pass.  A base row
    without a name or without a book id comes out of the pass as it was,
    whatever the retry frame holds, and a retry frame whose rows all lack
    a name or a book id changes no row. *)
Theorem missing_key_is_never_matched df_main df_failed df_merged :
  update_main df_main df_failed = ret df_merged →
  (∀ (i : nat) r,
     rows df_main !! i = Some r →
     r !! "name" = None ∨ r !! "book_id" = None →
     rows df_merged !! i = Some r)
  ∧ ((∀ f, f ∈ rows df_failed →
        f !! "name" = None ∨ f !! "book_id" = None) →
     rows df_merged = rows df_main).
Proof.
  intros [_ Hrows]%MergeFacts.update_main_rows. rewrite Hrows. split.
  - intros i r Hi Hkey. rewrite MergeFacts.lookup_update_all, Hi. simpl.
    f_equal. apply MergeFacts.update_steps_no_match.
    intros f _. apply key_matches_missing. tauto.
  - intros Hfailed. apply list_eq. intros i.
    rewrite MergeFacts.lookup_update_all.
    destruct (rows df_main !! i) as [r|]; [|done]. simpl. f_equal.
    apply MergeFacts.update_steps_no_match.
    intros f Hf. apply key_matches_missing. specialize (Hfailed f Hf). tauto.
Qed.

Lemma missing_key_is_never_matched_witness :
  ∃ df_merged,
    update_main
      (Frame base_columns [row_of None (Some "B1") (Some "c") (Some "Y")])
      (Frame base_columns [row_of None (Some "B1") (Some "c") (Some "Z")])
    = ret df_merged
    ∧ rows df_merged
      = [row_of None (Some "B1") (Some "c") (Some "Y")].
Proof.
  eexists. split; [reflexivity|].
  eapply (missing_key_is_never_matched
            (Frame base_columns
               [row_of None (Some "B1") (Some "c") (Some "Y")])
            (Frame base_columns
               [row_of None (Some "B1") (Some "c") (Some "Z")]));
    [reflexivity|].
  intros f [->|[]%elem_of_nil]%elem_of_cons. by left.
Defined.

Lemma last_match (fs : list (gmap string string)) r :
  (∀ f, f ∈ fs → key_matches f r = false)
  ∨ ∃ (k : nat) f, fs !! k = Some f ∧ key_matches f r = true
      ∧ ∀ j f', k < j → fs !! j = Some f' → key_matches f' r = false.
Proof.
  induction fs as [|f fs IH] using rev_ind.
  - left. by intros f ?%elem_of_nil.
  - destruct (key_matches f r) eqn:E.
    + right. exists (length fs), f. split_and!; [|done|].
      * by rewrite lookup_app_r, Nat.sub_diag by lia.
      * intros j f' Hj Hf'. apply lookup_lt_Some in Hf'.
        rewrite length_app in Hf'. simpl in Hf'. lia.
    + destruct IH as [IH|(k & f0 & Hk & Hm & Hlater)].
      * left. intros f' [?|Hf'%list_elem_of_singleton]%elem_of_app;
          [by apply IH|by subst].
      * right. exists k, f0. split_and!; [|done|].
        -- rewrite lookup_app_l; [done|]. by apply lookup_lt_Some in Hk.
        -- intros j f' Hj Hf'.
           destruct (decide (j < length fs)) as [Hlt|Hge].
           ++ rewrite lookup_app_l in Hf' by done. by eapply Hlater.
           ++ rewrite lookup_app_r in Hf' by lia.
              destruct (j - length fs) as [|n]; [|done].
              by injection Hf' as <-.
Qed.

Lemma update_steps_twice fc mc fs r :
  foldl (update_step fc mc) (foldl (update_step fc mc) r fs) fs
  = foldl (update_step fc mc) r fs.
Proof.
  set (r' := foldl (update_step fc mc) r fs).
  assert (∀ f, key_matches f r' = key_matches f r) as Hkey.
  { intros f. apply MergeFacts.key_matches_row_key.
    apply MergeFacts.update_steps_key. }
  destruct (last_match fs r) as [Hnone|(k & f & Hk & Hm & Hlater)].
  - apply MergeFacts.update_steps_no_match. intros f Hf.
    rewrite Hkey. by apply Hnone.
  - apply map_eq. intros c.
    rewrite (MergeFacts.update_steps_last_match fc mc fs r' k f c);
      [|done|by rewrite Hkey|].
    + unfold r'.
      rewrite (MergeFacts.update_steps_last_match fc mc fs r k f c)
        by done.
      by case_bool_decide.
    + intros j f' Hj Hf'. rewrite Hkey. by eapply Hlater.
Qed.

(** X21: the retry pass can be repeated.  Run again with the same retry
    frame on its own result, it returns that result unchanged. *)
Theorem retry_pass_is_idempotent df_main df_failed df_merged :
  update_main df_main df_failed = ret df_merged →
  update_main df_merged df_failed = ret df_merged.
Proof.
  intros H. pose proof H as [Hcols Hrows]%MergeFacts.update_main_rows.
  destruct df_merged as [cols merged]. simpl in Hcols, Hrows. subst cols.
  assert (foldl (update_from (columns df_failed) (columns df_main))
            merged (rows df_failed) = merged) as Hagain.
  { apply list_eq. intros i.
    rewrite MergeFacts.lookup_update_all, Hrows,
      MergeFacts.lookup_update_all.
    destruct (rows df_main !! i) as [r|]; [|done]. simpl. f_equal.
    apply update_steps_twice. }
  unfold update_main in *. cbn [columns rows].
  destruct (rows df_failed) as [|f fs]; [done|].
  unfold require in *. repeat case_bool_decide; try done.
  cbn [bind ret]. by rewrite Hagain.
Qed.

Lemma retry_pass_is_idempotent_witness :
  update_main
    (Frame base_columns [row_of (Some "X") (Some "B1") (Some "c") (Some "Y")])
    (Frame base_columns [row_of (Some "X") (Some "B1") (Some "c") (Some "Y")])
  = ret (Frame base_columns
           [row_of (Some "X") (Some "B1") (Some "c") (Some "Y")]).
Proof.
  apply (retry_pass_is_idempotent
    (Frame base_columns [row_of (Some "X") (Some "B1") (Some "c") None])).
  vm_compute. reflexivity.
Defined.

Lemma elem_of_outer_merge single next mp :
  mp ∈ outer_merge single next ↔
  (∃ p, p ∈ single
        ∧ ((filter (λ q, key_of q = key_of p) next = []
            ∧ mp = MergedPortrait (p_name p) (p_book_id p)
                     (image_filename p) None)
           ∨ ∃ q, q ∈ next ∧ key_of q = key_of p
                  ∧ mp = MergedPortrait (p_name p) (p_book_id p)
                           (image_filename p) (image_filename q)))
  ∨ (∃ q, q ∈ next ∧ ¬ (key_of q ∈ key_of <$> single)
          ∧ mp = MergedPortrait (p_name q) (p_book_id q) None
                   (image_filename q)).
Proof.
  unfold outer_merge. rewrite PyStrFacts.stable_sort_perm, elem_of_app.
  apply Morphisms_Prop.or_iff_morphism.
  - rewrite list_elem_of_bind. apply exist_proper. intros p.
    rewrite (comm and (mp ∈ _)). apply and_iff_compat_l.
    destruct (filter (λ q, key_of q = key_of p) next) as [|q0 qs] eqn:E.
    + rewrite list_elem_of_singleton. split; [by left; split|].
      intros [[_ ?]|(q & Hq & Hk & _)]; [done|].
      assert (q ∈ filter (λ q, key_of q = key_of p) next) as Hin
        by (by apply list_elem_of_filter).
      rewrite E in Hin. by apply elem_of_nil in Hin.
    + rewrite <- E, list_elem_of_fmap. split.
      * intros (q & -> & [Hk Hq]%list_elem_of_filter). right. by exists q.
      * intros [[Hnil _]|(q & Hq & Hk & ->)]; [by rewrite E in Hnil|].
        exists q. split; [done|]. by apply list_elem_of_filter.
  - rewrite list_elem_of_fmap. apply exist_proper. intros q.
    rewrite list_elem_of_filter. tauto.
Qed.

(** X22: the portrait table of the merge.  The file name of the
    next-page table takes precedence, and a missing one never replaces a
    file name of the single-page table: every row of the merged table has
    the file name of a next-page row with its key that has one, or, when
    there is no such row, the file name of a single-page row with its
    key.  Every key of the single-page table and every next-page row
    with a file name is in the merged table. *)
Theorem next_page_portrait_takes_precedence single next_page :
  let merged := merged_portraits single next_page in
  (∀ m, m ∈ merged →
     (∃ q, q ∈ next_page ∧ key_of q = key_of m
           ∧ is_Some (image_filename q)
           ∧ image_filename m = image_filename q)
     ∨ ((∀ q, q ∈ next_page → key_of q = key_of m →
              image_filename q = None)
        ∧ ∃ p, p ∈ single ∧ key_of p = key_of m
               ∧ image_filename m = image_filename p))
  ∧ (∀ p, p ∈ single → ∃ m, m ∈ merged ∧ key_of m = key_of p)
  ∧ (∀ q, q ∈ next_page → is_Some (image_filename q) →
          ∃ m, m ∈ merged ∧ key_of m = key_of q
               ∧ image_filename m = image_filename q).
Proof.
  intros merged. subst merged. unfold merged_portraits.
  set (next := notnull next_page).
  assert (∀ q, q ∈ next ↔ q ∈ next_page ∧ is_Some (image_filename q))
    as Hnext.
  { intros q. unfold next, notnull. rewrite list_elem_of_filter. tauto. }
  split_and!.
  - intros m (mp & -> & Hmp)%list_elem_of_fmap.
    apply elem_of_outer_merge in Hmp
      as [(p & Hp & [[Hnil ->]|(q & Hq & Hk & ->)])|(q & Hq & _ & ->)].
    + right. split; [|by exists p]. intros q Hq Hk.
      destruct (image_filename q) as [img|] eqn:Hi; [|done].
      assert (q ∈ filter (λ q, key_of q = key_of p) next) as Hin.
      { apply list_elem_of_filter. split; [done|]. apply Hnext.
        by rewrite Hi. }
      rewrite Hnil in Hin. by apply elem_of_nil in Hin.
    + left. apply Hnext in Hq as [Hq [img Hi]].
      exists q. split_and!; [done..| |].
      * by rewrite Hi.
      * unfold combine_first. simpl. by rewrite Hi.
    + left. apply Hnext in Hq as [Hq [img Hi]].
      exists q. split_and!; [done..| |].
      * by rewrite Hi.
      * unfold combine_first. simpl. by rewrite Hi.
  - intros p Hp.
    destruct (filter (λ q, key_of q = key_of p) next) as [|q qs] eqn:E.
    + exists (combine_first (MergedPortrait (p_name p) (p_book_id p)
                               (image_filename p) None)).
      split; [|done]. apply list_elem_of_fmap_2, elem_of_outer_merge.
      left. exists p. split; [done|]. by left.
    + assert (q ∈ filter (λ q, key_of q = key_of p) next) as Hq
        by (rewrite E; by left).
      apply list_elem_of_filter in Hq as [Hk Hq].
      exists (combine_first (MergedPortrait (p_name p) (p_book_id p)
                               (image_filename p) (image_filename q))).
      split; [|done]. apply list_elem_of_fmap_2, elem_of_outer_merge.
      left. exists p. split; [done|]. right. by exists q.
  - intros q Hq [img Hi].
    assert (q ∈ next) as Hqn by (apply Hnext; by rewrite Hi).
    destruct (decide (key_of q ∈ key_of <$> single)) as [Hin|Hout].
    + apply list_elem_of_fmap in Hin as (p & Hk & Hp).
      exists (combine_first (MergedPortrait (p_name p) (p_book_id p)
                               (image_filename p) (image_filename q))).
      split_and!.
      * apply list_elem_of_fmap_2, elem_of_outer_merge.
        left. exists p. split; [done|]. right. by exists q.
      * by rewrite Hk.
      * unfold combine_first. simpl. by rewrite Hi.
    + exists (combine_first (MergedPortrait (p_name q) (p_book_id q) None
                               (image_filename q))).
      split_and!; [|done|].
      * apply list_elem_of_fmap_2, elem_of_outer_merge. right. by exists q.
      * unfold combine_first. simpl. by rewrite Hi.
Qed.

End MergeMore.

(** ** Processing a directory *)

Module InputFacts.
Import Json Parser Book Input.

Lemma assign_new {V} k (v : V) d :
  k ∉ d.*1 → assign k v d = d ++ [(k, v)].
Proof.
  induction d as [|[k' v'] d IH]; [done|]. simpl.
  intros [Hk Hd]%not_elem_of_cons.
  by rewrite bool_decide_eq_false_2, IH.
Qed.

Lemma filter_none {A} (P : A → Prop) `{∀ x, Decision (P x)} (l : list A) :
  (∀ x, x ∈ l → ¬ P x) → filter P l = [].
Proof.
  intros Hl. destruct (filter P l) as [|x xs] eqn:E; [done|].
  assert (x ∈ filter P l) as [Hx Hin]%list_elem_of_filter
    by (rewrite E; by left).
  by apply Hl in Hin.
Qed.

Lemma first_seen_spec seen ids :
  NoDup (first_seen seen ids)
  ∧ ∀ b, b ∈ first_seen seen ids ↔ b ∈ ids ∧ b ∉ seen.
Proof.
  revert seen. induction ids as [|b0 ids IH]; intros seen; simpl.
  - split; [constructor|]. intros b.
    split; [by intros ?%elem_of_nil|by intros [?%elem_of_nil _]].
  - case_bool_decide as Hb.
    + destruct (IH seen) as [Hnd Hin]. split; [done|].
      intros b. rewrite Hin, elem_of_cons. split; [tauto|].
      intros [[->|?] ?]; done.
    + destruct (IH (b0 :: seen)) as [Hnd Hin]. split.
      * constructor; [|done]. rewrite Hin, not_elem_of_cons. tauto.
      * intros b. rewrite !elem_of_cons, Hin, not_elem_of_cons.
        destruct (decide (b = b0)) as [->|]; tauto.
Qed.

Lemma items_keys md_files :
  (items md_files).*1 = first_seen [] (Grouper.get_book_id <$> md_files).
Proof.
  unfold items. rewrite <- list_fmap_compose. apply list_fmap_id.
Qed.

Section Run.

Variable oracle : text → list page_info → option text.
Variable json_loads : text → outcome json.
Variable fs : file_system.
Variable out : output_dir.
Variable skip_existing : bool.

Local Abbreviation process_one :=
  (process_one oracle json_loads fs out skip_existing).
Local Abbreviation status_of :=
  (status_of oracle json_loads fs out skip_existing).
Local Abbreviation is_skipped := (is_skipped out skip_existing).
Local Abbreviation raises := (raises oracle json_loads fs out skip_existing).
Local Abbreviation is_processed :=
  (is_processed oracle json_loads fs out skip_existing).
Local Abbreviation requests_of :=
  (requests_of oracle json_loads fs out skip_existing).

Lemma process_one_spec acc book :
  book.1 ∉ (books_status acc).*1 →
  process_one acc book
  = Progress
      (books_status acc ++ [(book.1, status_of book)])
      (processed_books acc ++ (if is_processed book then [book.1] else []))
      (skipped_books acc ++ (if is_skipped book then [book.1] else []))
      (requests_sent acc ++ requests_of book)
      (saved acc ++ (if bool_decide (status_of book = newly_processed)
                     then [book.1] else [])).
Proof.
  intros Hnew. destruct book as [book_id md_files]. simpl in Hnew.
  unfold Input.process_one, Input.status_of, Input.is_processed,
    Input.raises, Input.requests_of, Input.is_skipped. simpl.
  rewrite !assign_new by done.
  destruct (skip_existing && output_exists out book_id); simpl.
  { by destruct (loads_as_dict out book_id); rewrite !app_nil_r. }
  destruct (process_book_or_raise oracle json_loads fs book_id md_files)
    as [[e|r] requests]; simpl.
  - by rewrite !app_nil_r.
  - by destruct (save_raises out book_id); simpl; rewrite ?app_nil_r.
Qed.

Lemma foldl_process_one books acc :
  NoDup books.*1 →
  (∀ b, b ∈ books.*1 → b ∉ (books_status acc).*1) →
  foldl process_one acc books
  = Progress
      (books_status acc ++ ((λ book, (book.1, status_of book)) <$> books))
      (processed_books acc ++ (filter (λ b, is_processed b = true) books).*1)
      (skipped_books acc ++ (filter (λ b, is_skipped b = true) books).*1)
      (requests_sent acc ++ (books ≫= requests_of))
      (saved acc
       ++ (filter (λ b, status_of b = newly_processed) books).*1).
Proof.
  revert acc. induction books as [|book books IH]; intros acc Hnd Hnew.
  { simpl. rewrite !app_nil_r. by destruct acc. }
  apply NoDup_cons in Hnd as [Hb Hnd]. cbn [foldl].
  rewrite process_one_spec by (apply Hnew; by left).
  rewrite IH; [|done|].
  - simpl. rewrite !filter_cons, <- !(assoc_L (++)). f_equal.
    + f_equal. by destruct (is_processed book);
        [rewrite decide_True by done|rewrite decide_False by done].
    + f_equal. by destruct (is_skipped book);
        [rewrite decide_True by done|rewrite decide_False by done].
    + f_equal. case_bool_decide; [by rewrite decide_True|].
      by rewrite decide_False.
  - intros b Hin. simpl. rewrite fmap_app, not_elem_of_app. split.
    + apply Hnew. by right.
    + simpl. intros ->%list_elem_of_singleton. done.
Qed.

Lemma process_book_or_raise_requests book_id md_files :
  (process_book_or_raise oracle json_loads fs book_id md_files).2
  = (process_book oracle json_loads fs book_id md_files).2.
Proof.
  unfold process_book_or_raise.
  destruct (process_book oracle json_loads fs book_id md_files)
    as [[b|b n|b a] requests]; try done.
  by destruct (existsb confidence_raises (associations a)).
Qed.

Lemma requests_of_book book r :
  r ∈ requests_of book → r.1 = book.1 ∧ is_skipped book = false.
Proof.
  unfold Input.requests_of. destruct (is_skipped book);
    [by intros ?%elem_of_nil|].
  rewrite process_book_or_raise_requests,
    (BookMore.process_book_requests oracle json_loads).
  case_bool_decide; [by intros ?%elem_of_nil|].
  by intros ->%list_elem_of_singleton.
Qed.

Lemma process_input_progress page_dir_exists md_files p s :
  process_input oracle json_loads fs out skip_existing page_dir_exists
    md_files = Results p s →
  let books := items md_files in
  p = Progress
        ((λ book, (book.1, status_of book)) <$> books)
        (filter (λ b, is_processed b = true) books).*1
        (filter (λ b, is_skipped b = true) books).*1
        (books ≫= requests_of)
        (filter (λ b, status_of b = newly_processed) books).*1
  ∧ s = ProcessingSummary (length books)
          (length (processed_books p)) (length (skipped_books p))
          (length (filter (λ b, b.2 = error) (books_status p))).
Proof.
  unfold process_input. destruct (negb page_dir_exists); [done|].
  intros H. set (books := items md_files) in *.
  assert (foldl process_one (Progress [] [] [] [] []) books
          = Progress
              ((λ book, (book.1, status_of book)) <$> books)
              (filter (λ b, is_processed b = true) books).*1
              (filter (λ b, is_skipped b = true) books).*1
              (books ≫= requests_of)
              (filter (λ b, status_of b = newly_processed) books).*1)
    as Hfold.
  { rewrite foldl_process_one; [done| |by intros b _ ?%elem_of_nil].
    unfold books. rewrite items_keys. apply first_seen_spec. }
  destruct books as [|book books'] eqn:E; [done|].
  rewrite Hfold in H. by injection H as <- <-.
Qed.

Lemma elem_of_items book md_files :
  book ∈ items md_files → book.1 ∈ Grouper.get_book_id <$> md_files.
Proof.
  intros Hin. apply (list_elem_of_fmap_2 fst) in Hin.
  rewrite items_keys in Hin. by apply first_seen_spec in Hin as [? _].
Qed.

Lemma items_elem_of book_id md_files :
  book_id ∈ Grouper.get_book_id <$> md_files →
  ∃ files, (book_id, files) ∈ items md_files.
Proof.
  intros Hin.
  assert (book_id ∈ (items md_files).*1) as Hk.
  { rewrite items_keys. apply first_seen_spec. split; [done|].
    apply not_elem_of_nil. }
  apply list_elem_of_fmap in Hk as ([b files] & -> & Hb). by exists files.
Qed.

Lemma items_key_unique md_files book book' :
  book ∈ items md_files → book' ∈ items md_files → book.1 = book'.1 →
  book = book'.
Proof.
  unfold items. intros (b & -> & _)%list_elem_of_fmap
    (b' & -> & _)%list_elem_of_fmap. simpl. by intros ->.
Qed.

(** X25: a book whose result file exists is not processed again.  With
    [skip_existing], such a book is put on the list of skipped books and
    gets the status of a skipped book; it is not handed to
    [process_book], no request is sent for it and no file is written for
    it.  Without [skip_existing] no book is skipped. *)
Theorem existing_result_is_not_processed_again
    page_dir_exists md_files p s :
  process_input oracle json_loads fs out skip_existing page_dir_exists
    md_files = Results p s →
  (skip_existing = false → skipped_books p = [])
  ∧ (∀ book_id,
       book_id ∈ Grouper.get_book_id <$> md_files →
       skip_existing = true → output_exists out book_id = true →
       book_id ∈ skipped_books p
       ∧ ¬ (book_id ∈ processed_books p)
       ∧ ¬ (book_id ∈ saved p)
       ∧ (∀ r, r ∈ requests_sent p → r.1 ≠ book_id)
       ∧ (book_id,
          if loads_as_dict out book_id then skipped_existing
          else skipped_error) ∈ books_status p).
Proof.
  intros [-> _]%process_input_progress. simpl. split.
  - intros Hskip.
    rewrite filter_none; [done|]. intros book _.
    unfold Input.is_skipped. by rewrite Hskip.
  - intros book_id Hin Hskip Hexists.
    destruct (items_elem_of _ _ Hin) as [files Hbook].
    assert (is_skipped (book_id, files) = true) as Hs.
    { unfold Input.is_skipped. simpl. by rewrite Hskip, Hexists. }
    assert (∀ book, book ∈ items md_files → book.1 = book_id →
              is_skipped book = true) as Hall.
    { intros book Hb Heq.
      by rewrite (items_key_unique md_files book (book_id, files)). }
    split_and!.
    + apply (list_elem_of_fmap_2' fst _ (book_id, files)); [|done].
      by apply list_elem_of_filter.
    + intros (book & Heq & [Hp Hb]%list_elem_of_filter)%list_elem_of_fmap.
      unfold Input.is_processed in Hp. by rewrite (Hall book) in Hp.
    + intros (book & Heq & [Hp Hb]%list_elem_of_filter)%list_elem_of_fmap.
      unfold Input.status_of in Hp. rewrite (Hall book) in Hp by done.
      by destruct (loads_as_dict out book.1).
    + intros r (book & Hr & Hb)%list_elem_of_bind Heq.
      apply requests_of_book in Hr as [Hid Hns].
      rewrite (Hall book) in Hns; [done..|congruence].
    + apply list_elem_of_fmap. exists (book_id, files). split; [|done].
      unfold Input.status_of. by rewrite Hs.
Qed.

Lemma count_books books :
  length books
  + length (filter (λ b, save_raises out b = true)
              (filter (λ b, is_processed b = true) books).*1)
  = length (filter (λ b, is_processed b = true) books)
    + length (filter (λ b, is_skipped b = true) books)
    + length (filter (λ b : text * status, b.2 = error)
                ((λ book, (book.1, status_of book)) <$> books)).
Proof.
  induction books as [|book books IH]; [done|].
  unfold Input.status_of, Input.is_processed in *.
  rewrite fmap_cons, !filter_cons. cbn [snd].
  destruct (is_skipped book), (raises book),
    (save_raises out book.1) eqn:Es, (loads_as_dict out book.1);
    repeat (first [ rewrite decide_True by done
                  | rewrite decide_False by done
                  | rewrite fmap_cons
                  | rewrite filter_cons
                  | rewrite Es ]);
    cbn [length]; lia.
Qed.

(** X26: the summary of [process_input].  Every book has one status, in
    the order in which the books were first met.  A book is counted as
    skipped, as newly processed, or, when [process_book] raised for it,
    as neither; a book whose result could not be saved counts as newly
    processed and as an error at once.  So the three counts add up to
    the number of books plus the number of results that could not be
    saved. *)
Theorem summary_counts_every_book page_dir_exists md_files p s :
  process_input oracle json_loads fs out skip_existing page_dir_exists
    md_files = Results p s →
  (books_status p).*1 = first_seen [] (Grouper.get_book_id <$> md_files)
  ∧ NoDup (books_status p).*1
  ∧ total_books s = length (books_status p)
  ∧ total_books s
    + length (filter (λ b, save_raises out b = true) (processed_books p))
    = count_newly_processed s + count_skipped_existing s + errors s
  ∧ (∀ b, b ∈ saved p ↔ (b, newly_processed) ∈ books_status p).
Proof.
  intros [-> ->]%process_input_progress. simpl.
  assert (((λ book, (book.1, status_of book)) <$> items md_files).*1
          = first_seen [] (Grouper.get_book_id <$> md_files)) as Hkeys.
  { rewrite <- list_fmap_compose, <- items_keys. done. }
  split_and!.
  - done.
  - rewrite Hkeys. apply first_seen_spec.
  - by rewrite length_fmap.
  - rewrite !length_fmap. apply count_books.
  - intros b. rewrite !list_elem_of_fmap. split.
    + intros (book & -> & [Hs Hb]%list_elem_of_filter).
      exists book. by rewrite Hs.
    + intros (book & [= -> Hs] & Hb). exists book. split; [done|].
      by apply list_elem_of_filter.
Qed.

(** X27: a confidence that is not a number fails the book.
    [process_book] raises exactly when the associations it got hold one
    whose [confidence] is neither a number nor a truth value; the
    exception is [TypeError], and it comes after the request for the book
    has been sent.  A book without images never raises. *)
Theorem confidence_that_is_no_number_fails_the_book book_id md_files :
  let pages := load_book_content fs md_files in
  let associations :=
    (analyze_book_portraits oracle json_loads book_id pages).1 in
  let outcome := process_book_or_raise oracle json_loads fs book_id md_files in
  (∀ e, outcome.1 = raise e →
        e = TypeError ∧ outcome.2 = [(book_id, pages)])
  ∧ ((∃ e, outcome.1 = raise e)
     ↔ count_images pages ≠ 0
       ∧ ∃ a v, a ∈ associations ∧ get "confidence" a = Some v
                ∧ is_number v = false).
Proof.
  intros pages associations outcome. subst associations outcome.
  assert (∀ l, existsb confidence_raises l = true
               ↔ ∃ a v, a ∈ l ∧ get "confidence" a = Some v
                        ∧ is_number v = false) as Hex.
  { intros l. rewrite existsb_exists. split.
    - intros (a & Ha%list_elem_of_In & Hc). unfold confidence_raises in Hc.
      destruct (get "confidence" a) as [v|] eqn:Hv; [|done].
      exists a, v. split_and!; [done..|]. by apply negb_true_iff.
    - intros (a & v & Ha & Hv & Hn). exists a.
      split; [by apply list_elem_of_In|].
      unfold confidence_raises. by rewrite Hv, Hn. }
  unfold process_book_or_raise, process_book. fold pages.
  clearbody pages. destruct pages as [|p0 pages'].
  { simpl. split; [done|]. split; [by intros [e ?]|by intros [? _]]. }
  cbv iota. set (pages := p0 :: pages') in *.
  pose proof (BookMore.analyze_book_portraits_requests oracle json_loads
                book_id pages) as Hreq.
  destruct (analyze_book_portraits oracle json_loads book_id pages)
    as [associations requests]. simpl in Hreq. subst requests.
  cbn [fst].
  destruct (Nat.eqb_spec (count_images pages) 0) as [E|E]; simpl.
  { split; [done|]. split; [by intros [e ?]|by intros [? _]]. }
  destruct (existsb confidence_raises associations) eqn:Hc; simpl.
  - split; [by intros e [= <-]|]. split; [|by eexists].
    intros _. split; [done|]. by apply Hex.
  - split; [done|]. split; [by intros [e ?]|].
    intros [_ Hsome]. apply Hex in Hsome. congruence.
Qed.

End Run.

Lemma existing_result_is_not_processed_again_witness :
  ∃ p s,
    process_input (λ _ _, None) (loads 1000) one_plain_page
      (OutputDir (λ _, true) (λ _, true) (λ _, false)) true true
      [txt "b_0001.md"]
    = Results p s
    ∧ txt "b_0001" ∈ skipped_books p.
Proof.
  eexists _, _. split; [vm_compute; reflexivity|].
  eapply (existing_result_is_not_processed_again (λ _ _, None) (loads 1000)
            one_plain_page (OutputDir (λ _, true) (λ _, true) (λ _, false))
            true true [txt "b_0001.md"]);
    [vm_compute; reflexivity| |done..].
  apply list_elem_of_fmap. exists (txt "b_0001.md"). split; [|by left].
  vm_compute. reflexivity.
Defined.

Lemma summary_counts_every_book_witness :
  ∃ p s,
    process_input (λ _ _, None) (loads 1000) one_plain_page
      (OutputDir (λ _, false) (λ _, false) (λ _, true)) true true
      [txt "b_0001.md"; txt "c_0001.md"]
    = Results p s
    ∧ total_books s = length (books_status p).
Proof.
  eexists _, _. split; [vm_compute; reflexivity|].
  eapply (summary_counts_every_book (λ _ _, None) (loads 1000)
            one_plain_page (OutputDir (λ _, false) (λ _, false) (λ _, true))
            true true [txt "b_0001.md"; txt "c_0001.md"]).
  vm_compute. reflexivity.
Defined.

End InputFacts.

(** ** Biography extraction over the chunks *)

Module BiographyFacts.
Import Json Biography.

Section Extract.

Variable extract_biography : option text → text → result json.

Lemma foldl_process_row df acc :
  foldl (process_row extract_biography) acc df
  = Extraction
      (biographies acc ++ (biography_of extract_biography <$> df))
      (failed_extractions acc
       + length (filter (λ r, is_failed extract_biography r = true) df))
      (calls acc
       ++ ((λ r, (name r, str (markdown_chunk r)))
           <$> filter (λ r, too_short (str (markdown_chunk r)) = false) df)).
Proof.
  revert acc. induction df as [|r df IH]; intros acc.
  { simpl. rewrite !app_nil_r, Nat.add_0_r. by destruct acc. }
  cbn [foldl]. rewrite IH. clear IH. rewrite fmap_cons.
  unfold process_row, biography_of.
  destruct (too_short (str (markdown_chunk r))) eqn:Es.
  - rewrite (filter_cons_True (λ r, is_failed extract_biography r = true))
      by (unfold is_failed; by rewrite Es).
    rewrite filter_cons_False by (by rewrite Es). simpl.
    rewrite <- (assoc_L (++)). f_equal. lia.
  - rewrite (filter_cons_True
               (λ r, too_short (str (markdown_chunk r)) = false)) by done.
    destruct (extract_biography (name r) (str (markdown_chunk r)))
      as [e|biography] eqn:Ee.
    + rewrite filter_cons_True by (unfold is_failed; by rewrite Es, Ee).
      simpl. rewrite <- !(assoc_L (++)). f_equal. lia.
    + rewrite filter_cons_False by (unfold is_failed; by rewrite Es, Ee).
      simpl. rewrite <- !(assoc_L (++)). f_equal.
Qed.

Lemma too_short_missing : too_short (str None) = true.
Proof. reflexivity. Qed.

(** X28: what [process_csv] does with the chunks.  It returns only for
    a frame with at least one row: without rows the success rate divides
    by zero and [ZeroDivisionError] is raised, and without the columns
    [name] and [markdown_chunk] it raises [ValueError].  When it returns,
    every row of the frame has got one biography, in the order of the
    rows.  A row whose chunk is missing, or holds fewer than 50
    characters once trimmed, is not handed to [extract_biography]: it
    gets the empty biography with its name and is counted as failed.  The
    other rows are handed over in their order with the chunk as it
    stands.  The rows counted as failed are those and the rows for which
    [extract_biography] raised, and the two counts of the summary add up
    to the number of rows. *)
Theorem short_chunks_are_not_extracted columns df info e :
  process_csv extract_biography columns df = ret (info, e) →
  df ≠ []
  ∧ "name"%string ∈ columns ∧ "markdown_chunk"%string ∈ columns
  ∧ process_csv extract_biography columns [] = raise ZeroDivisionError
  ∧ length (biographies e) = length df
  ∧ calls e
    = (λ r, (name r, str (markdown_chunk r)))
      <$> filter (λ r, too_short (str (markdown_chunk r)) = false) df
  ∧ (∀ (i : nat) r,
       df !! i = Some r →
       markdown_chunk r = None
       ∨ too_short (str (markdown_chunk r)) = true →
       biographies e !! i = Some (_get_empty_biography (name r)))
  ∧ (∀ (i : nat) r biography,
       df !! i = Some r →
       too_short (str (markdown_chunk r)) = false →
       extract_biography (name r) (str (markdown_chunk r)) = ret biography →
       biographies e !! i = Some biography)
  ∧ failed_extractions e
    = length (filter (λ r, is_failed extract_biography r = true) df)
  ∧ successful_extractions info + count_failed_extractions info
    = total_entries info
  ∧ total_entries info = length df.
Proof.
  unfold process_csv.
  case_bool_decide as Hname; [|done]. case_bool_decide as Hchunk; [|done].
  simpl. destruct (Nat.eqb_spec (length df) 0) as [|Hrows]; [done|].
  rewrite foldl_process_row. intros [= <- <-]. simpl.
  assert (length (filter (λ r, is_failed extract_biography r = true) df)
          ≤ length df) as Hle by apply length_filter.
  split_and!.
  - by intros ->.
  - done.
  - done.
  - done.
  - by rewrite length_fmap.
  - done.
  - intros i r Hi Hshort.
    assert (too_short (str (markdown_chunk r)) = true) as Hs.
    { destruct Hshort as [-> | ?]; [apply too_short_missing|done]. }
    rewrite list_lookup_fmap, Hi. simpl. unfold biography_of.
    by rewrite Hs.
  - intros i r biography Hi Hs He.
    rewrite list_lookup_fmap, Hi. simpl. unfold biography_of.
    by rewrite Hs, He.
  - done.
  - rewrite length_fmap. lia.
  - done.
Qed.

End Extract.

Lemma short_chunks_are_not_extracted_witness :
  ∃ info e,
    process_csv (λ _ _, raise (OtherException "no service"))
      ["name"; "book_id"; "markdown_chunk"]%string
      [CsvRow (Some (txt "HANSEN, Ole")) None;
       CsvRow (Some (txt "OLSEN, Anna"))
       (Some (txt "OLSEN, Anna, born 1900"))]
    = ret (info, e)
    ∧ calls e = []
    ∧ length (biographies e) = 2.
Proof.
  eexists _, _. split; [reflexivity|].
  destruct (short_chunks_are_not_extracted
    (λ _ _, raise (OtherException "no service"))
    ["name"; "book_id"; "markdown_chunk"]%string
    [CsvRow (Some (txt "HANSEN, Ole")) None;
     CsvRow (Some (txt "OLSEN, Anna"))
       (Some (txt "OLSEN, Anna, born 1900"))]
    _ _ eq_refl) as (_ & _ & _ & _ & Hlen & Hcalls & _).
  split; [exact Hcalls|exact Hlen].
Defined.

End BiographyFacts.
